(** * OpenUriInBrowser: colour codec, icon recolouring, result caches and
      the rendering scheduler

    A shallow embedding of [plugin/ui/image.py], [plugin/ui/region_drawing.py]
    and [plugin/renderer.py].

    Conventions.
    - Python [int] is [Z]; [>>], [&], [|], [~] are [Z.shiftr], [Z.land],
      [Z.lor], [Z.lnot].
    - Python [str] is [string]; a character is a code point below 256.
    - A call that may raise returns a [result]; state that survives a raised
      exception is threaded explicitly. *)

From Stdlib Require Import ZArith List Bool Ascii String Lia Arith.
Import ListNotations.

Local Open Scope string_scope.
Local Open Scope Z_scope.

(* ================================================================== *)
(** * Exceptions *)

Inductive exn : Type :=
| ValueError (msg : string)
| TypeError
| ScanError.

Inductive result (A : Type) : Type :=
| Ok (a : A)
| Raise (e : exn).

Arguments Ok {A} a.
Arguments Raise {A} e.

Definition bind {A B : Type} (r : result A) (k : A -> result B) : result B :=
  match r with
  | Ok a => k a
  | Raise e => Raise e
  end.

Notation "'let!' x ':=' r 'in' k" := (bind r (fun x => k))
  (at level 10, x name, r at level 100, k at level 200).

Notation "'let!' ' p ':=' r 'in' k" :=
  (bind r (fun x => match x with p => k end))
  (at level 10, p pattern, r at level 100, k at level 200).

Fixpoint mapM {A B : Type} (f : A -> result B) (l : list A) : result (list B) :=
  match l with
  | [] => Ok []
  | x :: t => let! y := f x in let! ys := mapM f t in Ok (y :: ys)
  end.

(* ================================================================== *)
(** * The Python built-ins the plugin relies on *)

Module Py.

Definition code (c : ascii) : Z := Z.of_nat (nat_of_ascii c).

Definition chr (n : Z) : ascii := ascii_of_nat (Z.to_nat n).

Definition in_range (lo hi : ascii) (c : ascii) : bool :=
  (code lo <=? code c) && (code c <=? code hi).

(** The character class [[0-9a-fA-F]]. *)
Definition is_hex (c : ascii) : bool :=
  in_range "0" "9" c || in_range "a" "f" c || in_range "A" "F" c.

Fixpoint all_hex (s : string) : bool :=
  match s with
  | "" => true
  | String c t => is_hex c && all_hex t
  end.

(** Value of a character as a base-16 digit, when it is one. *)
Definition digit16 (c : ascii) : option Z :=
  if in_range "0" "9" c then Some (code c - 48)
  else if in_range "a" "f" c then Some (code c - 87)
  else if in_range "A" "F" c then Some (code c - 55)
  else None.

(** [str.lower] on one character: A-Z, and the capital letters of the
    Latin-1 block (all of 0xC0-0xDE but the multiplication sign). Below
    code point 256 [str.lower] gives one character for one; above, where
    these strings do not reach, it may give two (U+0130). *)
Definition lower_char (c : ascii) : ascii :=
  let n := code c in
  if ((65 <=? n) && (n <=? 90))
     || ((192 <=? n) && (n <=? 222) && negb (n =? 215))
  then chr (n + 32) else c.

Fixpoint lower (s : string) : string :=
  match s with
  | "" => ""
  | String c t => String (lower_char c) (lower t)
  end.

(** [s.lstrip(c)] for a one-character argument. *)
Fixpoint lstrip (c : ascii) (s : string) : string :=
  match s with
  | "" => ""
  | String d t => if Ascii.eqb d c then lstrip c t else s
  end.

(** [s[i:j]] for literal bounds [0 <= i <= j]. *)
Definition slice (i j : nat) (s : string) : string := substring i (j - i) s.

(** [s.startswith(p)]. *)
Fixpoint startswith (p s : string) {struct p} : bool :=
  match p, s with
  | "", _ => true
  | String _ _, "" => false
  | String x p', String y s' => Ascii.eqb x y && startswith p' s'
  end.

(** [bool(s)] *)
Definition truthy (s : string) : bool :=
  match s with "" => false | _ => true end.

Definition len (s : string) : Z := Z.of_nat (String.length s).

(** [c * 2] for a one-character string [c]. *)
Definition twice (c : ascii) : string := String c (String c "").

(** A pattern's final [$] matches at the end of the subject, and also just
    before a line feed that is the subject's last character. *)
Definition at_dollar (s : string) : bool :=
  match s with
  | "" => true
  | String c "" => Ascii.eqb c "010"
  | _ => false
  end.

(** [re.match(r"[0-9a-fA-F]+$", s)] as a truth value. *)
Fixpoint hex_run_then_dollar (s : string) : bool :=
  match s with
  | "" => false
  | String c t => is_hex c && (at_dollar t || hex_run_then_dollar t)
  end.

Definition match_hex_plus (s : string) : bool := hex_run_then_dollar s.

Fixpoint hex_exactly (n : nat) (s : string) : bool :=
  match n with
  | O => at_dollar s
  | S k => match s with
           | "" => false
           | String c t => is_hex c && hex_exactly k t
           end
  end.

(** [re.match(r"#[0-9a-fA-F]{8}$", s)] as a truth value. *)
Definition match_rgba_code (s : string) : bool :=
  match s with
  | String "#" t => hex_exactly 8 t
  | _ => false
  end.

(** ** [int(s, 16)] *)

(** White space skipped around the literal: tab to carriage return, the
    space, and the two spaces of the Latin-1 block (next line, no-break
    space), which [int] turns into a space before it reads. *)
Definition is_space (c : ascii) : bool :=
  let n := code c in
  ((9 <=? n) && (n <=? 13)) || (n =? 32) || (n =? 133) || (n =? 160).

Fixpoint skip_space (s : string) : string :=
  match s with
  | "" => ""
  | String c t => if is_space c then skip_space t else s
  end.

(** The digit scan: digits below the base, single underscores between them.
    [None] is a syntax error; otherwise the value and the unread rest. *)
Fixpoint scan_digits (s : string) (acc : Z) (prev_us : bool)
  : option (Z * string) :=
  match s with
  | "" => if prev_us then None else Some (acc, "")
  | String c t =>
      if Ascii.eqb c "_" then
        if prev_us then None else scan_digits t acc true
      else
        match digit16 c with
        | Some d => scan_digits t (acc * 16 + d) false
        | None => if prev_us then None else Some (acc, s)
        end
  end.

Definition strip_sign (s : string) : bool * string :=
  match s with
  | String c t =>
      if Ascii.eqb c "+" then (false, t)
      else if Ascii.eqb c "-" then (true, t)
      else (false, s)
  | "" => (false, s)
  end.

(** The prefix [0x] or [0X], and one underscore after it. *)
Definition strip_0x (s : string) : string :=
  match s with
  | String c (String x t) =>
      if Ascii.eqb c "0" && (Ascii.eqb x "x" || Ascii.eqb x "X") then
        match t with
        | String u t' => if Ascii.eqb u "_" then t' else t
        | "" => t
        end
      else s
  | _ => s
  end.

(** The exception of a rejected literal. Python's message goes on with a
    colon and the literal in quotes; the text kept here stops before it. *)
Definition invalid_literal : exn := ValueError "invalid literal for int() with base 16".

Definition int16 (s : string) : result Z :=
  let (neg, s1) := strip_sign (skip_space s) in
  let s2 := strip_0x s1 in
  if startswith "_" s2 then Raise invalid_literal
  else
    match scan_digits s2 0 false with
    | None => Raise invalid_literal
    | Some (v, rest) =>
        if (String.length rest =? String.length s2)%nat then Raise invalid_literal
        else if truthy (skip_space rest) then Raise invalid_literal
        else Ok (if neg then - v else v)
    end.

(** ** [format(n, "08x")] *)

Definition hexchar (d : Z) : ascii :=
  if d <? 10 then chr (48 + d) else chr (87 + d).

Fixpoint hex_digits (fuel : nat) (n : Z) (acc : string) : string :=
  match fuel with
  | O => acc
  | S f =>
      let acc' := String (hexchar (n mod 16)) acc in
      if n / 16 =? 0 then acc' else hex_digits f (n / 16) acc'
  end.

(** Lower-case hexadecimal of a non-negative integer, no padding. *)
Definition hex (n : Z) : string :=
  hex_digits (S (Z.to_nat (Z.log2 n))) n "".

Fixpoint zeros (k : nat) : string :=
  match k with
  | O => ""
  | S k' => String "0" (zeros k')
  end.

Definition zfill (width : nat) (s : string) : string :=
  zeros (width - String.length s) ++ s.

Definition format_08x (n : Z) : string :=
  if n <? 0 then String "-" (zfill 7 (hex (- n))) else zfill 8 (hex n).

(** [d.get(key, default)] on a dictionary with string keys. *)
Fixpoint dict_get (d : list (string * string)) (key default : string) : string :=
  match d with
  | [] => default
  | (k, v) :: t => if String.eqb k key then v else dict_get t key default
  end.

End Py.

(* ================================================================== *)
(** * The editor API read by the colour codec *)

Module Sublime.

(** [sublime.Region]: [end()] is the larger of the two ends. *)
Record Region : Type := { a : Z; b : Z }.

Definition region_end (r : Region) : Z := Z.max (a r) (b r).

(** What the codec reads of a [sublime.View]: the scope name at a point, and
    the style dictionary of a scope. *)
Record View : Type := {
  scope_name : Z -> string;
  style_for_scope : string -> list (string * string)
}.

(** [sublime.active_window().active_view()]: a view, or nothing. *)
Record Api : Type := { active_view : option View }.

End Sublime.

(* ================================================================== *)
(** * plugin/ui/image.py *)

Module Image.

Import Py Sublime.

(** Modelled from the spec: [utils.simple_decorator], which is not among the
    sources. [@simple_decorator(d)] on [f] gives the function that applies
    [d] to the value [f] returns (section 4.4: the codec first recognises
    the input, then brings it to the eight-digit lower-case form). *)
Definition simple_decorator {A B C : Type}
  (decorator : B -> result C) (decoratee : A -> result B) : A -> result C :=
  fun args => let! r := decoratee args in decorator r.

Definition add_alpha_to_rgb (color_code : string) : result string :=
  let rgb := slice 0 8 (lstrip "#" color_code) in
  if negb (truthy rgb) then Ok ""
  else if len rgb =? 8 then Ok (lower ("#" ++ rgb))
  else
    let rgb :=
      match rgb with
      | String c0 (String c1 (String c2 "")) => twice c0 ++ twice c1 ++ twice c2
      | _ => rgb
      end in
    if len rgb =? 6 then Ok (lower ("#" ++ slice 0 6 rgb ++ "ff"))
    else Raise (ValueError ("Invalid RGB/RGBA color code: " ++ color_code)).

(** The function under the decorator. *)
Definition color_code_to_rgba_body (api : Api)
  (args : string * Region) : result string :=
  let (color_code, region) := args in
  if negb (truthy color_code) then Ok ""
  else if negb (startswith "#" color_code) then
    match active_view api with
    | Some view =>
        let color :=
          dict_get (style_for_scope view (scope_name view (region_end region - 1)))
                   "foreground" "" in
        if String.eqb color_code "@scope" then Ok color
        else if String.eqb color_code "@scope_inverted" then
          let! rgba_int := int16 (slice 1 9 (color ++ "ff")) in
          Ok ("#" ++ format_08x
                (Z.lor (Z.land (Z.lnot rgba_int) 0xFFFFFF00)
                       (Z.land rgba_int 0xFF)))
        else Ok ""
    | None => Ok ""
    end
  else
    let rgb := slice 1 9 color_code in
    if ((len rgb =? 3) || (len rgb =? 6) || (len rgb =? 8)) && match_hex_plus rgb
    then Ok ("#" ++ rgb)
    else Ok "".

Definition color_code_to_rgba (api : Api) (color_code : string)
  (region : Region) : result string :=
  simple_decorator add_alpha_to_rgb (color_code_to_rgba_body api)
    (color_code, region).

(** ** Pixels *)

(** A group of four produced by [grouper(row, 4)]; a short last group is
    filled with [None]. *)
Definition group : Type := (option Z * option Z * option Z * option Z)%type.

Fixpoint grouper (row : list Z) : list group :=
  match row with
  | [] => []
  | [r] => [(Some r, None, None, None)]
  | [r; g] => [(Some r, Some g, None, None)]
  | [r; g; b] => [(Some r, Some g, Some b, None)]
  | r :: g :: b :: a :: rest => (Some r, Some g, Some b, Some a) :: grouper rest
  end.

(** Arithmetic on a filled-in [None] raises. *)
Definition int_of (x : option Z) : result Z :=
  match x with
  | Some v => Ok v
  | None => Raise TypeError
  end.

Definition calculate_gray (rgb : group) : result Z :=
  let '(r, g, b, _) := rgb in
  let! r := int_of r in
  let! g := int_of g in
  let! b := int_of b in
  Ok (Z.shiftr (r * 38 + g * 75 + b * 15) 7).

Definition render_pixel (rgba_src : group) (rgba_dst : Z * Z * Z * Z)
  (invert_gray : bool) : result (list Z) :=
  let '(d0, d1, d2, d3) := rgba_dst in
  let! gray := calculate_gray rgba_src in
  let gray := if invert_gray then 0xFF - gray else gray in
  let '(_, _, _, src3) := rgba_src in
  let! src3 := int_of src3 in
  Ok [ Z.shiftr (d0 * gray) 8;
       Z.shiftr (d1 * gray) 8;
       Z.shiftr (d2 * gray) 8;
       Z.shiftr (d3 * src3) 8 ].

Definition sum (l : list Z) : Z := fold_left Z.add l 0.

Section Png.

(** The vendored PNG library ([libs/png.py]) is taken as given.
    [png_asRGBA b] stands for [png.Reader(bytes=b).asRGBA()]: width, height
    and the rows, each row a flat list of channel values.
    [png_write rows] stands for writing [png.from_array(rows, "RGBA")] to a
    buffer and returning the buffer's value. *)
Variable bytes : Type.
Variable png_asRGBA : bytes -> result (Z * Z * list (list Z)).
Variable png_write : list (list Z) -> result bytes.

Definition is_img_light (img_bytes : bytes) : result bool :=
  let! '(w, h, rows) := png_asRGBA img_bytes in
  let! grays := mapM calculate_gray (flat_map grouper rows) in
  Ok (Z.shiftr (sum grays) 7 >? w * h).

Definition render_row (rgba_dst : Z * Z * Z * Z) (invert_gray : bool)
  (row_src : list Z) : result (list Z) :=
  let! pixels := mapM (fun rgba_src => render_pixel rgba_src rgba_dst invert_gray)
                      (grouper row_src) in
  Ok (List.concat pixels).

(** The function under [@lru_cache]. *)
Definition change_png_bytes_color (img_bytes : bytes) (rgba_code : string)
  : result bytes :=
  if negb (truthy rgba_code) then Ok img_bytes
  else if negb (match_rgba_code rgba_code)
  then Raise (ValueError ("Invalid RGBA color code: " ++ rgba_code))
  else
    let! light := is_img_light img_bytes in
    let invert_gray := negb light in
    let! d0 := int16 (slice 1 3 rgba_code) in
    let! d1 := int16 (slice 3 5 rgba_code) in
    let! d2 := int16 (slice 5 7 rgba_code) in
    let! d3 := int16 (slice 7 9 rgba_code) in
    let! '(_, _, rows) := png_asRGBA img_bytes in
    let! rows_dst := mapM (render_row (d0, d1, d2, d3) invert_gray) rows in
    png_write rows_dst.

End Png.

End Image.

(* ================================================================== *)
(** * [functools.lru_cache] *)

Module LruCache.

Section Cache.

Variables K V : Type.
Variable K_eq_dec : forall x y : K, {x = y} + {x <> y}.

(** The cached results, most recently used first. *)
Definition cache : Type := list (K * V).

Fixpoint cache_get (key : K) (c : cache) : option V :=
  match c with
  | [] => None
  | (k, v) :: t => if K_eq_dec key k then Some v else cache_get key t
  end.

Fixpoint remove (key : K) (c : cache) : cache :=
  match c with
  | [] => []
  | (k, v) :: t => if K_eq_dec key k then remove key t else (k, v) :: remove key t
  end.

(** A hit moves the entry to the front. *)
Definition touch (key : K) (v : V) (c : cache) : cache := (key, v) :: remove key c.

(** A miss puts the new result at the front; a full cache gives up its
    least recently used entry. *)
Definition store (maxsize : nat) (key : K) (v : V) (c : cache) : cache :=
  firstn maxsize ((key, v) :: c).

(** The wrapper around a user function that may itself read and change a
    state [S]. A raised exception is not cached. *)
Definition wrapper {S : Type} (maxsize : nat)
  (user_function : K -> S -> result V * S)
  (key : K) (c : cache) (s : S) : result V * cache * S :=
  match cache_get key c with
  | Some v => (Ok v, touch key v c, s)
  | None =>
      match user_function key s with
      | (Ok v, s') => (Ok v, store maxsize key v c, s')
      | (Raise e, s') => (Raise e, c, s')
      end
  end.

End Cache.

Arguments cache_get {K V} K_eq_dec key c.
Arguments remove {K V} K_eq_dec key c.
Arguments touch {K V} K_eq_dec key v c.
Arguments store {K V} maxsize key v c.
Arguments wrapper {K V} K_eq_dec {S} maxsize user_function key c s.

(** [@lru_cache] written without arguments leaves [maxsize] at its default. *)
Definition default_maxsize : nat := 128.

End LruCache.

(* ================================================================== *)
(** * The two cached functions of plugin/ui/image.py *)

Module CachedImage.

Import Py Image LruCache.

Section Cached.

Variable bytes : Type.
Variable bytes_eq_dec : forall x y : bytes, {x = y} + {x <> y}.
Variable png_asRGBA : bytes -> result (Z * Z * list (list Z)).
Variable png_write : list (list Z) -> result bytes.

(** [global_get("images.<name>.bytes")], [global_get("images.<name>.base64")]
    and [base64.b64encode(b).decode()]. *)
Variable images_bytes : string -> bytes.
Variable images_base64 : string -> string.
Variable b64encode : bytes -> string.

Definition png_key : Type := (bytes * string)%type.
Definition color_key : Type := (string * string)%type.

Definition png_key_eq_dec (x y : png_key) : {x = y} + {x <> y}.
Proof. decide equality; auto using string_dec. Defined.

Definition color_key_eq_dec (x y : color_key) : {x = y} + {x <> y}.
Proof. decide equality; auto using string_dec. Defined.

(** The caches of the two decorated functions. *)
Record Caches : Type := {
  color_cache : cache color_key string;
  png_cache : cache png_key bytes
}.

Definition empty_caches : Caches := {| color_cache := []; png_cache := [] |}.

(** [change_png_bytes_color], as callers see it. *)
Definition change_png_bytes_color (img_bytes : bytes) (rgba_code : string)
  (c : cache png_key bytes) : result bytes * cache png_key bytes :=
  let '(r, c', _) :=
    wrapper png_key_eq_dec default_maxsize
      (fun key (_ : unit) =>
         (Image.change_png_bytes_color bytes png_asRGBA png_write (fst key) (snd key), tt))
      (img_bytes, rgba_code) c tt in
  (r, c').

(** The function under the decorator of [get_colored_image_base64_by_color]. *)
Definition get_colored_image_base64_by_color_body (key : color_key)
  (c : cache png_key bytes) : result string * cache png_key bytes :=
  let (img_name, rgba_code) := key in
  if negb (truthy rgba_code) then (Ok (images_base64 img_name), c)
  else
    let img_bytes := images_bytes img_name in
    match change_png_bytes_color img_bytes rgba_code c with
    | (Ok img_bytes, c') => (Ok (b64encode img_bytes), c')
    | (Raise e, c') => (Raise e, c')
    end.

Definition get_colored_image_base64_by_color (img_name rgba_code : string)
  (st : Caches) : result string * Caches :=
  let '(r, cc, pc) :=
    wrapper color_key_eq_dec default_maxsize
      get_colored_image_base64_by_color_body
      (img_name, rgba_code) (color_cache st) (png_cache st) in
  (r, {| color_cache := cc; png_cache := pc |}).

(** A sequence of calls, results dropped. *)
Fixpoint lookups (keys : list color_key) (st : Caches) : Caches :=
  match keys with
  | [] => st
  | (img_name, rgba_code) :: t =>
      lookups t (snd (get_colored_image_base64_by_color img_name rgba_code st))
  end.

End Cached.

End CachedImage.
(* ================================================================== *)
(** * The host editor as the scheduler sees it *)

Module Host.

Import Sublime.

Definition view_id : Type := nat.

(** The drawn regions stored under one key of a view. *)
Record RegionSet : Type := {
  rs_regions : list Region;
  rs_scope : string;
  rs_icon : string;
  rs_flags : Z
}.

(** The [flags] entry of the [draw_uri_regions] setting: an integer, or a
    list of names of [sublime] constants. *)
Inductive Flags : Type :=
| FlagsInt (n : Z)
| FlagsNames (names : list string).

Record Settings : Type := {
  work_for_transient_view : bool;
  large_file_threshold : Z;
  show_open_button : view_id -> string;
  draw_uri_regions_enabled : string;
  draw_uri_regions_scope : string;
  draw_uri_regions_icon : string;
  draw_uri_regions_flags : Flags
}.

(** One view: the flags the eligibility tests read, the result (or failure) of matching
    the pattern against its text, and its two overlay layers. *)
Record ViewData : Type := {
  processable : bool;
  is_dirty : bool;
  typing : bool;
  transient : bool;
  size : Z;
  matches : result (list Region);
  phantom_set : list Region;
  regions : string -> option RegionSet
}.

(** Calls made to the collaborators, oldest first. *)
Inductive Event : Type :=
| FindAll (v : view_id)
| UpdatePhantoms (v : view_id) (rs : list Region)
| ErasePhantoms (v : view_id)
| AddRegions (v : view_id) (key : string)
| EraseRegions (v : view_id) (key : string).

Definition event_view (e : Event) : view_id :=
  match e with
  | FindAll v | UpdatePhantoms v _ | ErasePhantoms v
  | AddRegions v _ | EraseRegions v _ => v
  end.

(** A window is its groups, each with the view active in it, if any.
    [is_rendering] is the scheduler object's own flag. *)
Record World : Type := {
  windows : list (list (option view_id));
  views : view_id -> ViewData;
  settings : Settings;
  sublime_attr : string -> option Z;
  is_rendering : bool;
  calls : list Event
}.

Definition set_views (f : view_id -> ViewData) (w : World) : World :=
  {| windows := windows w; views := f; settings := settings w;
     sublime_attr := sublime_attr w; is_rendering := is_rendering w;
     calls := calls w |}.

Definition set_is_rendering (flag : bool) (w : World) : World :=
  {| windows := windows w; views := views w; settings := settings w;
     sublime_attr := sublime_attr w; is_rendering := flag;
     calls := calls w |}.

Definition record (e : Event) (w : World) : World :=
  {| windows := windows w; views := views w; settings := settings w;
     sublime_attr := sublime_attr w; is_rendering := is_rendering w;
     calls := (calls w ++ [e])%list |}.

Definition update_view (v : view_id) (f : ViewData -> ViewData) (w : World)
  : World :=
  let d := f (views w v) in
  set_views (fun x => if Nat.eqb x v then d else views w x) w.

(** ** State and exceptions *)

Definition M (A : Type) : Type := World -> result A * World.

Definition ret {A : Type} (x : A) : M A := fun w => (Ok x, w).

Definition raise {A : Type} (e : exn) : M A := fun w => (Raise e, w).

Definition seq {A B : Type} (m : M A) (k : A -> M B) : M B :=
  fun w =>
    match m w with
    | (Ok x, w') => k x w'
    | (Raise e, w') => (Raise e, w')
    end.

Definition gets {A : Type} (f : World -> A) : M A := fun w => (Ok (f w), w).

Definition modify (f : World -> World) : M unit := fun w => (Ok tt, f w).

(** [for x in l: body(x)] *)
Fixpoint for_each {A : Type} (l : list A) (body : A -> M unit) : M unit :=
  match l with
  | [] => ret tt
  | x :: t => seq (body x) (fun _ => for_each t body)
  end.

End Host.

Declare Scope host_scope.
Delimit Scope host_scope with host.

Notation "x <- m ;; k" := (Host.seq m (fun x => k))
  (at level 61, m at next level, right associativity) : host_scope.
Notation "m ;; k" := (Host.seq m (fun _ => k))
  (at level 61, right associativity) : host_scope.

(* ================================================================== *)
(** * The helpers of the scheduler that are not among the sources *)

Module Helpers.

Import Sublime Host.
Local Open Scope host_scope.

(** [logger.log] only prints; its calls are left out. *)

(** Modelled from the spec: [utils.is_processable_view], the delegated
    predicate of eligibility test (a). *)
Definition is_processable_view (v : view_id) : M bool :=
  gets (fun w => processable (views w v)).

(** Modelled from the spec: [functions.view_is_dirty_val] without a value,
    reading the dirty flag. *)
Definition view_is_dirty_val (v : view_id) : M bool :=
  gets (fun w => is_dirty (views w v)).

Definition with_dirty (flag : bool) (d : ViewData) : ViewData :=
  {| processable := processable d; is_dirty := flag; typing := typing d;
     transient := transient d; size := size d; matches := matches d;
     phantom_set := phantom_set d; regions := regions d |}.

(** Modelled from the spec: [functions.view_is_dirty_val] with a value,
    writing the dirty flag. *)
Definition view_is_dirty_val_set (v : view_id) (flag : bool) : M unit :=
  modify (update_view v (with_dirty flag)).

(** Modelled from the spec: [functions.is_view_typing]. *)
Definition is_view_typing (v : view_id) : M bool :=
  gets (fun w => typing (views w v)).

(** Modelled from the spec: [utils.is_transient_view]. *)
Definition is_transient_view (v : view_id) : M bool :=
  gets (fun w => transient (views w v)).

(** Modelled from the spec: [functions.is_view_too_large]: the view's size
    exceeds the configured threshold. *)
Definition is_view_too_large (v : view_id) : M bool :=
  gets (fun w => size (views w v) >? large_file_threshold (settings w)).

(** Modelled from the spec: [utils.view_find_all], the match scanner. It has
    no effect on the view; it yields the matches or fails. *)
Definition view_find_all (v : view_id) : M (list Region) :=
  modify (record (FindAll v)) ;;
  fun w => (matches (views w v), w).

Definition with_phantoms (rs : list Region) (d : ViewData) : ViewData :=
  {| processable := processable d; is_dirty := is_dirty d; typing := typing d;
     transient := transient d; size := size d; matches := matches d;
     phantom_set := rs; regions := regions d |}.

(** Modelled from the spec: [phantom_set.erase_phantom_set], clearing the
    icon layer of the view. *)
Definition erase_phantom_set (v : view_id) : M unit :=
  modify (record (ErasePhantoms v)) ;;
  modify (update_view v (with_phantoms [])).

(** Modelled from the spec: [phantom_set.update_phantom_set], replacing the
    icon layer of the view by one icon per match. *)
Definition update_phantom_set (v : view_id) (uri_regions : list Region) : M unit :=
  modify (record (UpdatePhantoms v uri_regions)) ;;
  modify (update_view v (with_phantoms uri_regions)).

Definition with_regions (f : string -> option RegionSet) (d : ViewData)
  : ViewData :=
  {| processable := processable d; is_dirty := is_dirty d; typing := typing d;
     transient := transient d; size := size d; matches := matches d;
     phantom_set := phantom_set d; regions := f |}.

(** [view.erase_regions(key)] *)
Definition erase_regions (v : view_id) (key : string) : M unit :=
  modify (record (EraseRegions v key)) ;;
  modify (update_view v (fun d =>
    with_regions (fun k => if String.eqb k key then None else regions d k) d)).

(** [view.add_regions(key, regions, scope=, icon=, flags=)] *)
Definition add_regions (v : view_id) (key : string) (rs : RegionSet) : M unit :=
  modify (record (AddRegions v key)) ;;
  modify (update_view v (fun d =>
    with_regions (fun k => if String.eqb k key then Some rs else regions d k) d)).

End Helpers.

(* ================================================================== *)
(** * plugin/ui/region_drawing.py *)

Module RegionDrawing.

Import Sublime Host Helpers.
Local Open Scope host_scope.

Definition erase_uri_regions (view : view_id) : M unit :=
  erase_regions view "OUIB_uri_regions".

(** [getattr(sublime, flag, 0)] folded with [xor]. *)
Definition parse_draw_region_flags (attr : string -> option Z) (flags : Flags) : Z :=
  match flags with
  | FlagsInt n => n
  | FlagsNames names =>
      fold_left Z.lxor
        (map (fun flag => match attr flag with Some n => n | None => 0 end) names)
        0
  end.

Definition draw_uri_regions (view : view_id) (uri_regions : list Region) : M unit :=
  s <- gets settings ;;
  attr <- gets sublime_attr ;;
  add_regions view "OUIB_uri_regions"
    {| rs_regions := uri_regions;
       rs_scope := draw_uri_regions_scope s;
       rs_icon := draw_uri_regions_icon s;
       rs_flags := parse_draw_region_flags attr (draw_uri_regions_flags s) |}.

End RegionDrawing.

(* ================================================================== *)
(** * plugin/renderer.py *)

Module Renderer.

Import Sublime Host Helpers RegionDrawing.
Local Open Scope host_scope.

Definition foreground_views (w : World) : list view_id :=
  flat_map
    (fun window =>
       flat_map (fun group => match group with Some view => [view] | None => [] end)
                window)
    (windows w).

Definition _clean_up_phantom_set (view : view_id) : M unit :=
  erase_phantom_set view.

Definition _clean_up_uri_regions (view : view_id) : M unit :=
  erase_uri_regions view.

Definition _detect_uris_globally (view : view_id) : M unit :=
  uri_regions <- view_find_all view ;;
  s <- gets settings ;;
  (if String.eqb (show_open_button s view) "always"
   then update_phantom_set view uri_regions
   else _clean_up_phantom_set view) ;;
  (if String.eqb (draw_uri_regions_enabled s) "always"
   then draw_uri_regions view uri_regions
   else _clean_up_uri_regions view).

Definition _update_view (view : view_id) : M unit :=
  processable <- is_processable_view view ;;
  dirty <- view_is_dirty_val view ;;
  typing <- is_view_typing view ;;
  transient <- is_transient_view view ;;
  s <- gets settings ;;
  if negb processable || negb dirty || typing
     || (transient && negb (work_for_transient_view s))
  then ret tt
  else
    too_large <- is_view_too_large view ;;
    if too_large then
      _clean_up_phantom_set view ;;
      _clean_up_uri_regions view ;;
      view_is_dirty_val_set view false
    else
      _detect_uris_globally view ;;
      view_is_dirty_val_set view false.

Definition _update_foreground_views : M unit :=
  rendering <- gets is_rendering ;;
  if rendering then ret tt
  else
    modify (set_is_rendering true) ;;
    fv <- gets foreground_views ;;
    for_each fv _update_view ;;
    modify (set_is_rendering false).

(** ** Ticks that overlap

    The timer may fire a tick while an earlier one is still running, and
    the source has no lock: the statements of [_update_foreground_views]
    are steps of their own, and steps of other ticks and of the editor may
    fall between them. The three statements that read or write the flag: *)

(** [if self.is_rendering:] (line 30) *)
Definition guard_test : M bool := gets is_rendering.

(** [self.is_rendering = True] (line 33) *)
Definition flag_up : M unit := modify (set_is_rendering true).

(** [self.is_rendering = False] (line 36) *)
Definition flag_down : M unit := modify (set_is_rendering false).

(** Where a tick stands: fired, with line 30 yet to run; past the guard,
    which it found down, with line 33 yet to run; or in the loop of lines
    34-35, its scan pass. *)
Inductive thread : Type :=
| AtGuard
| Passed
| Looping.

Record Sched : Type := {
  world : World;
  threads : list thread
}.

Definition editor_change (w w' : World) : Prop :=
  is_rendering w' = is_rendering w /\ calls w' = calls w.

Inductive action : Type :=
| Fire
| TurnedAway
| PassGuard
| RaiseFlag
| Visit (view : view_id)
| Die (view : view_id)
| Finish
| Edit.

(** One step of one tick, or of the editor. A tick at its guard returns if
    it reads the flag up and goes on if it reads it down; a tick past the
    guard raises the flag and enters its loop; a tick in its loop hands the
    view its generator yields to [_update_view], leaves through an
    exception of that call, or finds the generator exhausted and resets the
    flag. [foreground_views] is a generator: the view it yields is read
    from the windows when it is resumed, and the editor may have changed
    them since the loop began, so the visit is a step for any view. The
    editor may change anything but the scheduler's own flag and the record
    of calls. *)
Inductive step : action -> Sched -> Sched -> Prop :=
| fires w ts :
    step Fire {| world := w; threads := ts |}
              {| world := w; threads := AtGuard :: ts |}
| turned_away w w' ts1 ts2 :
    guard_test w = (Ok true, w') ->
    step TurnedAway
         {| world := w; threads := (ts1 ++ AtGuard :: ts2)%list |}
         {| world := w'; threads := (ts1 ++ ts2)%list |}
| passes_guard w w' ts1 ts2 :
    guard_test w = (Ok false, w') ->
    step PassGuard
         {| world := w; threads := (ts1 ++ AtGuard :: ts2)%list |}
         {| world := w'; threads := (ts1 ++ Passed :: ts2)%list |}
| raises_flag w w' ts1 ts2 :
    flag_up w = (Ok tt, w') ->
    step RaiseFlag
         {| world := w; threads := (ts1 ++ Passed :: ts2)%list |}
         {| world := w'; threads := (ts1 ++ Looping :: ts2)%list |}
| visits w w' view ts1 ts2 :
    _update_view view w = (Ok tt, w') ->
    step (Visit view)
         {| world := w; threads := (ts1 ++ Looping :: ts2)%list |}
         {| world := w'; threads := (ts1 ++ Looping :: ts2)%list |}
| dies w w' e view ts1 ts2 :
    _update_view view w = (Raise e, w') ->
    step (Die view)
         {| world := w; threads := (ts1 ++ Looping :: ts2)%list |}
         {| world := w'; threads := (ts1 ++ ts2)%list |}
| finishes w w' ts1 ts2 :
    flag_down w = (Ok tt, w') ->
    step Finish
         {| world := w; threads := (ts1 ++ Looping :: ts2)%list |}
         {| world := w'; threads := (ts1 ++ ts2)%list |}
| editor_acts w w' ts :
    editor_change w w' ->
    step Edit {| world := w; threads := ts |} {| world := w'; threads := ts |}.

(** Runs whose every step is allowed by [allowed] in the state it is taken
    from. *)
Inductive run (allowed : action -> Sched -> Prop) : Sched -> Sched -> Prop :=
| run_nil s : run allowed s s
| run_step s1 s2 a s3 :
    run allowed s1 s2 -> allowed a s2 -> step a s2 s3 -> run allowed s1 s3.


(** No tick passes the guard while another one stands between its own
    guard test and its flag assignment. *)
Definition orderly (a : action) (s : Sched) : Prop :=
  a = PassGuard -> ~ In Passed (threads s).



(** What follows a world in time: ticks of the scheduler, run to
    completion, and changes made by the editor. *)
Inductive later : World -> World -> Prop :=
| later_now w : later w w
| later_tick w w1 r w2 :
    later w w1 -> _update_foreground_views w1 = (r, w2) -> later w w2
| later_edit w w1 w2 :
    later w w1 -> editor_change w1 w2 -> later w w2.

End Renderer.
(* ================================================================== *)
(** * Facts about characters and strings *)

Module PyFacts.

Import Py.

(** Case analysis over the 256 characters. *)
Ltac each_char c :=
  destruct c as [[|] [|] [|] [|] [|] [|] [|] [|]];
  vm_compute in *; try discriminate; try reflexivity; auto.

(** Digit value of a hexadecimal character (0 for any other). *)
Definition hexval (c : ascii) : Z :=
  match digit16 c with
  | Some d => d
  | None => 0
  end.

(** The characters of the canonical form. *)
Definition is_lower_hex (c : ascii) : bool :=
  in_range "0" "9" c || in_range "a" "f" c.

Fixpoint all_lower_hex (s : string) : bool :=
  match s with
  | "" => true
  | String c t => is_lower_hex c && all_lower_hex t
  end.

Lemma is_hex_not_hash c : is_hex c = true -> Ascii.eqb c "#" = false.
Proof. intros H. each_char c. Qed.

Lemma is_hex_not_space c : is_hex c = true -> is_space c = false.
Proof. intros H. each_char c. Qed.

Lemma is_hex_not_underscore c : is_hex c = true -> Ascii.eqb c "_" = false.
Proof. intros H. each_char c. Qed.

Lemma is_hex_digit16 c : is_hex c = true -> digit16 c = Some (hexval c).
Proof. intros H. each_char c. Qed.

Lemma hexval_range c : 0 <= hexval c < 16.
Proof.
  destruct c as [[|] [|] [|] [|] [|] [|] [|] [|]]; vm_compute; split; congruence.
Qed.

Lemma is_hex_lower c : is_hex c = true -> is_lower_hex (lower_char c) = true.
Proof. intros H. each_char c. Qed.

Lemma hexchar_hexval c : is_hex c = true -> hexchar (hexval c) = lower_char c.
Proof. intros H. each_char c. Qed.

Lemma is_lower_hex_fixed c : is_lower_hex c = true -> lower_char c = c.
Proof. intros H. each_char c. Qed.

Lemma all_hex_lower s : all_hex s = true -> all_lower_hex (lower s) = true.
Proof.
  induction s as [|c t IH]; simpl; [reflexivity|].
  intros H. apply andb_true_iff in H as [Hc Ht].
  rewrite (is_hex_lower c Hc). simpl. auto.
Qed.

Lemma lower_fixed s : all_lower_hex s = true -> lower s = s.
Proof.
  induction s as [|c t IH]; simpl; [reflexivity|].
  intros H. apply andb_true_iff in H as [Hc Ht].
  rewrite (is_lower_hex_fixed c Hc), (IH Ht). reflexivity.
Qed.

Lemma lower_length s : String.length (lower s) = String.length s.
Proof. induction s; simpl; congruence. Qed.

Lemma length_app s t :
  String.length (s ++ t) = (String.length s + String.length t)%nat.
Proof. induction s; simpl; congruence. Qed.

Lemma lower_app s t : lower (s ++ t) = lower s ++ lower t.
Proof. induction s; simpl; congruence. Qed.

Lemma all_lower_hex_app s t :
  all_lower_hex (s ++ t) = all_lower_hex s && all_lower_hex t.
Proof.
  induction s as [|c s IH]; simpl; [reflexivity|].
  rewrite IH, andb_assoc. reflexivity.
Qed.

Lemma substring_all n s :
  (String.length s <= n)%nat -> substring 0 n s = s.
Proof.
  revert s. induction n as [|n IH]; intros [|c t] H; simpl in *;
    try reflexivity; try lia.
  rewrite IH by lia. reflexivity.
Qed.

Lemma lstrip_hex s : all_hex s = true -> lstrip "#" s = s.
Proof.
  destruct s as [|c t]; simpl; [reflexivity|].
  intros H. apply andb_true_iff in H as [Hc _].
  rewrite (is_hex_not_hash c Hc). reflexivity.
Qed.

Lemma match_hex_plus_all_hex s :
  all_hex s = true -> s <> "" -> match_hex_plus s = true.
Proof.
  unfold match_hex_plus.
  induction s as [|c t IH]; [congruence|].
  simpl. intros H _. apply andb_true_iff in H as [Hc Ht].
  rewrite Hc. simpl. destruct t as [|d u]; [reflexivity|].
  rewrite IH by (auto; discriminate). apply orb_true_r.
Qed.

End PyFacts.

(* ================================================================== *)
(** * The colour codec on hexadecimal input *)

Module Codec.

Import Py Sublime Image PyFacts.

(** The specification's words: each digit of the short form is doubled. *)
Fixpoint double_digits (s : string) : string :=
  match s with
  | "" => ""
  | String c t => String c (String c (double_digits t))
  end.

(** The specification's canonical form of [#] followed by the digits [h]. *)
Definition canonical_of (h : string) : string :=
  match String.length h with
  | 3%nat => "#" ++ lower (double_digits h) ++ "ff"
  | 6%nat => "#" ++ lower h ++ "ff"
  | _ => "#" ++ lower h
  end.

(** The shape [#[0-9a-f]{8}]. *)
Definition is_canonical (s : string) : bool :=
  match s with
  | String "#" t => (String.length t =? 8)%nat && all_lower_hex t
  | _ => false
  end.

Lemma body_hex api region h :
  all_hex h = true ->
  (String.length h = 3 \/ String.length h = 6 \/ String.length h = 8)%nat ->
  color_code_to_rgba_body api ("#" ++ h, region) = Ok ("#" ++ h).
Proof.
  intros Hh Hl. unfold color_code_to_rgba_body. cbv beta iota.
  change (truthy ("#" ++ h)) with true.
  change (startswith "#" ("#" ++ h)) with true.
  cbv beta iota. change (negb true) with false. cbv iota.
  assert (Hs : slice 1 9 ("#" ++ h) = h).
  { unfold slice. change (substring 1 (9 - 1) ("#" ++ h)) with (substring 0 8 h).
    apply substring_all. lia. }
  rewrite Hs.
  rewrite match_hex_plus_all_hex; auto.
  - unfold len. destruct Hl as [-> | [-> | ->]]; reflexivity.
  - destruct h; [simpl in Hl; lia | discriminate].
Qed.

Lemma add_alpha_hex h :
  all_hex h = true ->
  (String.length h = 3 \/ String.length h = 6 \/ String.length h = 8)%nat ->
  add_alpha_to_rgb ("#" ++ h) = Ok (canonical_of h).
Proof.
  intros Hh Hl. unfold add_alpha_to_rgb.
  change (lstrip "#" ("#" ++ h)) with (lstrip "#" h).
  rewrite (lstrip_hex h Hh).
  unfold slice. rewrite (substring_all (8 - 0) h) by lia.
  unfold canonical_of, len.
  destruct Hl as [Hl | [Hl | Hl]]; rewrite Hl.
  - destruct h as [|c0 [|c1 [|c2 [|c3 t]]]]; try discriminate. reflexivity.
  - destruct h as [|c0 [|c1 [|c2 [|c3 [|c4 [|c5 [|c6 t]]]]]]]; try discriminate.
    reflexivity.
  - destruct h as [|c0 [|c1 [|c2 [|c3 [|c4 [|c5 [|c6 [|c7 [|c8 t]]]]]]]]];
      try discriminate.
    reflexivity.
Qed.

Lemma canonical_of_is_canonical h :
  all_hex h = true ->
  (String.length h = 3 \/ String.length h = 6 \/ String.length h = 8)%nat ->
  is_canonical (canonical_of h) = true.
Proof.
  intros Hh Hl. unfold canonical_of.
  destruct Hl as [Hl | [Hl | Hl]]; rewrite Hl; cbn [is_canonical append].
  - destruct h as [|c0 [|c1 [|c2 [|c3 t]]]]; try discriminate.
    simpl in Hh. repeat rewrite andb_true_iff in Hh.
    destruct Hh as (H0 & H1 & H2 & _).
    simpl. rewrite !is_hex_lower by assumption. reflexivity.
  - rewrite all_lower_hex_app, all_hex_lower by assumption.
    rewrite length_app, lower_length, Hl. reflexivity.
  - rewrite all_hex_lower by assumption. rewrite lower_length, Hl. reflexivity.
Qed.

(** A character that is neither a hexadecimal digit nor a line feed. *)
Definition stray (c : ascii) : bool := negb (is_hex c) && negb (Ascii.eqb c "010").

Fixpoint any (p : ascii -> bool) (s : string) : bool :=
  match s with
  | "" => false
  | String c t => p c || any p t
  end.

Lemma stray_no_match rgb : any stray rgb = true -> match_hex_plus rgb = false.
Proof.
  unfold match_hex_plus.
  induction rgb as [|c t IH]; simpl; [discriminate|].
  intros H. destruct (is_hex c) eqn:Hc; [|reflexivity].
  unfold stray in H at 1. rewrite Hc in H. simpl in H.
  rewrite (IH H), orb_false_r. simpl.
  destruct t as [|d u]; [discriminate|].
  destruct u as [|d' u']; [|reflexivity].
  simpl in H. rewrite orb_false_r in H. unfold stray in H.
  apply andb_true_iff in H as [_ H]. simpl.
  destruct (Ascii.eqb d "010"); [discriminate | reflexivity].
Qed.

Lemma body_rejects api region s :
  let rgb := substring 0 8 s in
  (String.length rgb <> 3 /\ String.length rgb <> 6 /\ String.length rgb <> 8)%nat
  \/ any stray rgb = true ->
  color_code_to_rgba_body api ("#" ++ s, region) = Ok "".
Proof.
  intros rgb H. unfold color_code_to_rgba_body. cbv beta iota.
  change (truthy ("#" ++ s)) with true.
  change (startswith "#" ("#" ++ s)) with true.
  change (negb true) with false. cbv iota.
  change (slice 1 9 ("#" ++ s)) with rgb.
  destruct H as [(H3 & H6 & H8) | H].
  - unfold len.
    replace (Z.of_nat (String.length rgb) =? 3) with false
      by (symmetry; apply Z.eqb_neq; lia).
    replace (Z.of_nat (String.length rgb) =? 6) with false
      by (symmetry; apply Z.eqb_neq; lia).
    replace (Z.of_nat (String.length rgb) =? 8) with false
      by (symmetry; apply Z.eqb_neq; lia).
    reflexivity.
  - rewrite (stray_no_match rgb H), andb_false_r. reflexivity.
Qed.

(** ** The claims about hexadecimal input *)

(** C5. For every input [#h] with [h] made of exactly 3, 6 or 8 hexadecimal
    digits, [color_code_to_rgba] returns the canonical form: the digits of
    a 3-digit input doubled and [ff] appended, [ff] appended to a 6-digit
    input, an 8-digit input unchanged, all in lower case, so that the
    result has the shape [#[0-9a-f]{8}]; and the empty input gives the
    empty output. *)
Theorem normalize_hex_forms (api : Api) (region : Region) :
  (forall h,
      all_hex h = true ->
      (String.length h = 3 \/ String.length h = 6 \/ String.length h = 8)%nat ->
      color_code_to_rgba api ("#" ++ h) region = Ok (canonical_of h)
      /\ is_canonical (canonical_of h) = true)
  /\ color_code_to_rgba api "" region = Ok "".
Proof.
  split; [|reflexivity].
  intros h Hh Hl. split; [|apply canonical_of_is_canonical; assumption].
  unfold color_code_to_rgba, simple_decorator.
  rewrite body_hex by assumption. simpl bind.
  apply add_alpha_hex; assumption.
Qed.

Definition no_view : Api := {| active_view := None |}.

Definition some_region : Region := {| a := 3; b := 9 |}.

Lemma normalize_hex_forms_witness :
  color_code_to_rgba no_view "#abc" some_region = Ok "#aabbccff"
  /\ color_code_to_rgba no_view "#AABBCC" some_region = Ok "#aabbccff"
  /\ color_code_to_rgba no_view "#aabbccdd" some_region = Ok "#aabbccdd".
Proof.
  destruct (normalize_hex_forms no_view some_region) as [H _].
  split; [|split].
  - apply (H "abc"); [reflexivity | left; reflexivity].
  - apply (H "AABBCC"); [reflexivity | right; left; reflexivity].
  - apply (H "aabbccdd"); [reflexivity | right; right; reflexivity].
Defined.

(** The result is an error of the kind the specification calls
    InvalidColorFormat. *)
Definition signals_InvalidColorFormat (r : result string) : Prop :=
  exists msg, r = Raise (ValueError msg).

(** C3, as stated, fails: [#12345] is answered with the empty string, a
    normal result, and so are an input with a non-hexadecimal character
    and one with nine digits (answered with its first eight). *)
Lemma five_digits_not_signalled :
  color_code_to_rgba no_view "#12345" some_region = Ok ""
  /\ ~ signals_InvalidColorFormat (color_code_to_rgba no_view "#12345" some_region)
  /\ color_code_to_rgba no_view "#12x" some_region = Ok ""
  /\ color_code_to_rgba no_view "#123456789" some_region = Ok "#12345678".
Proof.
  repeat split; try reflexivity.
  intros [msg H]. discriminate H.
Qed.

(** C3, amended. For every input [#s], let [rgb] be the first eight
    characters of [s] (all of [s] when it is shorter). When [rgb] does not
    have 3, 6 or 8 characters, or holds a character that is neither a
    hexadecimal digit nor a line feed, [color_code_to_rgba] returns the
    empty string as a normal result: nothing is signalled. *)
Theorem invalid_hex_gives_empty (api : Api) (region : Region) (s : string) :
  (String.length (substring 0 8 s) <> 3
   /\ String.length (substring 0 8 s) <> 6
   /\ String.length (substring 0 8 s) <> 8)%nat
  \/ any stray (substring 0 8 s) = true ->
  color_code_to_rgba api ("#" ++ s) region = Ok ""
  /\ ~ signals_InvalidColorFormat (color_code_to_rgba api ("#" ++ s) region).
Proof.
  intros H.
  assert (E : color_code_to_rgba api ("#" ++ s) region = Ok "").
  { unfold color_code_to_rgba, simple_decorator.
    rewrite body_rejects by exact H. reflexivity. }
  split; [exact E|]. rewrite E. intros [msg Hm]. discriminate Hm.
Qed.

Lemma invalid_hex_gives_empty_witness :
  color_code_to_rgba no_view "#12345" some_region = Ok ""
  /\ ~ signals_InvalidColorFormat (color_code_to_rgba no_view "#12345" some_region).
Proof.
  apply (invalid_hex_gives_empty no_view some_region "12345").
  left. repeat split; discriminate.
Defined.

End Codec.

(* ================================================================== *)
(** * Reading and printing hexadecimal *)

Module HexFacts.

Import Py PyFacts.

(** The number read from a string of hexadecimal digits, after [acc]. *)
Fixpoint horner (s : string) (acc : Z) : Z :=
  match s with
  | "" => acc
  | String c t => horner t (acc * 16 + hexval c)
  end.

(** Exactly [k] digits of [n], least significant last, put before [acc]. *)
Fixpoint digits (k : nat) (n : Z) (acc : string) : string :=
  match k with
  | O => acc
  | S k' => digits k' (n / 16) (String (hexchar (n mod 16)) acc)
  end.

Lemma is_hex_not_plus c : is_hex c = true -> Ascii.eqb c "+" = false.
Proof. intros H. each_char c. Qed.

Lemma is_hex_not_minus c : is_hex c = true -> Ascii.eqb c "-" = false.
Proof. intros H. each_char c. Qed.

Lemma is_hex_not_x c :
  is_hex c = true -> Ascii.eqb c "x" || Ascii.eqb c "X" = false.
Proof. intros H. each_char c. Qed.

Lemma no_leading_underscore c t :
  is_hex c = true -> startswith "_" (String c t) = false.
Proof. intros H. each_char c. Qed.

Lemma scan_all_hex s acc :
  all_hex s = true -> scan_digits s acc false = Some (horner s acc, "").
Proof.
  revert acc. induction s as [|c t IH]; intros acc H; simpl in *; [reflexivity|].
  apply andb_true_iff in H as [Hc Ht].
  rewrite (is_hex_not_underscore c Hc), (is_hex_digit16 c Hc). apply IH, Ht.
Qed.

Lemma strip_0x_hex s : all_hex s = true -> strip_0x s = s.
Proof.
  destruct s as [|c [|x t]]; try reflexivity.
  intros H. unfold strip_0x. simpl in H.
  apply andb_true_iff in H as [_ H]. apply andb_true_iff in H as [Hx _].
  rewrite (is_hex_not_x x Hx), andb_false_r. reflexivity.
Qed.

(** [int(s, 16)] on a non-empty string of hexadecimal digits. *)
Lemma int16_hex c t :
  all_hex (String c t) = true -> int16 (String c t) = Ok (horner (String c t) 0).
Proof.
  intros H. pose proof H as H'. simpl in H'.
  apply andb_true_iff in H' as [Hc Ht].
  unfold int16. simpl skip_space. rewrite (is_hex_not_space c Hc).
  unfold strip_sign. rewrite (is_hex_not_plus c Hc), (is_hex_not_minus c Hc).
  rewrite (strip_0x_hex _ H).
  rewrite (no_leading_underscore c t Hc), (scan_all_hex _ 0 H). reflexivity.
Qed.

Lemma digits_step k q d acc :
  0 <= d < 16 ->
  digits (S k) (q * 16 + d) acc = digits k q (String (hexchar d) acc).
Proof.
  intros Hd. simpl.
  replace ((q * 16 + d) / 16) with q by (apply Z.div_unique with d; lia).
  replace ((q * 16 + d) mod 16) with d by (apply Z.mod_unique with q; lia).
  reflexivity.
Qed.

Lemma zeros_snoc j acc : zeros (S j) ++ acc = zeros j ++ String "0" acc.
Proof. induction j as [|j IH]; [reflexivity|]. simpl in *. rewrite IH. reflexivity. Qed.

Lemma digits_zero j acc : digits j 0 acc = zeros j ++ acc.
Proof.
  revert acc. induction j as [|j IH]; intros acc; [reflexivity|].
  cbn [digits]. change (0 / 16) with 0. change (hexchar (0 mod 16)) with "0"%char.
  rewrite IH, zeros_snoc. reflexivity.
Qed.

Lemma digits_pad k : forall j n acc,
  0 <= n < 16 ^ Z.of_nat k ->
  digits (k + j) n acc = zeros j ++ digits k n acc.
Proof.
  induction k as [|k IH]; intros j n acc Hn.
  - simpl in Hn. assert (n = 0) by lia. subst n. apply digits_zero.
  - cbn [Nat.add digits]. apply IH.
    rewrite Nat2Z.inj_succ, Z.pow_succ_r in Hn by lia.
    split; [apply Z.div_pos; lia | apply Z.div_lt_upper_bound; lia].
Qed.

Lemma digits_length k : forall n acc,
  String.length (digits k n acc) = (k + String.length acc)%nat.
Proof.
  induction k as [|k IH]; intros n acc; [reflexivity|].
  cbn [digits]. rewrite IH. simpl. lia.
Qed.

Lemma hex_digits_digits fuel : forall n acc w,
  0 <= n < 16 ^ Z.of_nat fuel -> (0 < fuel)%nat ->
  n < 16 ^ Z.of_nat w -> (0 < w)%nat ->
  exists k, (k <= w)%nat /\ hex_digits fuel n acc = digits k n acc
            /\ n < 16 ^ Z.of_nat k.
Proof.
  induction fuel as [|f IH]; intros n acc w Hn Hf Hw Hw0; [lia|].
  rewrite Nat2Z.inj_succ, Z.pow_succ_r in Hn by lia.
  cbn [hex_digits]. destruct (n / 16 =? 0) eqn:E.
  - exists 1%nat. apply Z.eqb_eq in E. repeat split; try lia.
    change (16 ^ Z.of_nat 1) with 16.
    pose proof (Z.div_mod n 16 ltac:(lia)).
    pose proof (Z.mod_pos_bound n 16 ltac:(lia)). lia.
  - apply Z.eqb_neq in E.
    assert (Hq : 0 <= n / 16 < 16 ^ Z.of_nat f).
    { split; [apply Z.div_pos; lia | apply Z.div_lt_upper_bound; lia]. }
    assert (Hf' : (0 < f)%nat).
    { destruct f; [simpl in Hq; lia | lia]. }
    destruct w as [|w]; [lia|].
    rewrite Nat2Z.inj_succ, Z.pow_succ_r in Hw by lia.
    assert (Hqw : n / 16 < 16 ^ Z.of_nat w).
    { apply Z.div_lt_upper_bound; lia. }
    assert (Hw' : (0 < w)%nat).
    { destruct w; [simpl in Hqw; lia | lia]. }
    destruct (IH (n / 16) (String (hexchar (n mod 16)) acc) w Hq Hf' Hqw Hw')
      as (k & Hk & Hd & Hb).
    exists (S k). repeat split; try lia.
    + rewrite Hd. reflexivity.
    + rewrite Nat2Z.inj_succ, Z.pow_succ_r by lia.
      pose proof (Z.div_mod n 16 ltac:(lia)).
      pose proof (Z.mod_pos_bound n 16 ltac:(lia)). lia.
Qed.

(** [format(n, "08x")] prints exactly eight digits of a number below 16^8. *)
Lemma format_08x_digits n :
  0 <= n < 16 ^ 8 -> format_08x n = digits 8 n "".
Proof.
  intros Hn. unfold format_08x.
  replace (n <? 0) with false by (symmetry; apply Z.ltb_ge; lia).
  unfold hex.
  assert (Hfuel : 0 <= n < 16 ^ Z.of_nat (S (Z.to_nat (Z.log2 n)))).
  { split; [lia|].
    rewrite Nat2Z.inj_succ, Z2Nat.id by apply Z.log2_nonneg.
    destruct (Z.eq_dec n 0) as [-> | Hz]; [reflexivity|].
    pose proof (Z.log2_spec n ltac:(lia)) as [_ Hlt].
    apply Z.lt_le_trans with (1 := Hlt).
    apply Z.pow_le_mono_l. lia. }
  destruct (hex_digits_digits _ n "" 8%nat Hfuel ltac:(lia) ltac:(lia) ltac:(lia))
    as (k & Hk & Hd & Hb).
  rewrite Hd. unfold zfill. rewrite digits_length. simpl String.length.
  replace (8 - (k + 0))%nat with (8 - k)%nat by lia.
  replace 8%nat with (k + (8 - k))%nat at 2 by lia.
  symmetry. apply digits_pad. lia.
Qed.

End HexFacts.

(* ================================================================== *)
(** * The inverted scope colour *)

Module Inverted.

Import Py Sublime Image PyFacts HexFacts Codec.

(** The byte written by two hexadecimal digits. *)
Definition byte_of (hi lo : ascii) : Z := hexval hi * 16 + hexval lo.

(** A byte as two lower-case hexadecimal digits. *)
Definition hex_byte (x : Z) : string := digits 2 x "".

(** Bitwise complement within a byte. *)
Definition complement (x : Z) : Z := Z.land (Z.lnot x) 0xFF.

Lemma byte_of_range hi lo : 0 <= byte_of hi lo < 256.
Proof.
  unfold byte_of. pose proof (hexval_range hi). pose proof (hexval_range lo). lia.
Qed.

Lemma complement_byte x : 0 <= x < 256 -> complement x = 255 - x.
Proof.
  intros Hx. unfold complement.
  change (Z.land (Z.lnot x) 0xFF) with (Z.land (Z.lnot x) (Z.ones 8)).
  rewrite Z.land_ones by lia. unfold Z.lnot. change (2 ^ 8) with 256.
  symmetry. apply Z.mod_unique with (-1); lia.
Qed.

Lemma land_high_mask x :
  Z.land x 0xFFFFFF00 = ((x / 2 ^ 8) mod 2 ^ 24) * 2 ^ 8.
Proof.
  apply Z.bits_inj'. intros n Hn.
  change 0xFFFFFF00 with (Z.shiftl (Z.ones 24) 8).
  rewrite Z.land_spec, <- Z.shiftl_mul_pow2, !Z.shiftl_spec by lia.
  rewrite <- Z.land_ones, Z.land_spec, <- Z.shiftr_div_pow2 by lia.
  destruct (Z.ltb_spec n 8) as [Hlt | Hge].
  - rewrite !(Z.testbit_neg_r _ (n - 8)) by lia. apply andb_false_r.
  - rewrite Z.shiftr_spec by lia. replace (n - 8 + 8) with n by lia. reflexivity.
Qed.

Lemma lor_disjoint_bytes h l :
  0 <= l < 2 ^ 8 -> Z.lor (h * 2 ^ 8) l = h * 2 ^ 8 + l.
Proof.
  intros Hl.
  assert (Hd : Z.land (h * 2 ^ 8) l = 0).
  { apply Z.bits_inj'. intros n Hn. rewrite Z.land_spec, Z.bits_0.
    destruct (Z.ltb_spec n 8) as [Hlt | Hge].
    - rewrite Z.mul_pow2_bits_low by lia. reflexivity.
    - destruct (Z.eq_dec l 0) as [-> | Hz].
      + rewrite Z.bits_0. apply andb_false_r.
      + rewrite (Z.bits_above_log2 l n); [apply andb_false_r | lia |].
        apply Z.log2_lt_pow2; [lia|].
        apply Z.lt_le_trans with (2 ^ 8); [lia|].
        apply Z.pow_le_mono_r; lia. }
  rewrite <- Z.lxor_lor by exact Hd. symmetry. apply Z.add_nocarry_lxor, Hd.
Qed.

(** The arithmetic of line 184 on a 32-bit colour [R G B A]. *)
Lemma invert_rgb_keep_alpha R G B A :
  0 <= R < 256 -> 0 <= G < 256 -> 0 <= B < 256 -> 0 <= A < 256 ->
  let rgba_int := ((R * 256 + G) * 256 + B) * 256 + A in
  Z.lor (Z.land (Z.lnot rgba_int) 0xFFFFFF00) (Z.land rgba_int 0xFF)
  = (((255 - R) * 256 + (255 - G)) * 256 + (255 - B)) * 256 + A.
Proof.
  intros HR HG HB HA rgba_int.
  rewrite land_high_mask.
  change (Z.land rgba_int 0xFF) with (Z.land rgba_int (Z.ones 8)).
  rewrite Z.land_ones by lia.
  rewrite lor_disjoint_bytes by (apply Z.mod_pos_bound; reflexivity).
  change (2 ^ 8) with 256. change (2 ^ 24) with 16777216.
  replace (rgba_int mod 256) with A
    by (apply Z.mod_unique with ((R * 256 + G) * 256 + B); subst rgba_int; lia).
  replace (Z.lnot rgba_int / 256) with (- ((R * 256 + G) * 256 + B) - 1)
    by (apply Z.div_unique with (255 - A); unfold Z.lnot; subst rgba_int; lia).
  replace ((- ((R * 256 + G) * 256 + B) - 1) mod 16777216)
    with (((255 - R) * 256 + (255 - G)) * 256 + (255 - B))
    by (apply Z.mod_unique with (-1); lia).
  lia.
Qed.

Lemma digits_byte k q x acc :
  0 <= x < 256 ->
  digits (S (S k)) (q * 256 + x) acc = digits k q (hex_byte x ++ acc).
Proof.
  intros Hx.
  pose proof (Z.div_mod x 16 ltac:(lia)) as Hdm.
  pose proof (Z.mod_pos_bound x 16 ltac:(lia)) as Hm.
  assert (Hq : 0 <= x / 16 < 16).
  { split; [apply Z.div_pos; lia | apply Z.div_lt_upper_bound; lia]. }
  replace (q * 256 + x) with ((q * 16 + x / 16) * 16 + x mod 16) by lia.
  rewrite digits_step by lia. rewrite digits_step by lia.
  unfold hex_byte. cbn [digits append].
  replace (x / 16 mod 16) with (x / 16) by (apply Z.mod_unique with 0; lia).
  reflexivity.
Qed.

Lemma digits_rgba R G B A :
  0 <= R < 256 -> 0 <= G < 256 -> 0 <= B < 256 -> 0 <= A < 256 ->
  digits 8 (((R * 256 + G) * 256 + B) * 256 + A) ""
  = hex_byte R ++ hex_byte G ++ hex_byte B ++ hex_byte A.
Proof.
  intros HR HG HB HA.
  rewrite !digits_byte by lia.
  replace R with (0 * 256 + R) at 1 by lia.
  rewrite digits_byte by lia. cbn [digits].
  unfold hex_byte. cbn [digits append]. reflexivity.
Qed.

Lemma hex_byte_lower x : all_lower_hex (hex_byte x) = true.
Proof.
  unfold hex_byte. cbn [digits all_lower_hex].
  assert (H : forall d, 0 <= d < 16 -> is_lower_hex (hexchar d) = true).
  { intros d Hd.
    assert (d = 0 \/ d = 1 \/ d = 2 \/ d = 3 \/ d = 4 \/ d = 5 \/ d = 6 \/ d = 7
            \/ d = 8 \/ d = 9 \/ d = 10 \/ d = 11 \/ d = 12 \/ d = 13 \/ d = 14
            \/ d = 15) as Hc by lia.
    repeat (destruct Hc as [-> | Hc]; [reflexivity|]). subst d. reflexivity. }
  rewrite !H; [reflexivity | |]; apply Z.mod_pos_bound; lia.
Qed.

Lemma hex_byte_length x : String.length (hex_byte x) = 2%nat.
Proof. reflexivity. Qed.

Lemma is_lower_hex_is_hex c : is_lower_hex c = true -> is_hex c = true.
Proof. unfold is_lower_hex, is_hex. intros ->. reflexivity. Qed.

Lemma all_lower_hex_all_hex s : all_lower_hex s = true -> all_hex s = true.
Proof.
  induction s as [|c t IH]; simpl; [reflexivity|].
  intros H. apply andb_true_iff in H as [Hc Ht].
  rewrite (is_lower_hex_is_hex c Hc), (IH Ht). reflexivity.
Qed.

(** The decorator leaves a canonical colour as it is. *)
Lemma add_alpha_canonical s :
  is_canonical s = true -> add_alpha_to_rgb s = Ok s.
Proof.
  unfold is_canonical. destruct s as [|c t]; [discriminate|].
  destruct (Ascii.eqb c "#") eqn:Ec.
  2:{ intros H. exfalso. revert H Ec. clear. each_char c. }
  apply Ascii.eqb_eq in Ec. subst c. intros H.
  apply andb_true_iff in H as [Hl Hh]. apply Nat.eqb_eq in Hl.
  unfold add_alpha_to_rgb.
  change (lstrip "#" (String "#" t)) with (lstrip "#" t).
  rewrite (lstrip_hex t (all_lower_hex_all_hex t Hh)).
  unfold slice. rewrite (substring_all (8 - 0) t) by lia.
  unfold len. rewrite Hl.
  destruct t as [|c0 t]; [discriminate|].
  cbn [truthy negb Z.eqb Z.of_nat Pos.of_succ_nat Pos.succ Pos.eqb].
  change (lower ("#" ++ String c0 t)) with (String "#" (lower (String c0 t))).
  rewrite (lower_fixed _ Hh). reflexivity.
Qed.

(** The alpha digits of the looked-up colour, when it has them. *)
Definition alpha_text (alpha : option (ascii * ascii)) : string :=
  match alpha with
  | Some (a1, a2) => String a1 (String a2 "")
  | None => ""
  end.

Definition alpha_byte (alpha : option (ascii * ascii)) : Z :=
  match alpha with
  | Some (a1, a2) => byte_of a1 a2
  | None => 0xFF
  end.

Lemma inverted_text c1 c2 c3 c4 c5 c6 c7 c8 :
  all_hex (String c1 (String c2 (String c3 (String c4
          (String c5 (String c6 (String c7 (String c8 "")))))))) = true ->
  let rgba_int :=
    horner (String c1 (String c2 (String c3 (String c4
           (String c5 (String c6 (String c7 (String c8 "")))))))) 0 in
  format_08x (Z.lor (Z.land (Z.lnot rgba_int) 0xFFFFFF00) (Z.land rgba_int 0xFF))
  = hex_byte (complement (byte_of c1 c2)) ++ hex_byte (complement (byte_of c3 c4))
    ++ hex_byte (complement (byte_of c5 c6)) ++ hex_byte (byte_of c7 c8).
Proof.
  intros _ rgba_int.
  pose proof (byte_of_range c1 c2) as HR. pose proof (byte_of_range c3 c4) as HG.
  pose proof (byte_of_range c5 c6) as HB. pose proof (byte_of_range c7 c8) as HA.
  assert (E : rgba_int
              = ((byte_of c1 c2 * 256 + byte_of c3 c4) * 256 + byte_of c5 c6) * 256
                + byte_of c7 c8).
  { subst rgba_int. cbn [horner]. unfold byte_of. lia. }
  rewrite E, invert_rgb_keep_alpha by assumption.
  rewrite !complement_byte by assumption.
  rewrite format_08x_digits by (change (16 ^ 8) with 4294967296; lia).
  apply digits_rgba; lia.
Qed.

(** ** The claim about [@scope_inverted] *)

(** C6. For the input [@scope_inverted], when there is an active view and
    the theme's foreground colour at the region's end is [#RRGGBB] or
    [#RRGGBBAA], [color_code_to_rgba] returns [#] followed by eight
    lower-case digits: the bytes R, G and B each complemented bit by bit,
    then the looked-up alpha byte, [ff] when the colour had none. *)
Theorem scope_inverted_complements (api : Api) (view : View) (region : Region)
  (r1 r2 g1 g2 b1 b2 : ascii) (alpha : option (ascii * ascii)) :
  active_view api = Some view ->
  dict_get (style_for_scope view (scope_name view (region_end region - 1)))
           "foreground" ""
  = String "#" (String r1 (String r2 (String g1 (String g2
      (String b1 (String b2 (alpha_text alpha))))))) ->
  all_hex (String r1 (String r2 (String g1 (String g2
      (String b1 (String b2 (alpha_text alpha))))))) = true ->
  let inverted :=
    "#" ++ hex_byte (complement (byte_of r1 r2))
        ++ hex_byte (complement (byte_of g1 g2))
        ++ hex_byte (complement (byte_of b1 b2))
        ++ hex_byte (alpha_byte alpha) in
  color_code_to_rgba api "@scope_inverted" region = Ok inverted
  /\ is_canonical inverted = true.
Proof.
  intros Hview Hcolor Hhex inverted.
  assert (Hcan : is_canonical inverted = true).
  { subst inverted. cbn [is_canonical append].
    rewrite !length_app, !hex_byte_length, !all_lower_hex_app, !hex_byte_lower.
    reflexivity. }
  split; [|exact Hcan].
  unfold color_code_to_rgba, simple_decorator, color_code_to_rgba_body.
  cbv beta iota.
  change (truthy "@scope_inverted") with true.
  change (startswith "#" "@scope_inverted") with false.
  change (String.eqb "@scope_inverted" "@scope") with false.
  change (String.eqb "@scope_inverted" "@scope_inverted") with true.
  cbn [negb]. rewrite Hview, Hcolor.
  destruct alpha as [[a1 a2]|]; cbn [alpha_text] in *;
    cbn [slice substring append Nat.sub].
  - rewrite int16_hex by exact Hhex. cbn [bind].
    rewrite inverted_text by exact Hhex.
    apply add_alpha_canonical, Hcan.
  - assert (Hhex' : all_hex (String r1 (String r2 (String g1 (String g2
              (String b1 (String b2 "ff")))))) = true).
    { cbn [all_hex] in *. repeat rewrite andb_true_iff in *.
      repeat split; try apply Hhex; reflexivity. }
    rewrite int16_hex by exact Hhex'. cbn [bind].
    rewrite inverted_text by exact Hhex'.
    apply add_alpha_canonical, Hcan.
Qed.

Definition themed_view (color : string) : View :=
  {| scope_name := fun _ => "source.python";
     style_for_scope := fun _ => [("foreground", color)] |}.

Definition themed (color : string) : Api :=
  {| active_view := Some (themed_view color) |}.

Lemma scope_inverted_complements_witness :
  color_code_to_rgba (themed "#102030") "@scope_inverted" some_region
  = Ok "#efdfcfff"
  /\ color_code_to_rgba (themed "#1020C0a5") "@scope_inverted" some_region
     = Ok "#efdf3fa5".
Proof.
  split.
  - apply (scope_inverted_complements (themed "#102030")
             (themed_view "#102030") some_region
             "1" "0" "2" "0" "3" "0" None); reflexivity.
  - apply (scope_inverted_complements (themed "#1020C0a5")
             (themed_view "#1020C0a5") some_region
             "1" "0" "2" "0" "C" "0" (Some ("a", "5")%char)); reflexivity.
Defined.

End Inverted.

(* ================================================================== *)
(** * Recolouring, pixel by pixel *)

Module Recolor.

Import Py Image PyFacts HexFacts Inverted.

(** The specification's view of an image: a grid of pixels. *)
Definition pixel : Type := (Z * Z * Z * Z)%type.

Definition flat (p : pixel) : list Z :=
  let '(r, g, b, a) := p in [r; g; b; a].

Definition flat_row (row : list pixel) : list Z := flat_map flat row.

(** The specification's grayscale weight of a pixel. *)
Definition gray_of (p : pixel) : Z :=
  let '(r, g, b, _) := p in Z.shiftr (r * 38 + g * 75 + b * 15) 7.

(** The specification's test: the sum of the weights, shifted right by 7,
    is strictly greater than width times height. *)
Definition classified_light (w h : Z) (grid : list (list pixel)) : bool :=
  Z.shiftr (fold_left Z.add (map gray_of (List.concat grid)) 0) 7 >? w * h.

(** The specification's blend of one source pixel with the target [t];
    [dark] says that the template was classified dark. *)
Definition recolor_pixel (t : pixel) (dark : bool) (p : pixel) : pixel :=
  let '(tR, tG, tB, tA) := t in
  let '(_, _, _, A) := p in
  let g := if dark then 255 - gray_of p else gray_of p in
  (Z.shiftr (tR * g) 8, Z.shiftr (tG * g) 8, Z.shiftr (tB * g) 8,
   Z.shiftr (tA * A) 8).

Definition recolor_grid (t : pixel) (dark : bool) (grid : list (list pixel))
  : list (list Z) :=
  map (fun row => flat_row (map (recolor_pixel t dark) row)) grid.

Definition filled (p : pixel) : group :=
  let '(r, g, b, a) := p in (Some r, Some g, Some b, Some a).

Lemma grouper_flat_row row : grouper (flat_row row) = map filled row.
Proof.
  induction row as [|[[[r g] b] a] t IH]; [reflexivity|].
  unfold flat_row in *. cbn [flat_map flat app grouper map filled].
  rewrite IH. reflexivity.
Qed.

Lemma groups_of_grid grid :
  flat_map grouper (map flat_row grid) = map filled (List.concat grid).
Proof.
  induction grid as [|row t IH]; [reflexivity|].
  cbn [map flat_map List.concat]. rewrite IH, grouper_flat_row, map_app.
  reflexivity.
Qed.

Lemma calculate_gray_filled p : calculate_gray (filled p) = Ok (gray_of p).
Proof. destruct p as [[[r g] b] a]. reflexivity. Qed.

Lemma grays_of_pixels l :
  mapM calculate_gray (map filled l) = Ok (map gray_of l).
Proof.
  induction l as [|p t IH]; [reflexivity|].
  cbn [map mapM]. rewrite calculate_gray_filled, IH. reflexivity.
Qed.

Lemma render_pixel_filled t dark p :
  render_pixel (filled p) t dark = Ok (flat (recolor_pixel t dark p)).
Proof.
  destruct p as [[[r g] b] a], t as [[[tR tG] tB] tA].
  destruct dark; reflexivity.
Qed.

Lemma render_pixels t dark row :
  mapM (fun rgba_src => render_pixel rgba_src t dark) (map filled row)
  = Ok (map (fun p => flat (recolor_pixel t dark p)) row).
Proof.
  induction row as [|p r IH]; [reflexivity|].
  cbn [map mapM]. rewrite render_pixel_filled, IH. reflexivity.
Qed.

Lemma concat_flat (l : list pixel) : List.concat (map flat l) = flat_row l.
Proof. unfold flat_row. rewrite flat_map_concat_map. reflexivity. Qed.

Lemma render_row_flat t dark row :
  render_row t dark (flat_row row) = Ok (flat_row (map (recolor_pixel t dark) row)).
Proof.
  unfold render_row. rewrite grouper_flat_row, render_pixels. cbn [bind].
  rewrite <- concat_flat, map_map. reflexivity.
Qed.

Lemma render_rows t dark grid :
  mapM (render_row t dark) (map flat_row grid) = Ok (recolor_grid t dark grid).
Proof.
  induction grid as [|row g IH]; [reflexivity|].
  cbn [map mapM]. rewrite render_row_flat, IH. reflexivity.
Qed.

Lemma int16_pair hi lo :
  is_hex hi = true -> is_hex lo = true ->
  int16 (String hi (String lo "")) = Ok (byte_of hi lo).
Proof.
  intros Hh Hl. rewrite int16_hex.
  - cbn [horner]. unfold byte_of. f_equal.
  - cbn [all_hex]. rewrite Hh, Hl. reflexivity.
Qed.

Section Png.

Variable bytes : Type.
Variable png_asRGBA : bytes -> result (Z * Z * list (list Z)).
Variable png_write : list (list Z) -> result bytes.

Let is_img_light := is_img_light bytes png_asRGBA.
Let change_png_bytes_color := change_png_bytes_color bytes png_asRGBA png_write.

Lemma is_img_light_grid img w h grid :
  png_asRGBA img = Ok (w, h, map flat_row grid) ->
  is_img_light img = Ok (classified_light w h grid).
Proof.
  intros H. unfold is_img_light, Image.is_img_light. rewrite H. cbn [bind].
  rewrite groups_of_grid, grays_of_pixels. reflexivity.
Qed.

(** What [change_png_bytes_color] hands to the encoder. *)
Lemma change_png_bytes_color_grid img w h grid c1 c2 c3 c4 c5 c6 c7 c8 :
  png_asRGBA img = Ok (w, h, map flat_row grid) ->
  all_hex (String c1 (String c2 (String c3 (String c4
          (String c5 (String c6 (String c7 (String c8 "")))))))) = true ->
  change_png_bytes_color img
    (String "#" (String c1 (String c2 (String c3 (String c4
       (String c5 (String c6 (String c7 (String c8 "")))))))))
  = png_write
      (recolor_grid (byte_of c1 c2, byte_of c3 c4, byte_of c5 c6, byte_of c7 c8)
                    (negb (classified_light w h grid)) grid).
Proof.
  intros Himg Hhex.
  pose proof Hhex as Hh. cbn [all_hex] in Hh.
  repeat rewrite andb_true_iff in Hh.
  destruct Hh as (H1 & H2 & H3 & H4 & H5 & H6 & H7 & H8 & _).
  unfold change_png_bytes_color, Image.change_png_bytes_color.
  cbn [truthy negb match_rgba_code hex_exactly at_dollar].
  rewrite H1, H2, H3, H4, H5, H6, H7, H8. cbn [andb negb].
  fold is_img_light. rewrite (is_img_light_grid img w h grid Himg). cbn [bind].
  cbn [slice substring Nat.sub].
  rewrite !int16_pair by assumption. cbn [bind].
  rewrite Himg. cbn [bind]. rewrite render_rows. reflexivity.
Qed.

End Png.

(** ** The claims about recolouring *)

(** C1. For a template that decodes to a grid of RGBA pixels and a target
    colour [#rrggbbaa], [change_png_bytes_color] encodes the grid in which
    each source pixel (R,G,B,A) has become ((tR*g)>>8, (tG*g)>>8,
    (tB*g)>>8, (tA*A)>>8), where g = (R*38 + G*75 + B*15) >> 7, replaced by
    255-g for every pixel exactly when the template is not light; and
    [is_img_light] holds iff the sum of g over all pixels, shifted right by
    7, is strictly greater than width*height. *)
Theorem recolor_maps_each_pixel (bytes : Type)
  (png_asRGBA : bytes -> result (Z * Z * list (list Z)))
  (png_write : list (list Z) -> result bytes)
  (img : bytes) (w h : Z) (grid : list (list pixel))
  (c1 c2 c3 c4 c5 c6 c7 c8 : ascii) :
  png_asRGBA img = Ok (w, h, map flat_row grid) ->
  all_hex (String c1 (String c2 (String c3 (String c4
          (String c5 (String c6 (String c7 (String c8 "")))))))) = true ->
  is_img_light bytes png_asRGBA img = Ok (classified_light w h grid)
  /\ change_png_bytes_color bytes png_asRGBA png_write img
       (String "#" (String c1 (String c2 (String c3 (String c4
          (String c5 (String c6 (String c7 (String c8 "")))))))))
     = png_write
         (recolor_grid
            (byte_of c1 c2, byte_of c3 c4, byte_of c5 c6, byte_of c7 c8)
            (negb (classified_light w h grid)) grid).
Proof.
  intros Himg Hhex. split.
  - apply is_img_light_grid, Himg.
  - apply change_png_bytes_color_grid; assumption.
Qed.

(** A stand-in for the PNG library, for examples: an image is kept as its
    width, height and rows. It is meant for rows of eight-bit values: the
    stand-in writer does not reject values outside 0..255, which the
    library's writer would. *)
Definition raw_image : Type := (Z * Z * list (list Z))%type.

Definition raw_asRGBA (b : raw_image) : result (Z * Z * list (list Z)) := Ok b.

Definition raw_write (rows : list (list Z)) : result raw_image :=
  Ok (match rows with
      | [] => 0
      | row :: _ => Z.of_nat (List.length row) / 4
      end,
      Z.of_nat (List.length rows), rows).

(** Two pixels in a row, the first bright and the second black. *)
Definition two_pixels : raw_image := (2, 1, [[255; 255; 255; 255; 0; 0; 0; 128]]).

Lemma recolor_maps_each_pixel_witness :
  is_img_light raw_image raw_asRGBA two_pixels = Ok false
  /\ change_png_bytes_color raw_image raw_asRGBA raw_write two_pixels "#ff000080"
     = Ok (2, 1, [[0; 0; 0; 127; 254; 0; 0; 64]]).
Proof.
  apply (recolor_maps_each_pixel raw_image raw_asRGBA raw_write two_pixels 2 1
           [[(255, 255, 255, 255); (0, 0, 0, 128)]]
           "f" "f" "0" "0" "0" "0" "8" "0"); reflexivity.
Defined.

(** C10. A 1x1 image whose only pixel is opaque white is not light: the
    pixel's gray value is 255, the gray sum shifted right by 7 is 1, and 1
    is not greater than 1*1; recolouring it therefore uses the inverted
    weight 255 - 255 for the pixel. *)
Theorem white_pixel_is_not_light (bytes : Type)
  (png_asRGBA : bytes -> result (Z * Z * list (list Z)))
  (png_write : list (list Z) -> result bytes)
  (img : bytes) (c1 c2 c3 c4 c5 c6 c7 c8 : ascii) :
  png_asRGBA img = Ok (1, 1, [[255; 255; 255; 255]]) ->
  all_hex (String c1 (String c2 (String c3 (String c4
          (String c5 (String c6 (String c7 (String c8 "")))))))) = true ->
  calculate_gray (Some 255, Some 255, Some 255, Some 255) = Ok 255
  /\ Z.shiftr (sum [255]) 7 = 1
  /\ is_img_light bytes png_asRGBA img = Ok false
  /\ change_png_bytes_color bytes png_asRGBA png_write img
       (String "#" (String c1 (String c2 (String c3 (String c4
          (String c5 (String c6 (String c7 (String c8 "")))))))))
     = png_write [[ Z.shiftr (byte_of c1 c2 * (255 - 255)) 8;
                    Z.shiftr (byte_of c3 c4 * (255 - 255)) 8;
                    Z.shiftr (byte_of c5 c6 * (255 - 255)) 8;
                    Z.shiftr (byte_of c7 c8 * 255) 8 ]].
Proof.
  intros Himg Hhex. repeat split.
  - apply (is_img_light_grid bytes png_asRGBA img 1 1 [[(255, 255, 255, 255)]] Himg).
  - apply (change_png_bytes_color_grid bytes png_asRGBA png_write img 1 1
             [[(255, 255, 255, 255)]] c1 c2 c3 c4 c5 c6 c7 c8 Himg Hhex).
Qed.

Definition white_pixel : raw_image := (1, 1, [[255; 255; 255; 255]]).

Lemma white_pixel_is_not_light_witness :
  is_img_light raw_image raw_asRGBA white_pixel = Ok false
  /\ change_png_bytes_color raw_image raw_asRGBA raw_write white_pixel "#ff000080"
     = Ok (1, 1, [[0; 0; 0; 127]]).
Proof.
  destruct (white_pixel_is_not_light raw_image raw_asRGBA raw_write white_pixel
              "f" "f" "0" "0" "0" "0" "8" "0" eq_refl eq_refl)
    as (_ & _ & Hlight & Hout).
  split; [exact Hlight | exact Hout].
Defined.

End Recolor.

(* ================================================================== *)
(** * The scheduler, view by view *)

Module SchedFacts.

Import Sublime Host Helpers RegionDrawing Renderer.
Local Open Scope host_scope.

(** The specification's eligibility tests (a) to (d). *)
Definition eligible (w : World) (v : view_id) : bool :=
  let d := views w v in
  processable d && is_dirty d && negb (typing d)
  && negb (transient d && negb (work_for_transient_view (settings w))).

(** The specification's size test. *)
Definition oversized (w : World) (v : view_id) : bool :=
  size (views w v) >? large_file_threshold (settings w).

(** The world after the oversized branch has run for [v]. *)
Definition cleared (v : view_id) (w : World) : World :=
  update_view v (with_dirty false)
    (update_view v
       (fun d => with_regions
          (fun k => if String.eqb k "OUIB_uri_regions" then None else regions d k) d)
       (record (EraseRegions v "OUIB_uri_regions")
          (update_view v (with_phantoms []) (record (ErasePhantoms v) w)))).

Ltac unfold_update_view :=
  unfold _update_view, _detect_uris_globally, is_processable_view,
    view_is_dirty_val, is_view_typing, is_transient_view, is_view_too_large,
    _clean_up_phantom_set, _clean_up_uri_regions, erase_uri_regions,
    erase_phantom_set, update_phantom_set, draw_uri_regions, add_regions,
    erase_regions, view_find_all, view_is_dirty_val_set;
  unfold seq, gets, modify, ret; cbv beta iota.

Lemma gates_eligible (w : World) (v : view_id) :
  negb (processable (views w v)) || negb (is_dirty (views w v))
  || typing (views w v)
  || transient (views w v) && negb (work_for_transient_view (settings w))
  = negb (eligible w v).
Proof.
  unfold eligible.
  destruct (processable (views w v)), (is_dirty (views w v)),
    (typing (views w v)), (transient (views w v)),
    (work_for_transient_view (settings w)); reflexivity.
Qed.

Lemma update_view_ineligible v w :
  eligible w v = false -> _update_view v w = (Ok tt, w).
Proof.
  intros H. unfold_update_view. rewrite gates_eligible, H. reflexivity.
Qed.

Lemma update_view_oversized v w :
  eligible w v = true -> oversized w v = true ->
  _update_view v w = (Ok tt, cleared v w).
Proof.
  intros He Ho. unfold_update_view. rewrite gates_eligible, He.
  unfold oversized in Ho. cbn [negb]. rewrite Ho. reflexivity.
Qed.

Lemma update_view_scan_fails v w e :
  eligible w v = true -> oversized w v = false ->
  matches (views w v) = Raise e ->
  _update_view v w = (Raise e, record (FindAll v) w).
Proof.
  intros He Ho Hm. unfold_update_view. rewrite gates_eligible, He.
  unfold oversized in Ho. cbn [negb]. rewrite Ho.
  cbn [record views]. rewrite Hm. reflexivity.
Qed.

(** [w'] differs from [w] only in the views [vs], and in calls made for
    them. *)
Definition touches (vs : list view_id) (w w' : World) : Prop :=
  windows w' = windows w /\ settings w' = settings w
  /\ sublime_attr w' = sublime_attr w /\ is_rendering w' = is_rendering w
  /\ (forall u, ~ In u vs -> views w' u = views w u)
  /\ exists evs, calls w' = (calls w ++ evs)%list
                 /\ Forall (fun ev => In (event_view ev) vs) evs.

Lemma touches_refl vs w : touches vs w w.
Proof.
  repeat split; try reflexivity. exists []. split; [|constructor].
  symmetry. apply app_nil_r.
Qed.

Lemma touches_trans vs w1 w2 w3 :
  touches vs w1 w2 -> touches vs w2 w3 -> touches vs w1 w3.
Proof.
  intros (A1 & A2 & A3 & A4 & A5 & e1 & A6 & A7)
         (B1 & B2 & B3 & B4 & B5 & e2 & B6 & B7).
  repeat split; try congruence.
  - intros u Hu. rewrite B5, A5 by assumption. reflexivity.
  - exists (e1 ++ e2)%list. split.
    + rewrite B6, A6, app_assoc. reflexivity.
    + apply Forall_app. split; assumption.
Qed.

Lemma touches_mono vs vs' w w' :
  incl vs vs' -> touches vs w w' -> touches vs' w w'.
Proof.
  intros Hi (A1 & A2 & A3 & A4 & A5 & e1 & A6 & A7).
  repeat split; try assumption.
  - intros u Hu. apply A5. intros Hin. apply Hu, Hi, Hin.
  - exists e1. split; [assumption|].
    eapply Forall_impl; [|exact A7]. intros ev Hev. apply Hi, Hev.
Qed.

Lemma touches_record v ev w :
  event_view ev = v -> touches [v] w (record ev w).
Proof.
  intros Hv. repeat split; try reflexivity.
  exists [ev]. split; [reflexivity|]. constructor; [|constructor].
  left. symmetry. exact Hv.
Qed.

Lemma touches_update_view v f w : touches [v] w (update_view v f w).
Proof.
  repeat split; try reflexivity.
  - intros u Hu. cbn [update_view set_views views].
    destruct (Nat.eqb_spec u v) as [-> | Hn]; [|reflexivity].
    exfalso. apply Hu. left. reflexivity.
  - exists []. split; [|constructor]. symmetry. apply app_nil_r.
Qed.

Ltac touches_chain :=
  repeat first
    [ apply touches_refl
    | apply touches_update_view
    | apply touches_record; reflexivity
    | eapply touches_trans; [|apply touches_update_view]
    | eapply touches_trans; [|apply touches_record; reflexivity] ].

Lemma update_view_touches v w r w' :
  _update_view v w = (r, w') -> touches [v] w w'.
Proof.
  unfold_update_view. rewrite gates_eligible.
  destruct (eligible w v); cbn [negb].
  2:{ intros H. inversion H. apply touches_refl. }
  destruct (size (views w v) >? large_file_threshold (settings w)).
  { intros H. inversion H. touches_chain. }
  cbn [record views settings sublime_attr].
  destruct (matches (views w v)) as [rs | e].
  2:{ intros H. inversion H. touches_chain. }
  destruct (String.eqb (show_open_button (settings w) v) "always");
    cbn [update_view set_views record views settings sublime_attr];
    destruct (String.eqb (draw_uri_regions_enabled (settings w)) "always");
    intros H; inversion H; touches_chain.
Qed.

(** A raised exception leaves the view as it was, dirty. *)
Lemma update_view_raises v w e w' :
  _update_view v w = (Raise e, w') ->
  eligible w v = true /\ oversized w v = false
  /\ matches (views w v) = Raise e /\ w' = record (FindAll v) w.
Proof.
  unfold_update_view. rewrite gates_eligible. unfold oversized.
  destruct (eligible w v); cbn [negb]; [|discriminate].
  destruct (size (views w v) >? large_file_threshold (settings w)); [discriminate|].
  cbn [record views settings sublime_attr].
  destruct (matches (views w v)) as [rs | e'].
  - destruct (String.eqb (show_open_button (settings w) v) "always");
      cbn [update_view set_views record views settings sublime_attr];
      destruct (String.eqb (draw_uri_regions_enabled (settings w)) "always");
      discriminate.
  - intros H. inversion H. subst. repeat split.
Qed.

(** ** The loop over the foreground views *)

Lemma for_each_touches l : forall w r w',
  for_each l _update_view w = (r, w') -> touches l w w'.
Proof.
  induction l as [|v t IH]; intros w r w' H.
  - inversion H. apply touches_refl.
  - cbn [for_each] in H. unfold seq in H.
    destruct (_update_view v w) as [[[]|e] w1] eqn:Hv.
    + apply touches_trans with w1.
      * eapply touches_mono; [|eapply update_view_touches, Hv].
        intros x [-> | []]. left. reflexivity.
      * eapply touches_mono; [|eapply IH, H]. apply incl_tl, incl_refl.
    + inversion H. subst.
      eapply touches_mono; [|eapply update_view_touches, Hv].
      intros x [-> | []]. left. reflexivity.
Qed.

(** A loop that raises stopped at some view, after the views before it. *)
Lemma for_each_raises l : forall w e w',
  for_each l _update_view w = (Raise e, w') ->
  exists pre v post w_mid,
    l = (pre ++ v :: post)%list
    /\ for_each pre _update_view w = (Ok tt, w_mid)
    /\ _update_view v w_mid = (Raise e, w').
Proof.
  induction l as [|x t IH]; intros w e w' H; [discriminate|].
  cbn [for_each] in H. unfold seq in H.
  destruct (_update_view x w) as [[[]|e1] w1] eqn:Hx.
  - destruct (IH _ _ _ H) as (pre & v & post & w_mid & Hl & Hpre & Hv).
    exists (x :: pre), v, post, w_mid. repeat split.
    + rewrite Hl. reflexivity.
    + cbn [for_each]. unfold seq. rewrite Hx. exact Hpre.
    + exact Hv.
  - inversion H. subst.
    exists [], x, t, w. repeat split. exact Hx.
Qed.

(** The tick, unfolded. *)
Lemma tick_guard w :
  is_rendering w = true -> _update_foreground_views w = (Ok tt, w).
Proof.
  intros H. unfold _update_foreground_views, seq, gets. rewrite H. reflexivity.
Qed.

Lemma tick_runs w :
  is_rendering w = false ->
  _update_foreground_views w
  = match for_each (foreground_views w) _update_view (set_is_rendering true w) with
    | (Ok _, w') => (Ok tt, set_is_rendering false w')
    | (Raise e, w') => (Raise e, w')
    end.
Proof.
  intros H. unfold _update_foreground_views, seq, gets, modify. rewrite H.
  reflexivity.
Qed.

(** ** An oversized view across the loop *)

(** Both overlay layers of [v] are empty and its dirty flag is clear. *)
Definition torn_down (v : view_id) (w : World) : Prop :=
  phantom_set (views w v) = []
  /\ regions (views w v) "OUIB_uri_regions" = None
  /\ is_dirty (views w v) = false.

Definition no_scan_of (v : view_id) (w w' : World) : Prop :=
  exists evs, calls w' = (calls w ++ evs)%list /\ ~ In (FindAll v) evs.

Lemma no_scan_of_trans v w1 w2 w3 :
  no_scan_of v w1 w2 -> no_scan_of v w2 w3 -> no_scan_of v w1 w3.
Proof.
  intros (e1 & A & B) (e2 & C & D). exists (e1 ++ e2)%list. split.
  - rewrite C, A, app_assoc. reflexivity.
  - intros H. apply in_app_or in H as [H | H]; auto.
Qed.

Lemma cleared_torn_down v w : torn_down v (cleared v w).
Proof.
  unfold torn_down, cleared.
  cbn [update_view set_views record views with_dirty with_regions with_phantoms
       phantom_set regions is_dirty].
  rewrite Nat.eqb_refl. cbn. repeat split.
Qed.

Lemma cleared_calls v w :
  calls (cleared v w)
  = (calls w ++ [ErasePhantoms v; EraseRegions v "OUIB_uri_regions"])%list.
Proof.
  unfold cleared. cbn [update_view set_views record calls].
  rewrite <- app_assoc. reflexivity.
Qed.

Lemma step_oversized v u w w1 :
  oversized w v = true ->
  eligible w v = true \/ torn_down v w ->
  _update_view u w = (Ok tt, w1) ->
  oversized w1 v = true
  /\ (u = v \/ torn_down v w -> torn_down v w1)
  /\ (eligible w1 v = true \/ torn_down v w1)
  /\ no_scan_of v w w1.
Proof.
  intros Ho Hs Hu.
  destruct (Nat.eq_dec u v) as [-> | Hne].
  - destruct (eligible w v) eqn:He.
    + rewrite (update_view_oversized v w He Ho) in Hu. inversion Hu. subst w1.
      pose proof (cleared_torn_down v w) as Ht.
      split; [|split; [intros _; exact Ht | split; [right; exact Ht|]]].
      * unfold oversized, cleared in *.
        cbn [update_view set_views record views settings with_dirty with_regions
             with_phantoms size].
        rewrite Nat.eqb_refl. cbn [size]. exact Ho.
      * exists [ErasePhantoms v; EraseRegions v "OUIB_uri_regions"].
        split; [apply cleared_calls|]. intros [H | [H | []]]; discriminate.
    + rewrite (update_view_ineligible v w He) in Hu. inversion Hu. subst w1.
      destruct Hs as [Hs | Hs]; [discriminate|].
      split; [exact Ho | split; [intros _; exact Hs | split; [right; exact Hs|]]].
      exists []. split; [symmetry; apply app_nil_r | intros []].
  - destruct (update_view_touches u w _ w1 Hu)
      as (_ & Hset & _ & _ & Hviews & evs & Hcalls & Hevs).
    assert (Hv : views w1 v = views w v).
    { apply Hviews. intros [H | []]. apply Hne, H. }
    assert (Ho1 : oversized w1 v = oversized w v).
    { unfold oversized. rewrite Hv, Hset. reflexivity. }
    assert (He1 : eligible w1 v = eligible w v).
    { unfold eligible. rewrite Hv, Hset. reflexivity. }
    assert (Ht1 : torn_down v w -> torn_down v w1).
    { unfold torn_down. rewrite Hv. auto. }
    split; [|split; [|split]].
    + rewrite Ho1. exact Ho.
    + intros [H | H]; [contradiction | apply Ht1, H].
    + destruct Hs as [Hs | Hs]; [left; rewrite He1; exact Hs | right; apply Ht1, Hs].
    + exists evs. split; [exact Hcalls|]. intros Hin.
      rewrite Forall_forall in Hevs. destruct (Hevs _ Hin) as [H | []].
      apply Hne. exact H.
Qed.

Lemma loop_oversized v l : forall w w',
  oversized w v = true ->
  eligible w v = true \/ torn_down v w ->
  for_each l _update_view w = (Ok tt, w') ->
  (In v l \/ torn_down v w -> torn_down v w') /\ no_scan_of v w w'.
Proof.
  induction l as [|u t IH]; intros w w' Ho Hs H.
  - inversion H. subst. split.
    + intros [[] | Ht]. exact Ht.
    + exists []. split; [symmetry; apply app_nil_r | intros []].
  - cbn [for_each] in H. unfold seq in H.
    destruct (_update_view u w) as [[[]|e] w1] eqn:Hu; [|discriminate].
    destruct (step_oversized v u w w1 Ho Hs Hu) as (Ho1 & Ht1 & Hs1 & Hn1).
    destruct (IH w1 w' Ho1 Hs1 H) as (Ht & Hn). split.
    + intros [[-> | Hin] | Hd].
      * apply Ht. right. apply Ht1. left. reflexivity.
      * apply Ht. left. exact Hin.
      * apply Ht. right. apply Ht1. right. exact Hd.
    + eapply no_scan_of_trans; eassumption.
Qed.

(** ** Ticks that overlap *)

(** The tick of the source is the steps of the interleaving account, in
    their order: the guard test; then, with the flag found down, the flag
    assignment, the loop over the foreground views and the reset. *)
Lemma tick_by_lines :
  _update_foreground_views
  = (rendering <- guard_test ;;
     if rendering then ret tt
     else
       flag_up ;;
       fv <- gets foreground_views ;;
       for_each fv _update_view ;;
       flag_down).
Proof. reflexivity. Qed.


Lemma guard_reads w r w' :
  guard_test w = (Ok r, w') -> w' = w /\ is_rendering w = r.
Proof. unfold guard_test, gets. intros H. inversion H. split; reflexivity. Qed.

Lemma run_trans allowed s1 s2 s3 :
  run allowed s1 s2 -> run allowed s2 s3 -> run allowed s1 s3.
Proof.
  intros H12 H23. induction H23 as [|s2 s3 a s4 _ IH Ha Hs]; [exact H12|].
  eapply run_step; [apply IH, H12 | exact Ha | exact Hs].
Qed.

Lemma run_one allowed a s1 s2 : allowed a s1 -> step a s1 s2 -> run allowed s1 s2.
Proof. intros Ha H. eapply run_step; [apply run_nil | exact Ha | exact H]. Qed.


(** The loop of the source is a sequence of visits, cut short by the first
    that raises. *)
Lemma loop_runs ts1 ts2 l : forall w r w',
  for_each l _update_view w = (r, w') ->
  run orderly {| world := w; threads := (ts1 ++ Looping :: ts2)%list |}
      match r with
      | Ok _ => {| world := w'; threads := (ts1 ++ Looping :: ts2)%list |}
      | Raise _ => {| world := w'; threads := (ts1 ++ ts2)%list |}
      end.
Proof.
  induction l as [|v t IH]; intros w r w' H.
  - inversion H. apply run_nil.
  - cbn [for_each] in H. unfold seq in H.
    destruct (_update_view v w) as [[[]|e] w1] eqn:Hv.
    + eapply run_trans; [|apply IH, H].
      apply (run_one orderly (Visit v)); [discriminate|].
      apply (visits w w1 v ts1 ts2 Hv).
    + inversion H. subst.
      apply (run_one orderly (Die v)); [discriminate|].
      apply (dies w w' e v ts1 ts2 Hv).
Qed.

(** A tick that fires with the flag down, and that no other tick
    overtakes between its guard test and its flag assignment, gets into its
    loop. *)
Lemma tick_starts_run w ts :
  ~ In Passed ts ->
  is_rendering w = false ->
  run orderly {| world := w; threads := ts |}
      {| world := set_is_rendering true w; threads := Looping :: ts |}.
Proof.
  intros Hts Hr.
  apply (run_step orderly _ {| world := w; threads := Passed :: ts |} RaiseFlag);
    [|discriminate | apply (raises_flag w _ [] ts); reflexivity].
  apply (run_step orderly _ {| world := w; threads := AtGuard :: ts |} PassGuard).
  - apply (run_one orderly Fire); [discriminate | apply fires].
  - intros _ [H | H]; [discriminate | apply Hts, H].
  - apply (passes_guard w w [] ts). unfold guard_test, gets. rewrite Hr. reflexivity.
Qed.

(** A tick run to completion, with no other tick between its guard test
    and its flag assignment, is an orderly run. *)
Lemma tick_as_run w r w' ts :
  ~ In Passed ts ->
  _update_foreground_views w = (r, w') ->
  run orderly {| world := w; threads := ts |} {| world := w'; threads := ts |}.
Proof.
  intros Hts. rewrite tick_by_lines. unfold seq at 1.
  destruct (guard_test w) as [[[|]|e] w0] eqn:Hg.
  - intros H. inversion H. subst.
    apply (run_step orderly _ {| world := w; threads := AtGuard :: ts |} TurnedAway);
      [|discriminate | apply (turned_away w w' [] ts Hg)].
    apply (run_one orderly Fire); [discriminate | apply fires].
  - destruct (guard_reads w false w0 Hg) as [-> Hr].
    unfold seq, flag_up, flag_down, gets, modify.
    destruct (for_each (foreground_views (set_is_rendering true w)) _update_view
                (set_is_rendering true w)) as [[[]|e] w1] eqn:Hl;
      intros H; inversion H; subst.
    + apply (run_step orderly _ {| world := w1; threads := Looping :: ts |} Finish);
        [|discriminate | apply (finishes w1 _ [] ts); reflexivity].
      eapply run_trans; [apply (tick_starts_run w ts Hts Hr)|].
      apply (loop_runs [] ts _ _ _ _ Hl).
    + eapply run_trans; [apply (tick_starts_run w ts Hts Hr)|].
      apply (loop_runs [] ts _ _ _ _ Hl).
  - unfold guard_test, gets in Hg. discriminate.
Qed.








(** ** After an exception *)

Lemma tick_raises w e w1 :
  _update_foreground_views w = (Raise e, w1) ->
  is_rendering w = false
  /\ exists pre v post w_mid,
       foreground_views w = (pre ++ v :: post)%list
       /\ for_each pre _update_view (set_is_rendering true w) = (Ok tt, w_mid)
       /\ touches pre (set_is_rendering true w) w_mid
       /\ eligible w_mid v = true
       /\ matches (views w_mid v) = Raise e
       /\ w1 = record (FindAll v) w_mid.
Proof.
  destruct (is_rendering w) eqn:Hr.
  { rewrite (tick_guard w Hr). discriminate. }
  rewrite (tick_runs w Hr). intros H. split; [reflexivity|].
  destruct (for_each (foreground_views w) _update_view (set_is_rendering true w))
    as [[[]|e'] w'] eqn:Hl; [discriminate|].
  inversion H. subst e' w'.
  destruct (for_each_raises _ _ _ _ Hl) as (pre & v & post & w_mid & Hfv & Hpre & Hv).
  destruct (update_view_raises v w_mid e w1 Hv) as (He & _ & Hm & Hw1).
  exists pre, v, post, w_mid. repeat split; try assumption.
  all: apply (for_each_touches pre _ _ _ Hpre).
Qed.

Lemma stuck_flag_stays w1 w2 :
  is_rendering w1 = true -> later w1 w2 ->
  is_rendering w2 = true /\ calls w2 = calls w1.
Proof.
  intros Hr H. induction H as [w | w wa r wb _ IH Ht | w wa wb _ IH [He Hc]].
  - split; [exact Hr | reflexivity].
  - destruct (IH Hr) as [Hra Hca].
    rewrite (tick_guard wa Hra) in Ht. inversion Ht. subst. split; assumption.
  - destruct (IH Hr) as [Hra Hca]. split; congruence.
Qed.

End SchedFacts.

(* ================================================================== *)
(** * The claims about the scheduler *)

Module Scheduler.

Import Sublime Host Helpers RegionDrawing Renderer SchedFacts.

(** ** A desk to try things on *)

Definition link : Region := {| a := 4; b := 27 |}.

Definition settings0 : Settings :=
  {| work_for_transient_view := false;
     large_file_threshold := 1000;
     show_open_button := fun _ => "always";
     draw_uri_regions_enabled := "always";
     draw_uri_regions_scope := "string.other.link";
     draw_uri_regions_icon := "dot";
     draw_uri_regions_flags := FlagsNames ["DRAW_NO_FILL"; "HIDE_ON_MINIMAP"] |}.

Definition fresh_view : ViewData :=
  {| processable := true; is_dirty := true; typing := false; transient := false;
     size := 120; matches := Ok [link]; phantom_set := [];
     regions := fun _ => None |}.

(** A view whose scan fails. *)
Definition failing_view : ViewData :=
  {| processable := true; is_dirty := true; typing := false; transient := false;
     size := 120; matches := Raise ScanError; phantom_set := [];
     regions := fun _ => None |}.

(** A view over the threshold that still shows overlays. *)
Definition big_view : ViewData :=
  {| processable := true; is_dirty := true; typing := false; transient := false;
     size := 5000; matches := Ok [link]; phantom_set := [link];
     regions := fun k =>
       if String.eqb k "OUIB_uri_regions"
       then Some {| rs_regions := [link]; rs_scope := "string.other.link";
                    rs_icon := "dot"; rs_flags := 32 |}
       else None |}.

Definition constants (name : string) : option Z :=
  if String.eqb name "DRAW_NO_FILL" then Some 32
  else if String.eqb name "HIDE_ON_MINIMAP" then Some 128
  else None.

(** Two windows; view 1 fails to scan, view 3 is oversized. *)
Definition desk : World :=
  {| windows := [[Some 1%nat; None; Some 2%nat]; [Some 3%nat]];
     views := fun id => match id with
                        | 1%nat => failing_view
                        | 3%nat => big_view
                        | _ => fresh_view
                        end;
     settings := settings0;
     sublime_attr := constants;
     is_rendering := false;
     calls := [] |}.

(** The same desk with every scan succeeding. *)
Definition calm_desk : World :=
  {| windows := [[Some 1%nat; None; Some 2%nat]; [Some 3%nat]];
     views := fun id => match id with
                        | 3%nat => big_view
                        | _ => fresh_view
                        end;
     settings := settings0;
     sublime_attr := constants;
     is_rendering := false;
     calls := [] |}.

(** ** Scan failures *)

(** C2, as stated, fails. On [desk] the scan of view 1 fails: the tick
    raises, views 2 and 3 are not processed in it (no collaborator is
    called for them, view 2 is still dirty, view 3 still shows its icons),
    and the next tick does nothing, so view 1 is not scanned again. *)
Lemma scan_failure_aborts_tick :
  fst (_update_foreground_views desk) = Raise ScanError
  /\ calls (snd (_update_foreground_views desk)) = [FindAll 1%nat]
  /\ is_dirty (views (snd (_update_foreground_views desk)) 2%nat) = true
  /\ phantom_set (views (snd (_update_foreground_views desk)) 3%nat) = [link]
  /\ is_dirty (views (snd (_update_foreground_views desk)) 1%nat) = true
  /\ _update_foreground_views (snd (_update_foreground_views desk))
     = (Ok tt, snd (_update_foreground_views desk)).
Proof.
  repeat split; reflexivity.
Qed.

(** C2, amended. A scan failure while processing one foreground view ends
    the tick at that view: the exception leaves the tick; the views that
    were not visited before it keep their state and no collaborator is
    called for them; the failing view's dirty flag is left set; and
    [is_rendering] is left true, so the next tick returns at its guard
    without scanning anything. *)
Theorem scan_failure_ends_tick (w : World) (e : exn) (w1 : World) :
  _update_foreground_views w = (Raise e, w1) ->
  exists pre v post,
    foreground_views w = (pre ++ v :: post)%list
    /\ matches (views w1 v) = Raise e
    /\ is_dirty (views w1 v) = true
    /\ (forall u, ~ In u pre -> views w1 u = views w u)
    /\ (exists evs,
          calls w1 = (calls w ++ evs ++ [FindAll v])%list
          /\ Forall (fun ev => In (event_view ev) pre) evs)
    /\ is_rendering w1 = true
    /\ _update_foreground_views w1 = (Ok tt, w1).
Proof.
  intros H.
  destruct (tick_raises w e w1 H)
    as (Hr & pre & v & post & w_mid & Hfv & _ & Ht & He & Hm & Hw1).
  destruct Ht as (_ & _ & _ & Hflag & Hviews & evs & Hcalls & Hevs).
  assert (Hr1 : is_rendering w1 = true).
  { subst w1. cbn [record is_rendering]. rewrite Hflag. reflexivity. }
  exists pre, v, post.
  split; [exact Hfv|].
  split; [subst w1; exact Hm|].
  split.
  { subst w1. cbn [record views]. unfold eligible in He.
    repeat rewrite andb_true_iff in He. destruct He as [[[_ Hd] _] _]. exact Hd. }
  split.
  { intros u Hu. subst w1. cbn [record views]. rewrite (Hviews u Hu). reflexivity. }
  split.
  { exists evs. split; [|exact Hevs]. subst w1. cbn [record calls].
    rewrite Hcalls. cbn [set_is_rendering calls]. rewrite app_assoc. reflexivity. }
  split; [exact Hr1 | apply tick_guard, Hr1].
Qed.

Lemma scan_failure_ends_tick_witness :
  exists pre v post,
    foreground_views desk = (pre ++ v :: post)%list
    /\ matches (views (snd (_update_foreground_views desk)) v) = Raise ScanError
    /\ is_dirty (views (snd (_update_foreground_views desk)) v) = true
    /\ (forall u, ~ In u pre ->
          views (snd (_update_foreground_views desk)) u = views desk u)
    /\ (exists evs,
          calls (snd (_update_foreground_views desk))
          = (calls desk ++ evs ++ [FindAll v])%list
          /\ Forall (fun ev => In (event_view ev) pre) evs)
    /\ is_rendering (snd (_update_foreground_views desk)) = true
    /\ _update_foreground_views (snd (_update_foreground_views desk))
       = (Ok tt, snd (_update_foreground_views desk)).
Proof.
  apply (scan_failure_ends_tick desk ScanError (snd (_update_foreground_views desk))).
  reflexivity.
Defined.

(** C9. If processing a view raises during a tick, the tick leaves
    [is_rendering] true; from then on, whatever the editor changes and
    however many ticks fire, the flag stays true, no collaborator is ever
    called again, and every tick returns at once with the world unchanged. *)
Theorem exception_disables_scheduler (w : World) (e : exn) (w1 w2 : World) :
  _update_foreground_views w = (Raise e, w1) ->
  later w1 w2 ->
  is_rendering w1 = true
  /\ is_rendering w2 = true
  /\ calls w2 = calls w1
  /\ _update_foreground_views w2 = (Ok tt, w2).
Proof.
  intros H Hl.
  destruct (tick_raises w e w1 H)
    as (_ & pre & v & post & w_mid & _ & _ & Ht & _ & _ & Hw1).
  destruct Ht as (_ & _ & _ & Hflag & _).
  assert (Hr1 : is_rendering w1 = true).
  { subst w1. cbn [record is_rendering]. rewrite Hflag. reflexivity. }
  destruct (stuck_flag_stays w1 w2 Hr1 Hl) as [Hr2 Hc].
  repeat split; try assumption. apply tick_guard, Hr2.
Qed.

(** The editor marks view 2 dirty again and brings view 1 back to health. *)
Definition repaired (w : World) : World := set_views (views calm_desk) w.

Lemma exception_disables_scheduler_witness :
  let w1 := snd (_update_foreground_views desk) in
  let w2 := snd (_update_foreground_views (repaired w1)) in
  is_rendering w1 = true
  /\ is_rendering w2 = true
  /\ calls w2 = calls w1
  /\ _update_foreground_views w2 = (Ok tt, w2).
Proof.
  intros w1 w2.
  apply (exception_disables_scheduler desk ScanError w1 w2); [reflexivity|].
  apply (later_tick w1 (repaired w1) (Ok tt) w2); [|reflexivity].
  apply (later_edit w1 w1 (repaired w1)); [apply later_now|].
  split; reflexivity.
Defined.

(** ** Overlapping ticks *)







(** ** Oversized views *)

(** C7. For a view that is eligible (processable, dirty, not typing,
    transient policy satisfied) and whose size exceeds the threshold,
    processing the view empties its icon layer, erases its highlighted
    regions, sets its dirty flag to false and calls nothing but the two
    erasures: the scanner is not run. A tick that visits such a foreground
    view and returns leaves the view in that state, without a scan of it. *)
Theorem oversized_view_is_torn_down (w : World) (v : view_id) :
  eligible w v = true ->
  oversized w v = true ->
  (_update_view v w = (Ok tt, cleared v w)
   /\ torn_down v (cleared v w)
   /\ calls (cleared v w)
      = (calls w ++ [ErasePhantoms v; EraseRegions v "OUIB_uri_regions"])%list)
  /\ (forall w',
        In v (foreground_views w) ->
        is_rendering w = false ->
        _update_foreground_views w = (Ok tt, w') ->
        torn_down v w' /\ no_scan_of v w w').
Proof.
  intros He Ho. split.
  - split; [apply update_view_oversized; assumption|].
    split; [apply cleared_torn_down | apply cleared_calls].
  - intros w' Hin Hr. rewrite (tick_runs w Hr).
    destruct (for_each (foreground_views w) _update_view (set_is_rendering true w))
      as [[[]|e] w1] eqn:Hl; [|discriminate].
    intros H. inversion H. subst w'.
    destruct (loop_oversized v _ (set_is_rendering true w) w1 Ho (or_introl He) Hl)
      as [Ht Hn].
    split; [apply (Ht (or_introl Hin)) | exact Hn].
Qed.

Lemma oversized_view_is_torn_down_witness :
  torn_down 3%nat (snd (_update_view 3%nat desk))
  /\ torn_down 3%nat (snd (_update_foreground_views calm_desk))
  /\ no_scan_of 3%nat calm_desk (snd (_update_foreground_views calm_desk)).
Proof.
  destruct (oversized_view_is_torn_down desk 3%nat eq_refl eq_refl)
    as [(_ & H1 & _) _].
  destruct (oversized_view_is_torn_down calm_desk 3%nat eq_refl eq_refl)
    as [_ H2].
  split; [exact H1|].
  apply (H2 (snd (_update_foreground_views calm_desk))).
  - cbn. auto.
  - reflexivity.
  - vm_compute. reflexivity.
Defined.

End Scheduler.

(* ================================================================== *)
(** * What a least-recently-used cache retains *)

Module CacheFacts.

Import LruCache.

Section Retention.

Variables K V : Type.
Variable K_eq_dec : forall x y : K, {x = y} + {x <> y}.

Local Abbreviation keys := (map (@fst K V)).
Local Abbreviation cache_get := (@LruCache.cache_get K V K_eq_dec).
Local Abbreviation remove := (@LruCache.remove K V K_eq_dec).
Local Abbreviation touch := (@LruCache.touch K V K_eq_dec).

Lemma cache_get_none k c : cache_get k c = None -> ~ In k (keys c).
Proof.
  induction c as [|[k1 v1] t IH]; cbn; [tauto|].
  destruct (K_eq_dec k k1) as [-> | Hne]; [discriminate|].
  intros H [E | Hin]; [apply Hne; symmetry; exact E | exact (IH H Hin)].
Qed.

Lemma cache_get_split k v pre post :
  ~ In k (keys pre) -> cache_get k (pre ++ (k, v) :: post)%list = Some v.
Proof.
  induction pre as [|[k1 v1] t IH]; cbn; intros H.
  - destruct (K_eq_dec k k) as [_ | Hne]; [reflexivity | contradiction Hne; reflexivity].
  - destruct (K_eq_dec k k1) as [-> | Hne]; [exfalso; apply H; left; reflexivity|].
    apply IH. intros Hin. apply H. right. exact Hin.
Qed.

Lemma keys_remove_incl k c : incl (keys (remove k c)) (keys c).
Proof.
  induction c as [|[k1 v1] t IH]; cbn; [apply incl_refl|].
  destruct (K_eq_dec k k1); [apply incl_tl, IH|].
  cbn. intros x [-> | Hin]; [left; reflexivity | right; apply IH, Hin].
Qed.

Lemma remove_not_in k c : ~ In k (keys (remove k c)).
Proof.
  induction c as [|[k1 v1] t IH]; cbn; [tauto|].
  destruct (K_eq_dec k k1) as [-> | Hne]; [exact IH|].
  cbn. intros [E | Hin]; [apply Hne; symmetry; exact E | exact (IH Hin)].
Qed.

Lemma NoDup_remove k c : NoDup (keys c) -> NoDup (keys (remove k c)).
Proof.
  induction c as [|[k1 v1] t IH]; cbn; intros H; [constructor|].
  inversion H as [|? ? Hnin Hnd]; subst.
  destruct (K_eq_dec k k1); [apply IH, Hnd|].
  cbn. constructor; [|apply IH, Hnd].
  intros Hin. apply Hnin. apply (keys_remove_incl k t), Hin.
Qed.

Lemma remove_app k c1 c2 :
  remove k (c1 ++ c2)%list = (remove k c1 ++ remove k c2)%list.
Proof.
  induction c1 as [|[k1 v1] t IH]; cbn; [reflexivity|].
  destruct (K_eq_dec k k1); rewrite IH; reflexivity.
Qed.

Lemma NoDup_touch k v c : NoDup (keys c) -> NoDup (keys (touch k v c)).
Proof.
  intros H. unfold LruCache.touch. cbn. constructor.
  - apply remove_not_in.
  - apply NoDup_remove, H.
Qed.

Lemma NoDup_prefix (n : nat) (l : list K) : NoDup l -> NoDup (firstn n l).
Proof.
  intros H. rewrite <- (firstn_skipn n l) in H.
  apply NoDup_app_remove_r in H. exact H.
Qed.

Lemma NoDup_store n k v c :
  NoDup (keys c) -> cache_get k c = None -> NoDup (keys (store n k v c)).
Proof.
  intros H Hg. unfold store. rewrite <- firstn_map.
  apply NoDup_prefix. cbn. constructor; [apply cache_get_none, Hg | exact H].
Qed.

(** The entry of [k0] is in the cache with value [v], and every entry used
    more recently has its key in [total]. *)
Definition held (k0 : K) (v : V) (total : list K) (c : cache K V) : Prop :=
  NoDup (keys c)
  /\ exists pre post, c = (pre ++ (k0, v) :: post)%list /\ incl (keys pre) total.

Lemma held_get k0 v total c : held k0 v total c -> cache_get k0 c = Some v.
Proof.
  intros (Hnd & pre & post & -> & _). apply cache_get_split.
  rewrite map_app in Hnd. cbn in Hnd.
  apply NoDup_remove_2 in Hnd. intros Hin. apply Hnd, in_or_app. left. exact Hin.
Qed.

Lemma held_touch k0 v total c k v' :
  held k0 v total c -> cache_get k c = Some v' ->
  k = k0 \/ In k total ->
  held k0 v total (touch k v' c).
Proof.
  intros Hh Hg Hk. pose proof (held_get _ _ _ _ Hh) as Hg0.
  destruct Hh as (Hnd & pre & post & Hc & Hin).
  split; [apply NoDup_touch, Hnd|].
  destruct (K_eq_dec k k0) as [-> | Hne].
  - rewrite Hg0 in Hg. inversion Hg. subst v'.
    exists [], (remove k0 c). split; [reflexivity|]. intros x [].
  - destruct Hk as [E | Hk]; [contradiction|].
    exists ((k, v') :: remove k pre), (remove k post). split.
    + unfold LruCache.touch. rewrite Hc, remove_app. cbn.
      destruct (K_eq_dec k k0); [contradiction | reflexivity].
    + cbn. intros x [<- | Hx]; [exact Hk|].
      apply Hin. apply (keys_remove_incl k pre), Hx.
Qed.

Lemma held_store maxsize k0 v total c k v' :
  held k0 v total c -> cache_get k c = None ->
  In k total ->
  (List.length (nodup K_eq_dec total) < maxsize)%nat ->
  held k0 v total (store maxsize k v' c).
Proof.
  intros (Hnd & pre & post & Hc & Hin) Hg Hk Hsize.
  split; [apply NoDup_store; assumption|].
  assert (Hpre : (S (List.length pre) <= List.length (nodup K_eq_dec total))%nat).
  { assert (El : List.length (keys pre) = List.length pre) by apply length_map.
    rewrite <- El. change (S (List.length (keys pre))) with (List.length (k :: keys pre)).
    apply NoDup_incl_length.
    - constructor.
      + intros Hx. apply (cache_get_none k c Hg). rewrite Hc, map_app.
        apply in_or_app. left. exact Hx.
      + rewrite Hc, map_app in Hnd. apply NoDup_app_remove_r in Hnd. exact Hnd.
    - intros x [<- | Hx]; apply nodup_In; [exact Hk | apply Hin, Hx]. }
  exists ((k, v') :: pre), (firstn (maxsize - S (S (List.length pre))) post).
  split; [|cbn; intros x [<- | Hx]; [exact Hk | apply Hin, Hx]].
  unfold store. rewrite Hc.
  change ((k, v') :: pre ++ (k0, v) :: post)%list
    with (((k, v') :: pre) ++ (k0, v) :: post)%list.
  rewrite firstn_app, firstn_all2 by (cbn; lia).
  f_equal. cbn [List.length].
  destruct (maxsize - S (List.length pre))%nat as [|m] eqn:E; [lia|].
  cbn [firstn]. f_equal. f_equal. lia.
Qed.

(** The wrapper keeps what is held, as long as the keys it is called with
    stay within a set of fewer than [maxsize]. *)
Lemma wrapper_held {S : Type} maxsize (f : K -> S -> result V * S)
  k0 v total k c s r c' s' :
  wrapper K_eq_dec maxsize f k c s = (r, c', s') ->
  held k0 v total c ->
  k = k0 \/ In k total ->
  (List.length (nodup K_eq_dec total) < maxsize)%nat ->
  held k0 v total c'.
Proof.
  unfold wrapper. intros H Hh Hk Hsize.
  destruct (cache_get k c) as [v'|] eqn:Hg.
  - inversion H. subst. eapply held_touch; eassumption.
  - destruct (f k s) as [[v'|e] s1]; inversion H; subst; [|exact Hh].
    destruct Hk as [-> | Hk].
    + rewrite (held_get _ _ _ _ Hh) in Hg. discriminate.
    + apply held_store; assumption.
Qed.

Lemma wrapper_NoDup {S : Type} maxsize (f : K -> S -> result V * S)
  k c s r c' s' :
  wrapper K_eq_dec maxsize f k c s = (r, c', s') ->
  NoDup (keys c) -> NoDup (keys c').
Proof.
  unfold wrapper. intros H Hnd.
  destruct (cache_get k c) as [v'|] eqn:Hg.
  - inversion H. subst. apply NoDup_touch, Hnd.
  - destruct (f k s) as [[v'|e] s1]; inversion H; subst; [|exact Hnd].
    apply NoDup_store; assumption.
Qed.

(** A result just returned is held at the front. *)
Lemma wrapper_returns_held {S : Type} maxsize (f : K -> S -> result V * S)
  total k c s v c' s' :
  wrapper K_eq_dec maxsize f k c s = (Ok v, c', s') ->
  NoDup (keys c) -> (0 < maxsize)%nat ->
  held k v total c'.
Proof.
  intros H Hnd Hm. split; [eapply wrapper_NoDup; eassumption|].
  unfold wrapper in H.
  destruct (cache_get k c) as [v'|] eqn:Hg.
  - inversion H. subst. exists [], (remove k c). split; [reflexivity | intros x []].
  - destruct (f k s) as [[v'|e] s1]; inversion H; subst.
    destruct maxsize as [|m]; [lia|].
    exists [], (firstn m c). split; [reflexivity | intros x []].
Qed.

(** Every cached value is what the function returns for its key. *)
Definition coherent (f : K -> result V) (c : cache K V) : Prop :=
  forall k v, In (k, v) c -> f k = Ok v.

Lemma in_remove x k c : In x (remove k c) -> In x c.
Proof.
  induction c as [|[k1 v1] t IH]; cbn; [tauto|].
  destruct (K_eq_dec k k1); [intros H; right; apply IH, H|].
  cbn. intros [E | H]; [left; exact E | right; apply IH, H].
Qed.

Lemma cache_get_in k v c : cache_get k c = Some v -> In (k, v) c.
Proof.
  induction c as [|[k1 v1] t IH]; cbn; [discriminate|].
  destruct (K_eq_dec k k1) as [-> | Hne].
  - intros H. inversion H. left. reflexivity.
  - intros H. right. apply IH, H.
Qed.

(** Around a function without effects the wrapper returns what the function
    returns, whatever has been cached before. *)
Lemma wrapper_pure_agrees maxsize (f : K -> result V) k c r c' :
  coherent f c ->
  wrapper K_eq_dec maxsize (fun key (_ : unit) => (f key, tt)) k c tt = (r, c', tt) ->
  r = f k /\ coherent f c'.
Proof.
  unfold wrapper. intros Hc H.
  destruct (cache_get k c) as [v|] eqn:Hg.
  - inversion H. subst. pose proof (Hc k v (cache_get_in _ _ _ Hg)) as Hv.
    split; [symmetry; exact Hv|].
    intros k1 v1 [E | Hin]; [inversion E; subst; exact Hv|].
    apply Hc. apply (in_remove _ k), Hin.
  - destruct (f k) as [v|e] eqn:Hf; inversion H; subst; split; auto.
    intros k1 v1 Hin. unfold store in Hin.
    assert (Hin' : In (k1, v1) ((k, v) :: c)).
    { rewrite <- (firstn_skipn maxsize ((k, v) :: c)).
      apply in_or_app. left. exact Hin. }
    destruct Hin' as [E | Hin']; [inversion E; subst; exact Hf | apply Hc, Hin'].
Qed.

End Retention.

End CacheFacts.

(* ================================================================== *)
(** * The claim about the caches of recoloured images *)

Module ImageCache.

Import Py LruCache CachedImage CacheFacts.

Section Cached.

Variable bytes : Type.
Variable bytes_eq_dec : forall x y : bytes, {x = y} + {x <> y}.
Variable png_asRGBA : bytes -> result (Z * Z * list (list Z)).
Variable png_write : list (list Z) -> result bytes.
Variable images_bytes : string -> bytes.
Variable images_base64 : string -> string.
Variable b64encode : bytes -> string.

Local Abbreviation call :=
  (get_colored_image_base64_by_color bytes bytes_eq_dec png_asRGBA png_write
     images_bytes images_base64 b64encode).
Local Abbreviation run :=
  (lookups bytes bytes_eq_dec png_asRGBA png_write
     images_bytes images_base64 b64encode).
Local Abbreviation colors := (@color_cache bytes).
Local Abbreviation keys := (map (@fst color_key string)).

Lemma call_color_cache img_name rgba_code st r st' :
  call img_name rgba_code st = (r, st') ->
  exists pc,
    wrapper color_key_eq_dec default_maxsize
      (get_colored_image_base64_by_color_body bytes bytes_eq_dec png_asRGBA
         png_write images_bytes images_base64 b64encode)
      (img_name, rgba_code) (colors st) (png_cache bytes st)
    = (r, colors st', pc).
Proof.
  unfold get_colored_image_base64_by_color.
  destruct (wrapper _ _ _ _ _ _) as [[r' cc] pc]. intros H. inversion H. subst.
  exists pc. reflexivity.
Qed.

Lemma run_NoDup ks : forall st,
  NoDup (keys (colors st)) -> NoDup (keys (colors (run ks st))).
Proof.
  induction ks as [|[n c] t IH]; intros st H; [exact H|].
  cbn [lookups]. apply IH.
  destruct (call n c st) as [r st'] eqn:Hc.
  destruct (call_color_cache n c st r st' Hc) as [pc Hw].
  cbn [snd]. eapply wrapper_NoDup; eassumption.
Qed.

Lemma run_held k0 v total ks : forall st,
  held color_key string k0 v total (colors st) ->
  (forall k, In k ks -> k = k0 \/ In k total) ->
  (List.length (nodup color_key_eq_dec total) < default_maxsize)%nat ->
  held color_key string k0 v total (colors (run ks st)).
Proof.
  induction ks as [|[n c] t IH]; intros st Hh Hk Hsize; [exact Hh|].
  cbn [lookups]. apply IH; [|intros k Hin; apply Hk; right; exact Hin | exact Hsize].
  destruct (call n c st) as [r st'] eqn:Hc.
  destruct (call_color_cache n c st r st' Hc) as [pc Hw].
  cbn [snd]. eapply wrapper_held; try eassumption.
  apply Hk. left. reflexivity.
Qed.

(** ** The cache of [change_png_bytes_color] *)

Local Abbreviation recolor :=
  (fun key : png_key bytes =>
     Image.change_png_bytes_color bytes png_asRGBA png_write (fst key) (snd key)).
Local Abbreviation cached_recolor :=
  (CachedImage.change_png_bytes_color bytes bytes_eq_dec png_asRGBA png_write).

Lemma cached_recolor_wrapper img code c r c' :
  cached_recolor img code c = (r, c') ->
  wrapper (png_key_eq_dec bytes bytes_eq_dec) default_maxsize
    (fun key (_ : unit) => (recolor key, tt)) (img, code) c tt = (r, c', tt).
Proof.
  unfold CachedImage.change_png_bytes_color.
  destruct (wrapper _ _ _ _ _ _) as [[r1 c1] []]. intros H. inversion H.
  reflexivity.
Qed.

(** Callers get from the cached function what the function under the
    decorator returns. *)
Lemma cached_recolor_agrees img code c r c' :
  coherent (png_key bytes) bytes recolor c ->
  cached_recolor img code c = (r, c') ->
  r = Image.change_png_bytes_color bytes png_asRGBA png_write img code
  /\ coherent (png_key bytes) bytes recolor c'.
Proof.
  intros Hc H. apply cached_recolor_wrapper in H.
  apply (wrapper_pure_agrees _ _ _ _ recolor _ _ _ _ Hc H).
Qed.

(** A sequence of direct calls of the cached function. *)
Fixpoint recolors (ks : list (png_key bytes)) (c : cache (png_key bytes) bytes)
  : cache (png_key bytes) bytes :=
  match ks with
  | [] => c
  | (img, code) :: t => recolors t (snd (cached_recolor img code c))
  end.

(** Its entries are retained on the same terms. *)
Lemma recolors_held k0 v total ks : forall c,
  held (png_key bytes) bytes k0 v total c ->
  (forall k, In k ks -> k = k0 \/ In k total) ->
  (List.length (nodup (png_key_eq_dec bytes bytes_eq_dec) total)
   < default_maxsize)%nat ->
  held (png_key bytes) bytes k0 v total (recolors ks c).
Proof.
  induction ks as [|[img code] t IH]; intros c Hh Hk Hsize; [exact Hh|].
  cbn [recolors]. apply IH; [|intros k Hin; apply Hk; right; exact Hin | exact Hsize].
  destruct (cached_recolor img code c) as [r c'] eqn:Hc.
  apply cached_recolor_wrapper in Hc.
  cbn [snd]. eapply wrapper_held; try eassumption.
  apply Hk. left. reflexivity.
Qed.

End Cached.

(** The keys of a sequence of calls that differ from [k0]. *)
Definition others (k0 : color_key) (ks : list color_key) : list color_key :=
  filter (fun k => if color_key_eq_dec k k0 then false else true) ks.

Lemma others_spec k0 ks k : In k ks -> k = k0 \/ In k (others k0 ks).
Proof.
  intros H. destruct (color_key_eq_dec k k0) as [E | Hne] eqn:D; [left; exact E|].
  right. apply filter_In. split; [exact H|]. rewrite D. reflexivity.
Qed.

(** C8, amended. The cache of [get_colored_image_base64_by_color] is the
    least-recently-used cache of 128 entries that a bare [@lru_cache]
    gives. After any history of calls, an entry just computed is retained
    through every later sequence of calls in which fewer than 128 distinct
    other keys occur, and a further call for it is answered from the
    cache. *)
Theorem entry_survives_fewer_than_128_others (bytes : Type)
  (bytes_eq_dec : forall x y : bytes, {x = y} + {x <> y})
  (png_asRGBA : bytes -> result (Z * Z * list (list Z)))
  (png_write : list (list Z) -> result bytes)
  (images_bytes : string -> bytes) (images_base64 : string -> string)
  (b64encode : bytes -> string)
  (history : list color_key) (img_name rgba_code v : string) (st1 : Caches bytes)
  (later_keys : list color_key) :
  get_colored_image_base64_by_color bytes bytes_eq_dec png_asRGBA png_write
    images_bytes images_base64 b64encode img_name rgba_code
    (lookups bytes bytes_eq_dec png_asRGBA png_write images_bytes images_base64
       b64encode history (empty_caches bytes))
  = (Ok v, st1) ->
  (List.length (nodup color_key_eq_dec (others (img_name, rgba_code) later_keys))
   < 128)%nat ->
  let st2 := lookups bytes bytes_eq_dec png_asRGBA png_write images_bytes
               images_base64 b64encode later_keys st1 in
  cache_get color_key_eq_dec (img_name, rgba_code) (color_cache bytes st2) = Some v
  /\ get_colored_image_base64_by_color bytes bytes_eq_dec png_asRGBA png_write
       images_bytes images_base64 b64encode img_name rgba_code st2
     = (Ok v,
        {| color_cache :=
             touch color_key_eq_dec (img_name, rgba_code) v (color_cache bytes st2);
           png_cache := png_cache bytes st2 |}).
Proof.
  intros Hcall Hsize st2.
  destruct (call_color_cache _ _ _ _ _ _ _ _ _ _ _ _ Hcall) as [pc Hw].
  assert (Hnd : NoDup (map fst (color_cache bytes
             (lookups bytes bytes_eq_dec png_asRGBA png_write images_bytes
                images_base64 b64encode history (empty_caches bytes))))).
  { apply run_NoDup. constructor. }
  pose proof (wrapper_returns_held _ _ color_key_eq_dec default_maxsize _
                (others (img_name, rgba_code) later_keys) _ _ _ _ _ _
                Hw Hnd ltac:(unfold default_maxsize; lia)) as Hh.
  assert (Hh2 : held color_key string (img_name, rgba_code) v
                  (others (img_name, rgba_code) later_keys)
                  (color_cache bytes st2)).
  { apply run_held; [exact Hh | intros k; apply others_spec | exact Hsize]. }
  pose proof (held_get _ _ color_key_eq_dec _ _ _ _ Hh2) as Hg.
  split; [exact Hg|].
  unfold get_colored_image_base64_by_color, wrapper. rewrite Hg. reflexivity.
Qed.

(** ** An instance to try things on *)

Import Recolor.

Definition raw_image_eq_dec (x y : raw_image) : {x = y} + {x <> y}.
Proof.
  repeat decide equality.
Defined.

(** Every name stands for the same one-pixel template. *)
Definition one_template (name : string) : raw_image := white_pixel.

(** A stand-in for the base-64 text of an image: the alpha of its first
    pixel in hexadecimal. *)
Definition alpha_text_of (b : raw_image) : string :=
  match b with
  | (_, _, (_ :: _ :: _ :: alpha :: _) :: _) => format_08x alpha
  | _ => ""
  end.

Definition try_call : string -> string -> Caches raw_image -> result string * Caches raw_image :=
  get_colored_image_base64_by_color raw_image raw_image_eq_dec raw_asRGBA
    raw_write one_template (fun _ => "") alpha_text_of.

Definition try_lookups : list color_key -> Caches raw_image -> Caches raw_image :=
  lookups raw_image raw_image_eq_dec raw_asRGBA raw_write one_template
    (fun _ => "") alpha_text_of.

Definition first_tint : color_key := ("open", "#ffffffff").

(** 128 further tints, all different, none of them [first_tint]. *)
Definition tints : list color_key :=
  map (fun i => ("open", "#" ++ format_08x (Z.of_nat i))) (seq 0 128).

Lemma entry_survives_fewer_than_128_others_witness :
  let st2 := try_lookups (firstn 127 tints) (snd (try_call "open" "#ffffffff"
                                                   (empty_caches raw_image))) in
  cache_get color_key_eq_dec first_tint (color_cache raw_image st2) = Some "000000fe"
  /\ try_call "open" "#ffffffff" st2
     = (Ok "000000fe",
        {| color_cache :=
             touch color_key_eq_dec first_tint "000000fe" (color_cache raw_image st2);
           png_cache := png_cache raw_image st2 |}).
Proof.
  apply (entry_survives_fewer_than_128_others raw_image raw_image_eq_dec
           raw_asRGBA raw_write one_template (fun _ => "") alpha_text_of
           [] "open" "#ffffffff" "000000fe"
           (snd (try_call "open" "#ffffffff" (empty_caches raw_image)))
           (firstn 127 tints)).
  - vm_compute. reflexivity.
  - vm_compute. lia.
Defined.

(** C8, as stated, fails: the entry computed for [first_tint] is in the
    cache after its call, and is gone after calls for 128 other tints. *)
Lemma entry_is_evicted :
  let st1 := snd (try_call "open" "#ffffffff" (empty_caches raw_image)) in
  cache_get color_key_eq_dec first_tint (color_cache raw_image st1) = Some "000000fe"
  /\ List.length (nodup color_key_eq_dec tints) = 128%nat
  /\ ~ In first_tint tints
  /\ cache_get color_key_eq_dec first_tint
       (color_cache raw_image (try_lookups tints st1)) = None.
Proof.
  split; [vm_compute; reflexivity|].
  split; [vm_compute; reflexivity|].
  split; [|vm_compute; reflexivity].
  intros H.
  destruct (in_dec color_key_eq_dec first_tint tints) as [i | n] eqn:E;
    [vm_compute in E; discriminate | contradiction].
Qed.

End ImageCache.

(* ================================================================== *)
(** * More on the colour codec *)

Module CodecLaws.

Import Py Sublime Image PyFacts HexFacts Codec Inverted.

Lemma lower_char_idem c : lower_char (lower_char c) = lower_char c.
Proof. each_char c. Qed.

Lemma lower_idem s : lower (lower s) = lower s.
Proof. induction s as [|c t IH]; simpl; [reflexivity|]. rewrite lower_char_idem, IH. reflexivity. Qed.

Lemma substring_prefix h rest :
  substring 0 (String.length h) (h ++ rest) = h.
Proof.
  induction h as [|c t IH]; simpl.
  - destruct rest; reflexivity.
  - rewrite IH. reflexivity.
Qed.

Lemma substring_length n s : (String.length (substring 0 n s) <= n)%nat.
Proof.
  revert s. induction n as [|n IH]; intros [|c t]; simpl; try lia.
  specialize (IH t). lia.
Qed.

Lemma match_hex_plus_head rgb :
  match_hex_plus rgb = true -> exists c t, rgb = String c t /\ is_hex c = true.
Proof.
  unfold match_hex_plus. destruct rgb as [|c t]; simpl; [discriminate|].
  intros H. apply andb_true_iff in H as [Hc _]. exists c, t. split; [reflexivity | exact Hc].
Qed.

(** The function under the decorator, on any input that starts with [#]:
    the recognised digits, or nothing. *)
Lemma body_hash api region s :
  let rgb := substring 0 8 s in
  color_code_to_rgba_body api ("#" ++ s, region)
  = if ((len rgb =? 3) || (len rgb =? 6) || (len rgb =? 8)) && match_hex_plus rgb
    then Ok ("#" ++ rgb) else Ok "".
Proof. reflexivity. Qed.

(** [add_alpha_to_rgb] on [#] followed by digits that start with a
    hexadecimal one. *)
Lemma add_alpha_digits c t :
  is_hex c = true -> (String.length (String c t) <= 8)%nat ->
  add_alpha_to_rgb ("#" ++ String c t)
  = let rgb := String c t in
    if len rgb =? 8 then Ok (lower ("#" ++ rgb))
    else
      let rgb :=
        match rgb with
        | String c0 (String c1 (String c2 "")) => twice c0 ++ twice c1 ++ twice c2
        | _ => rgb
        end in
      if len rgb =? 6 then Ok (lower ("#" ++ slice 0 6 rgb ++ "ff"))
      else Raise (ValueError ("Invalid RGB/RGBA color code: " ++ "#" ++ String c t)).
Proof.
  intros Hc Hl. unfold add_alpha_to_rgb.
  change (lstrip "#" ("#" ++ String c t)) with (lstrip "#" (String c t)).
  cbn [lstrip]. rewrite (is_hex_not_hash c Hc).
  unfold slice. rewrite (substring_all (8 - 0) (String c t)) by (simpl in *; lia).
  reflexivity.
Qed.

Lemma canonical_fixed api region s :
  is_canonical s = true -> color_code_to_rgba api s region = Ok s.
Proof.
  intros Hcan. pose proof Hcan as H. unfold is_canonical in H.
  destruct s as [|c t]; [discriminate|].
  destruct (Ascii.eqb c "#") eqn:Ec.
  2:{ exfalso. revert H Ec. clear. each_char c. }
  apply Ascii.eqb_eq in Ec. subst c.
  apply andb_true_iff in H as [Hl Hh]. apply Nat.eqb_eq in Hl.
  unfold color_code_to_rgba, simple_decorator.
  change (String "#" t) with ("#" ++ t).
  rewrite body_hex; [|apply all_lower_hex_all_hex, Hh | right; right; exact Hl].
  cbn [bind]. apply add_alpha_canonical, Hcan.
Qed.

(** X1. Normalising is idempotent on the hexadecimal forms: the result for
    [#] followed by 3, 6 or 8 hexadecimal digits is itself normalised to
    itself; more generally every string of the shape [#[0-9a-f]{8}] is a
    fixed point. *)
Theorem normalize_idempotent (api : Api) (region : Region) :
  (forall s, is_canonical s = true -> color_code_to_rgba api s region = Ok s)
  /\ (forall h out,
        all_hex h = true ->
        (String.length h = 3 \/ String.length h = 6 \/ String.length h = 8)%nat ->
        color_code_to_rgba api ("#" ++ h) region = Ok out ->
        color_code_to_rgba api out region = Ok out).
Proof.
  split; [intros s; apply canonical_fixed|].
  intros h out Hh Hl H.
  unfold color_code_to_rgba, simple_decorator in H.
  rewrite body_hex in H by assumption. cbn [bind] in H.
  rewrite add_alpha_hex in H by assumption. inversion H. subst out.
  apply canonical_fixed, canonical_of_is_canonical; assumption.
Qed.

Lemma normalize_idempotent_witness :
  color_code_to_rgba no_view "#aabbccff" some_region = Ok "#aabbccff".
Proof.
  destruct (normalize_idempotent no_view some_region) as [_ H].
  apply (H "AbC" "#aabbccff"); [reflexivity | left; reflexivity | reflexivity].
Defined.

(** X2. [add_alpha_to_rgb] raises [ValueError], naming its argument, when
    what is left of the argument after stripping the leading [#]s and
    cutting to eight characters has a length other than 0, 3, 6 or 8. *)
Theorem add_alpha_rejects_other_lengths (color_code : string) :
  (String.length (substring 0 8 (lstrip "#" color_code)) <> 0
   /\ String.length (substring 0 8 (lstrip "#" color_code)) <> 3
   /\ String.length (substring 0 8 (lstrip "#" color_code)) <> 6
   /\ String.length (substring 0 8 (lstrip "#" color_code)) <> 8)%nat ->
  add_alpha_to_rgb color_code
  = Raise (ValueError ("Invalid RGB/RGBA color code: " ++ color_code)).
Proof.
  intros (H0 & H3 & H6 & H8). unfold add_alpha_to_rgb, slice.
  change (8 - 0)%nat with 8%nat.
  set (rgb := substring 0 8 (lstrip "#" color_code)) in *.
  destruct rgb as [|c0 r]; [contradiction H0; reflexivity|].
  cbn [truthy negb]. unfold len.
  replace (Z.of_nat (String.length (String c0 r)) =? 8) with false
    by (symmetry; apply Z.eqb_neq; lia).
  destruct r as [|c1 [|c2 [|c3 r]]]; try reflexivity.
  - contradiction H3. reflexivity.
  - replace (Z.of_nat (String.length (String c0 (String c1 (String c2 (String c3 r))))) =? 6)
      with false by (symmetry; apply Z.eqb_neq; lia).
    reflexivity.
Qed.

Lemma add_alpha_rejects_other_lengths_witness :
  add_alpha_to_rgb "#1234" = Raise (ValueError "Invalid RGB/RGBA color code: #1234")
  /\ add_alpha_to_rgb "##abcde" = Raise (ValueError "Invalid RGB/RGBA color code: ##abcde").
Proof.
  split.
  - apply (add_alpha_rejects_other_lengths "#1234"). repeat split; discriminate.
  - apply (add_alpha_rejects_other_lengths "##abcde"). repeat split; discriminate.
Defined.

(** [str.isascii]: every character is a code point below 128. On such
    strings [str.lower] changes the letters A-Z and nothing else, one
    character for one; beyond them it may give back more characters than
    it was given. *)
Fixpoint isascii (s : string) : bool :=
  match s with
  | "" => true
  | String c t => (code c <? 128) && isascii t
  end.

Lemma lower_char_ascii c : (code c <? 128) = true -> (code (lower_char c) <? 128) = true.
Proof. each_char c. Qed.

Lemma isascii_lower s : isascii s = true -> isascii (lower s) = true.
Proof.
  induction s as [|c t IH]; simpl; [reflexivity|].
  intros H. apply andb_true_iff in H as [Hc Ht].
  rewrite (lower_char_ascii c Hc), (IH Ht). reflexivity.
Qed.

Lemma isascii_lstrip c s : isascii s = true -> isascii (lstrip c s) = true.
Proof.
  induction s as [|d t IH]; [reflexivity|].
  intros H. cbn [lstrip]. destruct (Ascii.eqb d c); [|exact H].
  cbn [isascii] in H. apply andb_true_iff in H as [_ Ht]. apply IH, Ht.
Qed.

Lemma isascii_substring n s : isascii s = true -> isascii (substring 0 n s) = true.
Proof.
  revert s. induction n as [|n IH]; intros [|c t]; simpl; try reflexivity.
  intros H. apply andb_true_iff in H as [Hc Ht]. rewrite Hc, (IH t Ht). reflexivity.
Qed.

Lemma lowered_shape t :
  String.length t = 8%nat ->
  isascii t = true ->
  String.length (lower ("#" ++ t)) = 9%nat
  /\ startswith "#" (lower ("#" ++ t)) = true
  /\ lower (lower ("#" ++ t)) = lower ("#" ++ t)
  /\ isascii (lower ("#" ++ t)) = true.
Proof.
  intros H Ha. rewrite lower_length, lower_idem. cbn [append String.length].
  rewrite H. repeat split. apply (isascii_lower (String "#" t)). exact Ha.
Qed.

(** X3. For an argument made of ASCII characters, whatever
    [add_alpha_to_rgb] returns is either empty or [#] followed by exactly
    eight characters, is in lower case and is ASCII again; the digits are
    not checked to be hexadecimal. (Outside ASCII the length can differ:
    [str.lower] turns U+0130 into two characters.) *)
Theorem add_alpha_result_shape (color_code out : string) :
  isascii color_code = true ->
  add_alpha_to_rgb color_code = Ok out ->
  out = ""
  \/ (String.length out = 9%nat /\ startswith "#" out = true /\ lower out = out
      /\ isascii out = true).
Proof.
  intros Hin. unfold add_alpha_to_rgb, slice. change (8 - 0)%nat with 8%nat.
  pose proof (substring_length 8 (lstrip "#" color_code)) as Hle.
  pose proof (isascii_substring 8 _ (isascii_lstrip "#" _ Hin)) as Ha.
  set (rgb := substring 0 8 (lstrip "#" color_code)) in *.
  destruct rgb as [|c0 r]; cbn [truthy negb].
  { intros H. inversion H. left. reflexivity. }
  unfold len. destruct (Z.of_nat (String.length (String c0 r)) =? 8) eqn:E8.
  { intros H. inversion H. right. apply Z.eqb_eq in E8.
    apply (lowered_shape (String c0 r)); [lia | exact Ha]. }
  destruct r as [|c1 [|c2 [|c3 r]]]; try discriminate.
  - intros H. inversion H. right.
    apply (lowered_shape (twice c0 ++ twice c1 ++ twice c2 ++ "ff")); [reflexivity|].
    cbn [isascii] in Ha.
    apply andb_true_iff in Ha as [A0 Ha]. apply andb_true_iff in Ha as [A1 Ha].
    apply andb_true_iff in Ha as [A2 _].
    cbn [twice append isascii]. rewrite A0, A1, A2. reflexivity.
  - destruct (Z.of_nat (String.length (String c0 (String c1 (String c2 (String c3 r))))) =? 6)
      eqn:E6; [|discriminate].
    intros H. inversion H. right. apply Z.eqb_eq in E6.
    destruct r as [|c4 [|c5 [|c6 r]]]; cbn [String.length] in E6; try lia.
    apply (lowered_shape
             (String c0 (String c1 (String c2 (String c3 (String c4 (String c5 "ff")))))));
      [reflexivity|].
    cbn [isascii] in Ha.
    apply andb_true_iff in Ha as [A0 Ha]. apply andb_true_iff in Ha as [A1 Ha].
    apply andb_true_iff in Ha as [A2 Ha]. apply andb_true_iff in Ha as [A3 Ha].
    apply andb_true_iff in Ha as [A4 Ha]. apply andb_true_iff in Ha as [A5 _].
    cbn [isascii]. rewrite A0, A1, A2, A3, A4, A5. reflexivity.
Qed.

Lemma add_alpha_result_shape_witness :
  "#zzzzzzff" = ""
  \/ (String.length "#zzzzzzff" = 9%nat /\ startswith "#" "#zzzzzzff" = true
      /\ lower "#zzzzzzff" = "#zzzzzzff" /\ isascii "#zzzzzzff" = true).
Proof. apply (add_alpha_result_shape "#ZZZ" "#zzzzzzff"); reflexivity. Defined.

(** X4. An input that starts with [#] never makes [color_code_to_rgba]
    raise: the result is the empty string or a string of nine characters. *)
Theorem hash_input_never_raises (api : Api) (region : Region) (s : string) :
  exists out,
    color_code_to_rgba api ("#" ++ s) region = Ok out
    /\ (out = "" \/ String.length out = 9%nat).
Proof.
  unfold color_code_to_rgba, simple_decorator. rewrite body_hash.
  pose proof (substring_length 8 s) as Hle.
  set (rgb := substring 0 8 s) in *.
  destruct (((len rgb =? 3) || (len rgb =? 6) || (len rgb =? 8)) && match_hex_plus rgb)
    eqn:E; cbn [bind]; [|exists ""; split; [reflexivity | left; reflexivity]].
  apply andb_true_iff in E as [El Em].
  destruct (match_hex_plus_head rgb Em) as (c & t & Hr & Hc).
  rewrite Hr in *. rewrite (add_alpha_digits c t Hc Hle). cbv zeta.
  unfold len in *.
  destruct t as [|c1 [|c2 [|c3 [|c4 [|c5 [|c6 [|c7 [|c8 t]]]]]]]];
    cbn [String.length] in Hle; try lia; try discriminate El;
    (eexists; split; [reflexivity | right; reflexivity]).
Qed.

(** X5. Characters after the eighth digit are ignored: [#] followed by
    eight hexadecimal digits and anything else is normalised like the
    eight digits alone. *)
Theorem extra_characters_ignored (api : Api) (region : Region) (h rest : string) :
  all_hex h = true -> String.length h = 8%nat ->
  color_code_to_rgba api ("#" ++ h ++ rest) region = Ok ("#" ++ lower h).
Proof.
  intros Hh Hl. unfold color_code_to_rgba, simple_decorator. rewrite body_hash.
  assert (E : substring 0 8 (h ++ rest) = h) by (rewrite <- Hl; apply substring_prefix).
  cbv zeta. rewrite E.
  rewrite match_hex_plus_all_hex;
    [|exact Hh | destruct h; [discriminate Hl | discriminate]].
  unfold len. rewrite Hl. cbn [bind Z.of_nat Pos.of_succ_nat Pos.succ Z.eqb Pos.eqb orb andb].
  rewrite add_alpha_hex by auto. unfold canonical_of. rewrite Hl. reflexivity.
Qed.

Lemma extra_characters_ignored_witness :
  color_code_to_rgba no_view "#A0B1C2D3 !important" some_region = Ok "#a0b1c2d3".
Proof.
  apply (extra_characters_ignored no_view some_region "A0B1C2D3" " !important");
    reflexivity.
Defined.

(** X6. The codec fails soft on symbolic input: an input that does not
    start with [#] gives the empty string when there is no active view, and
    also when it is neither [@scope] nor [@scope_inverted]. *)
Theorem unknown_symbol_gives_empty (api : Api) (region : Region) (color_code : string) :
  startswith "#" color_code = false ->
  active_view api = None
  \/ (color_code <> "@scope" /\ color_code <> "@scope_inverted") ->
  color_code_to_rgba api color_code region = Ok "".
Proof.
  intros Hs H. unfold color_code_to_rgba, simple_decorator, color_code_to_rgba_body.
  destruct (truthy color_code); cbn [negb]; [|reflexivity].
  rewrite Hs. cbn [negb].
  destruct (active_view api) as [view|]; [|reflexivity].
  destruct H as [H | [H1 H2]]; [discriminate|].
  apply String.eqb_neq in H1, H2. rewrite H1, H2. reflexivity.
Qed.

Lemma unknown_symbol_gives_empty_witness :
  color_code_to_rgba no_view "@scope" some_region = Ok ""
  /\ color_code_to_rgba (themed "#102030") "red" some_region = Ok "".
Proof.
  split.
  - apply (unknown_symbol_gives_empty no_view some_region "@scope");
      [reflexivity | left; reflexivity].
  - apply (unknown_symbol_gives_empty (themed "#102030") some_region "red");
      [reflexivity | right; split; discriminate].
Defined.

(** X7. For [@scope], when the theme's foreground colour is [#] followed by
    3, 6 or 8 hexadecimal digits, the result is that colour in canonical
    form. *)
Theorem scope_gives_theme_colour (api : Api) (view : View) (region : Region)
  (h : string) :
  active_view api = Some view ->
  dict_get (style_for_scope view (scope_name view (region_end region - 1)))
           "foreground" "" = "#" ++ h ->
  all_hex h = true ->
  (String.length h = 3 \/ String.length h = 6 \/ String.length h = 8)%nat ->
  color_code_to_rgba api "@scope" region = Ok (canonical_of h).
Proof.
  intros Hv Hc Hh Hl.
  unfold color_code_to_rgba, simple_decorator, color_code_to_rgba_body.
  change (truthy "@scope") with true.
  change (startswith "#" "@scope") with false.
  change (String.eqb "@scope" "@scope") with true.
  cbn [negb]. rewrite Hv, Hc. cbn [bind]. apply add_alpha_hex; assumption.
Qed.

Lemma scope_gives_theme_colour_witness :
  color_code_to_rgba (themed "#F80") "@scope" some_region = Ok "#ff8800ff".
Proof.
  apply (scope_gives_theme_colour (themed "#F80") (themed_view "#F80") some_region "F80");
    try reflexivity. left. reflexivity.
Defined.

(** X8. When the style of the scope has no foreground entry, [@scope] gives
    the empty string, while [@scope_inverted] gives [#ffffff0f]: the
    appended [ff] is read as the single digit [f]. *)
Theorem missing_foreground (api : Api) (view : View) (region : Region) :
  active_view api = Some view ->
  dict_get (style_for_scope view (scope_name view (region_end region - 1)))
           "foreground" "" = "" ->
  color_code_to_rgba api "@scope" region = Ok ""
  /\ color_code_to_rgba api "@scope_inverted" region = Ok "#ffffff0f".
Proof.
  intros Hv Hc.
  unfold color_code_to_rgba, simple_decorator, color_code_to_rgba_body.
  change (truthy "@scope") with true.
  change (startswith "#" "@scope") with false.
  change (truthy "@scope_inverted") with true.
  change (startswith "#" "@scope_inverted") with false.
  change (String.eqb "@scope" "@scope") with true.
  change (String.eqb "@scope_inverted" "@scope") with false.
  change (String.eqb "@scope_inverted" "@scope_inverted") with true.
  cbn [negb]. rewrite Hv, Hc. split; reflexivity.
Qed.

(** A theme that styles nothing. *)
Definition bare_view : View :=
  {| scope_name := fun _ => "text.plain"; style_for_scope := fun _ => [] |}.

Lemma missing_foreground_witness :
  color_code_to_rgba {| active_view := Some bare_view |} "@scope" some_region = Ok ""
  /\ color_code_to_rgba {| active_view := Some bare_view |} "@scope_inverted"
       some_region = Ok "#ffffff0f".
Proof.
  apply (missing_foreground {| active_view := Some bare_view |} bare_view some_region);
    reflexivity.
Defined.

End CodecLaws.

(* ================================================================== *)
(** * Inverting twice *)

Module InvertedLaws.

Import Py Sublime Image PyFacts HexFacts Codec Inverted.

Lemma hexchar_is_hex d : 0 <= d < 16 -> is_hex (hexchar d) = true.
Proof.
  intros Hd.
  assert (d = 0 \/ d = 1 \/ d = 2 \/ d = 3 \/ d = 4 \/ d = 5 \/ d = 6 \/ d = 7
          \/ d = 8 \/ d = 9 \/ d = 10 \/ d = 11 \/ d = 12 \/ d = 13 \/ d = 14
          \/ d = 15) as Hc by lia.
  repeat (destruct Hc as [-> | Hc]; [reflexivity|]). subst d. reflexivity.
Qed.

Lemma hexval_hexchar d : 0 <= d < 16 -> hexval (hexchar d) = d.
Proof.
  intros Hd.
  assert (d = 0 \/ d = 1 \/ d = 2 \/ d = 3 \/ d = 4 \/ d = 5 \/ d = 6 \/ d = 7
          \/ d = 8 \/ d = 9 \/ d = 10 \/ d = 11 \/ d = 12 \/ d = 13 \/ d = 14
          \/ d = 15) as Hc by lia.
  repeat (destruct Hc as [-> | Hc]; [reflexivity|]). subst d. reflexivity.
Qed.

(** The two digits that print a byte. *)
Definition hi_digit (x : Z) : ascii := hexchar (x / 16 mod 16).
Definition lo_digit (x : Z) : ascii := hexchar (x mod 16).

Lemma hex_byte_digits x : hex_byte x = String (hi_digit x) (String (lo_digit x) "").
Proof. reflexivity. Qed.

Lemma digits_are_hex x : is_hex (hi_digit x) = true /\ is_hex (lo_digit x) = true.
Proof. split; apply hexchar_is_hex, Z.mod_pos_bound; lia. Qed.

(** Reading back the two digits of a byte gives the byte. *)
Lemma byte_of_digits x : 0 <= x < 256 -> byte_of (hi_digit x) (lo_digit x) = x.
Proof.
  intros Hx. unfold byte_of, hi_digit, lo_digit.
  rewrite !hexval_hexchar by (apply Z.mod_pos_bound; lia).
  pose proof (Z.div_mod x 16 ltac:(lia)).
  pose proof (Z.mod_pos_bound x 16 ltac:(lia)).
  assert (0 <= x / 16 < 16).
  { split; [apply Z.div_pos; lia | apply Z.div_lt_upper_bound; lia]. }
  rewrite (Z.mod_small (x / 16) 16) by lia. lia.
Qed.

Lemma hex_byte_of a b :
  is_hex a = true -> is_hex b = true ->
  hex_byte (byte_of a b) = String (lower_char a) (String (lower_char b) "").
Proof.
  intros Ha Hb. rewrite hex_byte_digits. unfold hi_digit, lo_digit, byte_of.
  pose proof (hexval_range a). pose proof (hexval_range b).
  replace ((hexval a * 16 + hexval b) / 16) with (hexval a)
    by (apply Z.div_unique with (hexval b); lia).
  replace ((hexval a * 16 + hexval b) mod 16) with (hexval b)
    by (apply Z.mod_unique with (hexval a); lia).
  rewrite (Z.mod_small (hexval a) 16) by lia.
  rewrite !hexchar_hexval by assumption. reflexivity.
Qed.

Lemma complement_range x : 0 <= x < 256 -> 0 <= complement x < 256.
Proof. intros H. rewrite complement_byte by exact H. lia. Qed.

Lemma complement_involutive x : 0 <= x < 256 -> complement (complement x) = x.
Proof.
  intros H. rewrite (complement_byte (complement x)) by (apply complement_range, H).
  rewrite complement_byte by exact H. lia.
Qed.

(** What [@scope_inverted] returns for a theme colour with an alpha part. *)
Lemma scope_inverted_rgba api view region r1 r2 g1 g2 b1 b2 a1 a2 :
  active_view api = Some view ->
  dict_get (style_for_scope view (scope_name view (region_end region - 1)))
           "foreground" ""
  = String "#" (String r1 (String r2 (String g1 (String g2
      (String b1 (String b2 (String a1 (String a2 "")))))))) ->
  all_hex (String r1 (String r2 (String g1 (String g2
      (String b1 (String b2 (String a1 (String a2 "")))))))) = true ->
  color_code_to_rgba api "@scope_inverted" region
  = Ok ("#" ++ hex_byte (complement (byte_of r1 r2))
            ++ hex_byte (complement (byte_of g1 g2))
            ++ hex_byte (complement (byte_of b1 b2))
            ++ hex_byte (byte_of a1 a2)).
Proof.
  intros Hview Hcolor Hhex.
  unfold color_code_to_rgba, simple_decorator, color_code_to_rgba_body.
  cbv beta iota.
  change (truthy "@scope_inverted") with true.
  change (startswith "#" "@scope_inverted") with false.
  change (String.eqb "@scope_inverted" "@scope") with false.
  change (String.eqb "@scope_inverted" "@scope_inverted") with true.
  cbn [negb]. rewrite Hview, Hcolor.
  cbn [slice substring append Nat.sub].
  rewrite int16_hex by exact Hhex. cbn [bind].
  rewrite inverted_text by exact Hhex.
  apply add_alpha_canonical.
  cbn [is_canonical append].
  rewrite !length_app, !hex_byte_length, !all_lower_hex_app, !hex_byte_lower.
  reflexivity.
Qed.

Ltac fold_digits :=
  repeat match goal with
         | |- context [hexchar (?x / 16 mod 16)] => fold (hi_digit x)
         | |- context [hexchar (?x mod 16)] => fold (lo_digit x)
         end.

(** X9. Inverting twice gives the colour back. If the theme's foreground
    is [#RRGGBBAA] and a second theme has as its foreground what
    [@scope_inverted] returns under the first, then [@scope_inverted] under
    the second returns the first colour in lower case. *)
Theorem inverting_twice (api api' : Api) (view view' : View) (region region' : Region)
  (h once : string) :
  active_view api = Some view ->
  dict_get (style_for_scope view (scope_name view (region_end region - 1)))
           "foreground" "" = "#" ++ h ->
  all_hex h = true -> String.length h = 8%nat ->
  color_code_to_rgba api "@scope_inverted" region = Ok once ->
  active_view api' = Some view' ->
  dict_get (style_for_scope view' (scope_name view' (region_end region' - 1)))
           "foreground" "" = once ->
  color_code_to_rgba api' "@scope_inverted" region' = Ok ("#" ++ lower h).
Proof.
  intros Hv Hc Hh Hl Honce Hv' Hc'.
  destruct h as [|r1 [|r2 [|g1 [|g2 [|b1 [|b2 [|a1 [|a2 [|x t]]]]]]]]];
    try discriminate Hl.
  rewrite (scope_inverted_rgba api view region r1 r2 g1 g2 b1 b2 a1 a2 Hv Hc Hh)
    in Honce.
  inversion Honce as [E]. clear Honce.
  pose proof Hh as Hh'. cbn [all_hex] in Hh'. repeat rewrite andb_true_iff in Hh'.
  destruct Hh' as (H1 & H2 & H3 & H4 & H5 & H6 & H7 & H8 & _).
  pose proof (byte_of_range r1 r2) as HR. pose proof (byte_of_range g1 g2) as HG.
  pose proof (byte_of_range b1 b2) as HB. pose proof (byte_of_range a1 a2) as HA.
  set (R := complement (byte_of r1 r2)) in *.
  set (G := complement (byte_of g1 g2)) in *.
  set (B := complement (byte_of b1 b2)) in *.
  set (A := byte_of a1 a2) in *.
  rewrite !hex_byte_digits in E. cbn [append] in E.
  rewrite <- E in Hc'.
  assert (Hhex' : all_hex (String (hi_digit R) (String (lo_digit R)
            (String (hi_digit G) (String (lo_digit G) (String (hi_digit B)
            (String (lo_digit B) (String (hi_digit A) (String (lo_digit A) ""))))))))
          = true).
  { cbn [all_hex].
    destruct (digits_are_hex R) as [-> ->]. destruct (digits_are_hex G) as [-> ->].
    destruct (digits_are_hex B) as [-> ->]. destruct (digits_are_hex A) as [-> ->].
    reflexivity. }
  rewrite (scope_inverted_rgba api' view' region' _ _ _ _ _ _ _ _ Hv' Hc' Hhex').
  subst R G B A. fold_digits.
  rewrite !byte_of_digits by (try apply complement_range; assumption).
  rewrite !complement_involutive by assumption.
  rewrite !hex_byte_of by assumption. reflexivity.
Qed.

Lemma inverting_twice_witness :
  color_code_to_rgba (themed "#efdf3fa5") "@scope_inverted" some_region
  = Ok "#1020c0a5".
Proof.
  apply (inverting_twice (themed "#1020C0a5") (themed "#efdf3fa5")
           (themed_view "#1020C0a5") (themed_view "#efdf3fa5")
           some_region some_region "1020C0a5" "#efdf3fa5"); reflexivity.
Defined.

End InvertedLaws.

(* ================================================================== *)
(** * More on recolouring *)

Module RecolorLaws.

Import Py Image PyFacts HexFacts Inverted Recolor.

Definition LF : string := String "010" "".

Lemma at_dollar_spec s : at_dollar s = true -> s = "" \/ s = LF.
Proof.
  destruct s as [|c [|d t]]; simpl; intros H; try discriminate.
  - left. reflexivity.
  - right. apply Ascii.eqb_eq in H. subst c. reflexivity.
Qed.

Lemma hex_exactly_spec n : forall s,
  hex_exactly n s = true ->
  exists h, String.length h = n /\ all_hex h = true /\ (s = h \/ s = h ++ LF).
Proof.
  induction n as [|n IH]; intros s H; cbn [hex_exactly] in H.
  - exists "". repeat split. apply at_dollar_spec, H.
  - destruct s as [|c t]; [discriminate|].
    apply andb_true_iff in H as [Hc Ht].
    destruct (IH t Ht) as (h & Hl & Hh & Hs).
    exists (String c h). cbn [String.length all_hex append]. rewrite Hc, Hh, Hl.
    repeat split. destruct Hs as [-> | ->]; [left | right]; reflexivity.
Qed.

(** The pattern of line 75 accepts [#] and eight hexadecimal digits, with
    or without one line feed at the end, and nothing else. *)
Lemma match_rgba_code_spec s :
  match_rgba_code s = true ->
  exists h, String.length h = 8%nat /\ all_hex h = true
            /\ (s = "#" ++ h \/ s = "#" ++ h ++ LF).
Proof.
  unfold match_rgba_code. destruct s as [|c t]; [discriminate|].
  destruct (Ascii.eqb c "#") eqn:Ec.
  - apply Ascii.eqb_eq in Ec. subst c. intros H.
    destruct (hex_exactly_spec 8 t H) as (h & Hl & Hh & Hs).
    exists h. repeat split; try assumption.
    destruct Hs as [-> | ->]; [left | right]; reflexivity.
  - intros H. exfalso. revert H Ec. clear. each_char c.
Qed.

Lemma mapM_ok {A B : Type} (f : A -> result B) (g : A -> B) l :
  (forall x, In x l -> f x = Ok (g x)) -> mapM f l = Ok (map g l).
Proof.
  induction l as [|x t IH]; intros H; [reflexivity|].
  cbn [mapM map]. rewrite (H x (or_introl eq_refl)). cbn [bind].
  rewrite IH by (intros y Hy; apply H; right; exact Hy). reflexivity.
Qed.

(** A traversal whose steps can only raise [TypeError] raises it as soon
    as one step does. *)
Lemma mapM_type_error {A B : Type} (f : A -> result B) l :
  (forall x e, f x = Raise e -> e = TypeError) ->
  Exists (fun x => f x = Raise TypeError) l ->
  mapM f l = Raise TypeError.
Proof.
  intros Honly H. induction l as [|x t IH]; [inversion H|].
  cbn [mapM]. destruct (f x) as [y|e] eqn:Hx.
  - cbn [bind]. inversion H as [? ? Hbad | ? ? Hrest]; subst.
    + rewrite Hbad in Hx. discriminate.
    + rewrite (IH Hrest). reflexivity.
  - rewrite (Honly x e Hx). reflexivity.
Qed.

Lemma calculate_gray_only_type_error g e : calculate_gray g = Raise e -> e = TypeError.
Proof.
  destruct g as [[[[r|] [gg|]] [b|]] a]; cbn; intros H; inversion H; reflexivity.
Qed.

Lemma render_pixel_only_type_error g t inv e :
  render_pixel g t inv = Raise e -> e = TypeError.
Proof.
  destruct t as [[[d0 d1] d2] d3].
  destruct g as [[[[r|] [gg|]] [b|]] [a|]]; cbn; intros H; inversion H; reflexivity.
Qed.

Lemma mapM_only_type_error {A B : Type} (f : A -> result B) l e :
  (forall x e, f x = Raise e -> e = TypeError) ->
  mapM f l = Raise e -> e = TypeError.
Proof.
  intros Honly. induction l as [|x t IH]; [discriminate|].
  cbn [mapM]. destruct (f x) as [y|e1] eqn:Hx; cbn [bind].
  - destruct (mapM f t) as [ys|e2]; cbn [bind]; [discriminate|].
    intros H. inversion H. subst. apply IH. reflexivity.
  - intros H. inversion H. subst. apply (Honly x e Hx).
Qed.

Lemma render_row_only_type_error t inv row e :
  render_row t inv row = Raise e -> e = TypeError.
Proof.
  unfold render_row.
  destruct (mapM (fun rgba_src => render_pixel rgba_src t inv) (grouper row))
    as [px|e1] eqn:Hm; cbn [bind]; [discriminate|].
  intros H. inversion H. subst.
  apply (mapM_only_type_error _ _ _ (fun x e => render_pixel_only_type_error x t inv e) Hm).
Qed.

(** A row that does not end on a whole pixel cannot be rendered. *)
Lemma render_row_ragged t inv : forall n row,
  (List.length row <= n)%nat ->
  (List.length row mod 4 <> 0)%nat ->
  render_row t inv row = Raise TypeError.
Proof.
  destruct t as [[[d0 d1] d2] d3].
  induction n as [|n IH]; intros row Hn Hm.
  - destruct row; [contradiction Hm; reflexivity | simpl in Hn; lia].
  - destruct row as [|r [|g [|b [|a rest]]]].
    + contradiction Hm. reflexivity.
    + reflexivity.
    + reflexivity.
    + reflexivity.
    + assert (Hrest : render_row (d0, d1, d2, d3) inv rest = Raise TypeError).
      { apply IH; [simpl in Hn; lia|].
        intros E. apply Hm. cbn [List.length].
        replace (S (S (S (S (List.length rest))))) with (List.length rest + 1 * 4)%nat by lia.
        rewrite Nat.Div0.mod_add. exact E. }
      unfold render_row in *. cbn [grouper mapM].
      destruct (mapM (fun rgba_src => render_pixel rgba_src (d0, d1, d2, d3) inv)
                     (grouper rest)) as [px|e]; cbn [bind] in Hrest; [discriminate|].
      inversion Hrest. subst e.
      destruct inv; reflexivity.
Qed.

Lemma fold_add_le (l : list Z) (bound : Z) : forall acc,
  Forall (fun x => 0 <= x <= bound) l ->
  acc <= fold_left Z.add l acc <= acc + bound * Z.of_nat (List.length l).
Proof.
  induction l as [|x t IH]; intros acc H; cbn [fold_left List.length].
  - lia.
  - inversion H as [|? ? Hx Ht]; subst. specialize (IH (acc + x) Ht). lia.
Qed.

Lemma shiftr7_threshold s n : (Z.shiftr s 7 >? n) = (128 * (n + 1) <=? s).
Proof.
  rewrite Z.shiftr_div_pow2 by lia. change (2 ^ 7) with 128.
  pose proof (Z.div_mod s 128 ltac:(lia)).
  pose proof (Z.mod_pos_bound s 128 ltac:(lia)).
  rewrite Z.gtb_ltb.
  destruct (Z.ltb_spec n (s / 128)), (Z.leb_spec (128 * (n + 1)) s);
    try reflexivity; lia.
Qed.

(** The 8-bit channels. *)
Definition byte (x : Z) : Prop := 0 <= x <= 255.

Definition byte_pixel (p : pixel) : Prop :=
  let '(r, g, b, a) := p in byte r /\ byte g /\ byte b /\ byte a.

Lemma gray_of_byte p : byte_pixel p -> 0 <= gray_of p <= 255.
Proof.
  destruct p as [[[r g] b] a]. unfold byte_pixel, byte, gray_of.
  intros (Hr & Hg & Hb & _). rewrite Z.shiftr_div_pow2 by lia.
  change (2 ^ 7) with 128. split.
  - apply Z.div_pos; lia.
  - apply Z.div_le_upper_bound; lia.
Qed.

Lemma shiftr8_below d g :
  0 <= d <= 255 -> 0 <= g <= 255 -> 0 <= Z.shiftr (d * g) 8 <= 254.
Proof.
  intros Hd Hg. rewrite Z.shiftr_div_pow2 by lia. change (2 ^ 8) with 256.
  assert (0 <= d * g <= 255 * 255) by nia. split.
  - apply Z.div_pos; lia.
  - assert (d * g / 256 < 255); [apply Z.div_lt_upper_bound; lia | lia].
Qed.

Lemma recolor_pixel_below t dark p :
  byte_pixel t -> byte_pixel p ->
  Forall (fun x => 0 <= x <= 254) (flat (recolor_pixel t dark p)).
Proof.
  intros Ht Hp. pose proof (gray_of_byte p Hp) as Hg.
  destruct t as [[[tR tG] tB] tA]. destruct p as [[[r g] b] a].
  destruct Ht as (H1 & H2 & H3 & H4). destruct Hp as (_ & _ & _ & Ha).
  unfold byte in *.
  unfold recolor_pixel.
  set (gw := if dark then 255 - gray_of (r, g, b, a) else gray_of (r, g, b, a)).
  assert (0 <= gw <= 255) by (subst gw; destruct dark; lia).
  cbn [flat]. repeat constructor; apply shiftr8_below; assumption.
Qed.


(** X10. A non-empty colour code that is not [#] followed by exactly eight
    hexadecimal digits (with or without one final line feed) makes
    [change_png_bytes_color] raise [ValueError] naming the code, before the
    image is looked at: the image need not even decode. *)
Theorem invalid_code_raises (bytes : Type)
  (png_asRGBA : bytes -> result (Z * Z * list (list Z)))
  (png_write : list (list Z) -> result bytes) (img : bytes) (rgba_code : string) :
  rgba_code <> "" ->
  (forall h, all_hex h = true -> String.length h = 8%nat ->
             rgba_code <> "#" ++ h /\ rgba_code <> "#" ++ h ++ LF) ->
  change_png_bytes_color bytes png_asRGBA png_write img rgba_code
  = Raise (ValueError ("Invalid RGBA color code: " ++ rgba_code)).
Proof.
  intros Hne Hno. unfold Image.change_png_bytes_color.
  destruct rgba_code as [|c t]; [contradiction Hne; reflexivity|].
  cbn [truthy negb].
  destruct (match_rgba_code (String c t)) eqn:Hm; [|reflexivity].
  destruct (match_rgba_code_spec _ Hm) as (h & Hl & Hh & Hs).
  destruct (Hno h Hh Hl) as [N1 N2]. destruct Hs; contradiction.
Qed.

Lemma invalid_code_raises_witness :
  change_png_bytes_color raw_image raw_asRGBA raw_write white_pixel "#12345"
  = Raise (ValueError "Invalid RGBA color code: #12345").
Proof.
  apply (invalid_code_raises raw_image raw_asRGBA raw_write white_pixel "#12345").
  - discriminate.
  - intros h _ Hl. split; intros E; injection E as E;
      apply (f_equal String.length) in E; rewrite ?length_app in E;
      simpl in E; lia.
Defined.

(** X11. A line feed after the eight digits passes the check of the colour
    code and changes nothing: the image is recoloured as for the code
    without it. *)
Theorem trailing_line_feed_accepted (bytes : Type)
  (png_asRGBA : bytes -> result (Z * Z * list (list Z)))
  (png_write : list (list Z) -> result bytes) (img : bytes)
  (c1 c2 c3 c4 c5 c6 c7 c8 : ascii) :
  all_hex (String c1 (String c2 (String c3 (String c4
          (String c5 (String c6 (String c7 (String c8 "")))))))) = true ->
  change_png_bytes_color bytes png_asRGBA png_write img
    (String "#" (String c1 (String c2 (String c3 (String c4
       (String c5 (String c6 (String c7 (String c8 LF)))))))))
  = change_png_bytes_color bytes png_asRGBA png_write img
      (String "#" (String c1 (String c2 (String c3 (String c4
         (String c5 (String c6 (String c7 (String c8 ""))))))))).
Proof.
  intros Hh. cbn [all_hex] in Hh. repeat rewrite andb_true_iff in Hh.
  destruct Hh as (H1 & H2 & H3 & H4 & H5 & H6 & H7 & H8 & _).
  unfold Image.change_png_bytes_color, LF.
  cbn [truthy negb match_rgba_code hex_exactly at_dollar].
  rewrite H1, H2, H3, H4, H5, H6, H7, H8. reflexivity.
Qed.

Lemma trailing_line_feed_accepted_witness :
  change_png_bytes_color raw_image raw_asRGBA raw_write two_pixels ("#ff000080" ++ LF)
  = change_png_bytes_color raw_image raw_asRGBA raw_write two_pixels "#ff000080".
Proof.
  apply (trailing_line_feed_accepted raw_image raw_asRGBA raw_write two_pixels
           "f" "f" "0" "0" "0" "0" "8" "0"). reflexivity.
Defined.

(** X12. If a decoded row does not consist of whole pixels (its length is
    not a multiple of four), [change_png_bytes_color] raises [TypeError]:
    [grouper] fills the last group with [None], and arithmetic on it
    fails. *)
Theorem ragged_row_raises (bytes : Type)
  (png_asRGBA : bytes -> result (Z * Z * list (list Z)))
  (png_write : list (list Z) -> result bytes) (img : bytes)
  (w h : Z) (rows : list (list Z)) (row : list Z)
  (c1 c2 c3 c4 c5 c6 c7 c8 : ascii) :
  png_asRGBA img = Ok (w, h, rows) ->
  In row rows -> (List.length row mod 4 <> 0)%nat ->
  all_hex (String c1 (String c2 (String c3 (String c4
          (String c5 (String c6 (String c7 (String c8 "")))))))) = true ->
  change_png_bytes_color bytes png_asRGBA png_write img
    (String "#" (String c1 (String c2 (String c3 (String c4
       (String c5 (String c6 (String c7 (String c8 "")))))))))
  = Raise TypeError.
Proof.
  intros Himg Hin Hrag Hhex.
  pose proof Hhex as Hh. cbn [all_hex] in Hh. repeat rewrite andb_true_iff in Hh.
  destruct Hh as (H1 & H2 & H3 & H4 & H5 & H6 & H7 & H8 & _).
  unfold Image.change_png_bytes_color.
  cbn [truthy negb match_rgba_code hex_exactly at_dollar].
  rewrite H1, H2, H3, H4, H5, H6, H7, H8. cbn [andb negb].
  unfold Image.is_img_light. rewrite Himg. cbn [bind].
  destruct (mapM calculate_gray (flat_map grouper rows)) as [grays|e] eqn:Hg.
  2:{ cbn [bind].
      rewrite (mapM_only_type_error _ _ _ calculate_gray_only_type_error Hg).
      reflexivity. }
  cbn [bind]. cbn [slice substring Nat.sub].
  rewrite !int16_pair by assumption. cbn [bind].
  rewrite mapM_type_error; [reflexivity | |].
  - intros x e. apply render_row_only_type_error.
  - apply Exists_exists. exists row. split; [exact Hin|].
    apply (render_row_ragged _ _ (List.length row)); [lia | exact Hrag].
Qed.

(** One whole pixel and three values of a second one. *)
Definition ragged : raw_image := (2, 1, [[9; 9; 9; 255; 1; 2; 3]]).

Lemma ragged_row_raises_witness :
  change_png_bytes_color raw_image raw_asRGBA raw_write ragged "#ff000080"
  = Raise TypeError.
Proof.
  apply (ragged_row_raises raw_image raw_asRGBA raw_write ragged 2 1
           [[9; 9; 9; 255; 1; 2; 3]] [9; 9; 9; 255; 1; 2; 3]
           "f" "f" "0" "0" "0" "0" "8" "0").
  - reflexivity.
  - left. reflexivity.
  - discriminate.
  - reflexivity.
Defined.

(** X13. The lightness test as a threshold: a decoded image is light
    exactly when the sum of its pixels' gray values is at least
    128 * (width * height + 1). *)
Theorem light_iff_gray_sum_reaches_threshold (bytes : Type)
  (png_asRGBA : bytes -> result (Z * Z * list (list Z)))
  (img : bytes) (w h : Z) (grid : list (list pixel)) :
  png_asRGBA img = Ok (w, h, map flat_row grid) ->
  is_img_light bytes png_asRGBA img
  = Ok (128 * (w * h + 1) <=? fold_left Z.add (map gray_of (List.concat grid)) 0).
Proof.
  intros H. rewrite (is_img_light_grid bytes png_asRGBA img w h grid H).
  unfold classified_light. rewrite shiftr7_threshold. reflexivity.
Qed.

(** Two white pixels: the gray sum 510 reaches 128 * 3. *)
Definition two_white : raw_image := (2, 1, [[255; 255; 255; 255; 255; 255; 255; 255]]).

Lemma light_iff_gray_sum_reaches_threshold_witness :
  is_img_light raw_image raw_asRGBA two_white = Ok true
  /\ is_img_light raw_image raw_asRGBA two_pixels = Ok false.
Proof.
  split.
  - apply (light_iff_gray_sum_reaches_threshold raw_image raw_asRGBA two_white 2 1
             [[(255, 255, 255, 255); (255, 255, 255, 255)]]). reflexivity.
  - apply (light_iff_gray_sum_reaches_threshold raw_image raw_asRGBA two_pixels 2 1
             [[(255, 255, 255, 255); (0, 0, 0, 128)]]). reflexivity.
Defined.

(** X14. An image of one pixel with 8-bit channels is never light, whatever
    its colour: its gray value is at most 255, below the threshold 256. *)
Theorem single_pixel_is_dark (bytes : Type)
  (png_asRGBA : bytes -> result (Z * Z * list (list Z)))
  (img : bytes) (r g b a : Z) :
  png_asRGBA img = Ok (1, 1, [[r; g; b; a]]) ->
  byte r -> byte g -> byte b ->
  is_img_light bytes png_asRGBA img = Ok false.
Proof.
  intros Himg Hr Hg Hb.
  rewrite (is_img_light_grid bytes png_asRGBA img 1 1 [[(r, g, b, a)]] Himg).
  unfold classified_light. rewrite shiftr7_threshold.
  cbn [List.concat map app fold_left].
  assert (Hgray : 0 <= gray_of (r, g, b, a) <= 255).
  { unfold byte in *. unfold gray_of. rewrite Z.shiftr_div_pow2 by lia.
    change (2 ^ 7) with 128. split;
      [apply Z.div_pos; lia | apply Z.div_le_upper_bound; lia]. }
  f_equal. apply Z.leb_gt. lia.
Qed.

Lemma single_pixel_is_dark_witness :
  is_img_light raw_image raw_asRGBA (1, 1, [[250; 240; 10; 0]]) = Ok false.
Proof.
  apply (single_pixel_is_dark raw_image raw_asRGBA (1, 1, [[250; 240; 10; 0]])
           250 240 10 0); unfold byte; try reflexivity; lia.
Defined.

Lemma flat_row_length row : List.length (flat_row row) = (4 * List.length row)%nat.
Proof.
  unfold flat_row. induction row as [|[[[r g] b] a] t IH]; [reflexivity|].
  cbn [flat_map flat app List.length]. rewrite IH. lia.
Qed.

Lemma recolor_row_below t dark row :
  byte_pixel t -> Forall byte_pixel row ->
  Forall (fun x => 0 <= x <= 254) (flat_row (map (recolor_pixel t dark) row)).
Proof.
  intros Ht H. unfold flat_row. induction H as [|p r Hp Hr IH]; [constructor|].
  cbn [map flat_map]. apply Forall_app. split; [|exact IH].
  apply recolor_pixel_below; assumption.
Qed.

(** X15. For an image with 8-bit channels, the grid handed to the encoder
    has the shape of the source (as many rows, each as long as before) and
    every value in it lies between 0 and 254: no channel of a recoloured
    image is ever at full intensity. *)
Theorem recoloured_grid_in_range (bytes : Type)
  (png_asRGBA : bytes -> result (Z * Z * list (list Z)))
  (png_write : list (list Z) -> result bytes)
  (img : bytes) (w h : Z) (grid : list (list pixel))
  (c1 c2 c3 c4 c5 c6 c7 c8 : ascii) :
  png_asRGBA img = Ok (w, h, map flat_row grid) ->
  Forall (Forall byte_pixel) grid ->
  all_hex (String c1 (String c2 (String c3 (String c4
          (String c5 (String c6 (String c7 (String c8 "")))))))) = true ->
  exists rows_dst,
    change_png_bytes_color bytes png_asRGBA png_write img
      (String "#" (String c1 (String c2 (String c3 (String c4
         (String c5 (String c6 (String c7 (String c8 "")))))))))
    = png_write rows_dst
    /\ map (@List.length Z) rows_dst = map (@List.length Z) (map flat_row grid)
    /\ Forall (Forall (fun x => 0 <= x <= 254)) rows_dst.
Proof.
  intros Himg Hbytes Hhex.
  eexists. split; [apply change_png_bytes_color_grid; eassumption|].
  assert (Ht : byte_pixel (byte_of c1 c2, byte_of c3 c4, byte_of c5 c6, byte_of c7 c8)).
  { pose proof (byte_of_range c1 c2). pose proof (byte_of_range c3 c4).
    pose proof (byte_of_range c5 c6). pose proof (byte_of_range c7 c8).
    unfold byte_pixel, byte. lia. }
  unfold recolor_grid. split.
  - rewrite !map_map. apply map_ext. intros row.
    rewrite !flat_row_length, length_map. reflexivity.
  - apply Forall_map. eapply Forall_impl; [|exact Hbytes].
    intros row Hrow. apply recolor_row_below; assumption.
Qed.

Lemma recoloured_grid_in_range_witness :
  exists rows_dst,
    change_png_bytes_color raw_image raw_asRGBA raw_write two_white "#ffffffff"
    = raw_write rows_dst
    /\ map (@List.length Z) rows_dst = [8%nat]
    /\ Forall (Forall (fun x => 0 <= x <= 254)) rows_dst.
Proof.
  apply (recoloured_grid_in_range raw_image raw_asRGBA raw_write two_white 2 1
           [[(255, 255, 255, 255); (255, 255, 255, 255)]]
           "f" "f" "f" "f" "f" "f" "f" "f"); try reflexivity.
  repeat constructor; unfold byte; lia.
Defined.

End RecolorLaws.

(* ================================================================== *)
(** * More on region drawing and the scheduler *)

From Stdlib Require Import Permutation.

Module DrawingLaws.

Import Sublime Host Helpers RegionDrawing.

Definition flag_value (attr : string -> option Z) (flag : string) : Z :=
  match attr flag with Some n => n | None => 0 end.

Lemma fold_lxor_acc (l : list Z) : forall acc,
  fold_left Z.lxor l acc = Z.lxor acc (fold_left Z.lxor l 0).
Proof.
  induction l as [|x t IH]; intros acc; cbn [fold_left].
  - rewrite Z.lxor_0_r. reflexivity.
  - rewrite (IH (Z.lxor acc x)), (IH (Z.lxor 0 x)), Z.lxor_0_l, Z.lxor_assoc.
    reflexivity.
Qed.

Lemma fold_lxor_perm (l l' : list Z) :
  Permutation l l' -> forall acc, fold_left Z.lxor l acc = fold_left Z.lxor l' acc.
Proof.
  induction 1 as [|x l l' _ IH|x y l|l l' l'' _ IH1 _ IH2]; intros acc;
    cbn [fold_left].
  - reflexivity.
  - apply IH.
  - f_equal. rewrite !Z.lxor_assoc. f_equal. apply Z.lxor_comm.
  - rewrite IH1. apply IH2.
Qed.

(** X16. The flags of [draw_uri_regions] given as names do not depend on
    the order of the names. *)
Theorem flag_order_is_irrelevant (attr : string -> option Z) (names names' : list string) :
  Permutation names names' ->
  parse_draw_region_flags attr (FlagsNames names)
  = parse_draw_region_flags attr (FlagsNames names').
Proof.
  intros H. unfold parse_draw_region_flags.
  apply fold_lxor_perm. apply Permutation_map. exact H.
Qed.

Definition some_flags (name : string) : option Z :=
  if String.eqb name "DRAW_NO_FILL" then Some 32
  else if String.eqb name "DRAW_NO_OUTLINE" then Some 256
  else None.

Lemma flag_order_is_irrelevant_witness :
  parse_draw_region_flags some_flags (FlagsNames ["DRAW_NO_FILL"; "DRAW_NO_OUTLINE"])
  = parse_draw_region_flags some_flags (FlagsNames ["DRAW_NO_OUTLINE"; "DRAW_NO_FILL"]).
Proof.
  apply (flag_order_is_irrelevant some_flags). apply perm_swap.
Defined.

(** X17. The names are combined with exclusive or: a name given twice
    counts as not given at all, and a name that [sublime] does not define
    counts for nothing. *)
Theorem flag_twice_cancels (attr : string -> option Z) (flag : string)
  (names : list string) :
  parse_draw_region_flags attr (FlagsNames (flag :: flag :: names))
  = parse_draw_region_flags attr (FlagsNames names)
  /\ (attr flag = None ->
      parse_draw_region_flags attr (FlagsNames (flag :: names))
      = parse_draw_region_flags attr (FlagsNames names)).
Proof.
  unfold parse_draw_region_flags. cbn [map fold_left]. split.
  - rewrite Z.lxor_0_l, Z.lxor_nilpotent. reflexivity.
  - intros H. rewrite H, Z.lxor_0_l. reflexivity.
Qed.

Lemma flag_twice_cancels_witness :
  parse_draw_region_flags some_flags
    (FlagsNames ["DRAW_NO_FILL"; "DRAW_NO_FILL"; "DRAW_NO_OUTLINE"]) = 256
  /\ parse_draw_region_flags some_flags (FlagsNames ["NO_SUCH_FLAG"; "DRAW_NO_FILL"]) = 32.
Proof.
  destruct (flag_twice_cancels some_flags "DRAW_NO_FILL" ["DRAW_NO_OUTLINE"]) as [H1 _].
  destruct (flag_twice_cancels some_flags "NO_SUCH_FLAG" ["DRAW_NO_FILL"]) as [_ H2].
  split; [rewrite H1 | rewrite (H2 eq_refl)]; reflexivity.
Defined.

End DrawingLaws.

Module TickLaws.

Import Sublime Host Helpers RegionDrawing Renderer SchedFacts Scheduler.

(** The highlight layer that [draw_uri_regions] writes for the matches. *)
Definition highlight (w : World) (uri_regions : list Region) : RegionSet :=
  {| rs_regions := uri_regions;
     rs_scope := draw_uri_regions_scope (settings w);
     rs_icon := draw_uri_regions_icon (settings w);
     rs_flags := parse_draw_region_flags (sublime_attr w)
                   (draw_uri_regions_flags (settings w)) |}.

(** X18. A view that is eligible, within the size threshold and scans
    without failure is scanned once; each of its two layers is then
    replaced by the matches when its setting is [always] and emptied
    otherwise, whatever it held before; and its dirty flag is cleared. *)
Theorem scanned_view_is_reconciled (w : World) (v : view_id) (uri_regions : list Region) :
  eligible w v = true ->
  oversized w v = false ->
  matches (views w v) = Ok uri_regions ->
  exists w',
    _update_view v w = (Ok tt, w')
    /\ phantom_set (views w' v)
       = (if String.eqb (show_open_button (settings w) v) "always"
          then uri_regions else [])
    /\ regions (views w' v) "OUIB_uri_regions"
       = (if String.eqb (draw_uri_regions_enabled (settings w)) "always"
          then Some (highlight w uri_regions) else None)
    /\ is_dirty (views w' v) = false
    /\ calls w'
       = (calls w ++
          [ FindAll v;
            if String.eqb (show_open_button (settings w) v) "always"
            then UpdatePhantoms v uri_regions else ErasePhantoms v;
            if String.eqb (draw_uri_regions_enabled (settings w)) "always"
            then AddRegions v "OUIB_uri_regions"
            else EraseRegions v "OUIB_uri_regions" ])%list.
Proof.
  intros He Ho Hm. unfold_update_view. rewrite gates_eligible, He.
  unfold oversized in Ho. cbn [negb]. rewrite Ho.
  cbn [record views settings sublime_attr]. rewrite Hm.
  unfold highlight.
  destruct (String.eqb (show_open_button (settings w) v) "always");
    cbn [update_view set_views record views settings sublime_attr];
    destruct (String.eqb (draw_uri_regions_enabled (settings w)) "always");
    eexists; (split; [reflexivity|]);
    cbn [update_view set_views record views settings sublime_attr calls
         with_dirty with_regions with_phantoms phantom_set regions is_dirty];
    rewrite Nat.eqb_refl; cbn [phantom_set regions is_dirty String.eqb];
    rewrite <- !app_assoc; repeat split.
Qed.

(** Settings under which the icon layer is off. *)
Definition icons_off (w : World) : World :=
  {| windows := windows w; views := views w;
     settings :=
       {| work_for_transient_view := false; large_file_threshold := 1000;
          show_open_button := fun _ => "never";
          draw_uri_regions_enabled := "always";
          draw_uri_regions_scope := "string.other.link";
          draw_uri_regions_icon := "dot";
          draw_uri_regions_flags := FlagsInt 32 |};
     sublime_attr := sublime_attr w; is_rendering := is_rendering w;
     calls := calls w |}.

Lemma scanned_view_is_reconciled_witness :
  exists w',
    _update_view 2%nat (icons_off calm_desk) = (Ok tt, w')
    /\ phantom_set (views w' 2%nat) = []
    /\ regions (views w' 2%nat) "OUIB_uri_regions"
       = Some (highlight (icons_off calm_desk) [link])
    /\ is_dirty (views w' 2%nat) = false
    /\ calls w' = [FindAll 2%nat; ErasePhantoms 2%nat;
                   AddRegions 2%nat "OUIB_uri_regions"].
Proof.
  apply (scanned_view_is_reconciled (icons_off calm_desk) 2%nat [link]); reflexivity.
Defined.

(** ** Views the tick leaves alone *)

Definition quiet_for (v : view_id) (w w' : World) : Prop :=
  views w' v = views w v
  /\ exists evs, calls w' = (calls w ++ evs)%list
                 /\ Forall (fun ev => event_view ev <> v) evs.

Lemma quiet_refl v w : quiet_for v w w.
Proof.
  split; [reflexivity|]. exists []. split; [symmetry; apply app_nil_r | constructor].
Qed.

Lemma quiet_trans v w1 w2 w3 : quiet_for v w1 w2 -> quiet_for v w2 w3 -> quiet_for v w1 w3.
Proof.
  intros (A & e1 & B & C) (D & e2 & E & F). split; [congruence|].
  exists (e1 ++ e2)%list. split; [rewrite E, B, app_assoc; reflexivity|].
  apply Forall_app. split; assumption.
Qed.

Lemma touches_quiet v vs w w' : touches vs w w' -> ~ In v vs -> quiet_for v w w'.
Proof.
  intros (_ & _ & _ & _ & Hv & evs & Hc & He) Hn. split; [apply Hv, Hn|].
  exists evs. split; [exact Hc|]. eapply Forall_impl; [|exact He].
  intros ev Hin E. apply Hn. rewrite <- E. exact Hin.
Qed.

Lemma eligible_frame v w w' :
  views w' v = views w v -> settings w' = settings w -> eligible w' v = eligible w v.
Proof. intros Hv Hs. unfold eligible. rewrite Hv, Hs. reflexivity. Qed.

Lemma step_ineligible v u w r w1 :
  eligible w v = false -> _update_view u w = (r, w1) ->
  eligible w1 v = false /\ quiet_for v w w1.
Proof.
  intros He Hu. destruct (Nat.eq_dec u v) as [-> | Hne].
  - rewrite (update_view_ineligible v w He) in Hu. inversion Hu. subst.
    split; [exact He | apply quiet_refl].
  - pose proof (update_view_touches u w r w1 Hu) as Ht.
    assert (Hq : quiet_for v w w1).
    { apply (touches_quiet v [u] w w1 Ht). intros [E | []]. apply Hne, E. }
    split; [|exact Hq].
    destruct Ht as (_ & Hs & _). destruct Hq as [Hv _].
    rewrite (eligible_frame v w w1 Hv Hs). exact He.
Qed.

Lemma loop_ineligible v l : forall w r w',
  eligible w v = false -> for_each l _update_view w = (r, w') ->
  eligible w' v = false /\ quiet_for v w w'.
Proof.
  induction l as [|u t IH]; intros w r w' He H.
  - inversion H. subst. split; [exact He | apply quiet_refl].
  - cbn [for_each] in H. unfold seq in H.
    destruct (_update_view u w) as [[[]|e] w1] eqn:Hu.
    + destruct (step_ineligible v u w _ w1 He Hu) as [He1 Hq1].
      destruct (IH w1 r w' He1 H) as [He' Hq']. split; [exact He'|].
      eapply quiet_trans; eassumption.
    + inversion H. subst. apply (step_ineligible v u w _ w' He Hu).
Qed.

(** X19. A view that is not eligible when a tick begins (not processable,
    not dirty, being typed in, or transient with the option off) comes out
    of the tick exactly as it went in, and no collaborator is called for
    it, whether the tick returns or raises. *)
Theorem ineligible_view_is_left_alone (w : World) (r : result unit) (w' : World)
  (v : view_id) :
  eligible w v = false ->
  _update_foreground_views w = (r, w') ->
  views w' v = views w v
  /\ exists evs, calls w' = (calls w ++ evs)%list
                 /\ Forall (fun ev => event_view ev <> v) evs.
Proof.
  intros He. destruct (is_rendering w) eqn:Hr.
  - rewrite (tick_guard w Hr). intros H. inversion H. subst. apply quiet_refl.
  - rewrite (tick_runs w Hr).
    destruct (for_each (foreground_views w) _update_view (set_is_rendering true w))
      as [[[]|e] w1] eqn:Hl; intros H; inversion H; subst;
      destruct (loop_ineligible v _ (set_is_rendering true w) _ _ He Hl) as [_ Hq];
      exact Hq.
Qed.

(** The calm desk with view 2 already scanned. *)
Definition settled (w : World) : World :=
  update_view 2%nat (with_dirty false) w.

Lemma ineligible_view_is_left_alone_witness :
  views (snd (_update_foreground_views (settled calm_desk))) 2%nat
  = views (settled calm_desk) 2%nat
  /\ exists evs,
       calls (snd (_update_foreground_views (settled calm_desk)))
       = (calls (settled calm_desk) ++ evs)%list
       /\ Forall (fun ev => event_view ev <> 2%nat) evs.
Proof.
  apply (ineligible_view_is_left_alone (settled calm_desk)
           (fst (_update_foreground_views (settled calm_desk)))
           (snd (_update_foreground_views (settled calm_desk))) 2%nat).
  - reflexivity.
  - vm_compute. reflexivity.
Defined.

(** ** A tick that returns *)

Lemma update_view_ok_clean v w w1 :
  _update_view v w = (Ok tt, w1) -> eligible w v = true ->
  is_dirty (views w1 v) = false.
Proof.
  unfold_update_view. rewrite gates_eligible. intros H He. rewrite He in H.
  cbn [negb] in H. revert H.
  destruct (size (views w v) >? large_file_threshold (settings w)).
  { intros H. inversion H. cbn [update_view set_views views with_dirty is_dirty].
    rewrite Nat.eqb_refl. reflexivity. }
  cbn [record views settings sublime_attr].
  destruct (matches (views w v)) as [rs | e]; [|discriminate].
  destruct (String.eqb (show_open_button (settings w) v) "always");
    cbn [update_view set_views record views settings sublime_attr];
    destruct (String.eqb (draw_uri_regions_enabled (settings w)) "always");
    intros H; inversion H; cbn [update_view set_views views with_dirty is_dirty];
    rewrite Nat.eqb_refl; reflexivity.
Qed.

Lemma not_dirty_ineligible w v : is_dirty (views w v) = false -> eligible w v = false.
Proof.
  intros H. unfold eligible. rewrite H.
  destruct (processable (views w v)); reflexivity.
Qed.

Lemma step_visited v w w1 :
  _update_view v w = (Ok tt, w1) -> eligible w1 v = false.
Proof.
  intros H. destruct (eligible w v) eqn:He.
  - apply not_dirty_ineligible. apply (update_view_ok_clean v w w1 H He).
  - rewrite (update_view_ineligible v w He) in H. inversion H. subst. exact He.
Qed.

Lemma loop_visited v l : forall w w',
  for_each l _update_view w = (Ok tt, w') ->
  In v l \/ eligible w v = false ->
  eligible w' v = false.
Proof.
  induction l as [|u t IH]; intros w w' H Hv.
  - inversion H. subst. destruct Hv as [[] | Hv]. exact Hv.
  - cbn [for_each] in H. unfold seq in H.
    destruct (_update_view u w) as [[[]|e] w1] eqn:Hu; [|discriminate].
    apply (IH w1 w' H).
    destruct Hv as [[-> | Hin] | He].
    + right. apply (step_visited v w w1 Hu).
    + left. exact Hin.
    + right. apply (step_ineligible v u w _ w1 He Hu).
Qed.

Lemma flag_round_trip w :
  is_rendering w = false -> set_is_rendering false (set_is_rendering true w) = w.
Proof. destruct w. cbn. intros ->. reflexivity. Qed.

Lemma tick_returns w w' :
  is_rendering w = false ->
  _update_foreground_views w = (Ok tt, w') ->
  exists w1,
    for_each (foreground_views w) _update_view (set_is_rendering true w) = (Ok tt, w1)
    /\ w' = set_is_rendering false w1.
Proof.
  intros Hr. rewrite (tick_runs w Hr).
  destruct (for_each (foreground_views w) _update_view (set_is_rendering true w))
    as [[[]|e] w1]; intros H; inversion H. exists w1. split; reflexivity.
Qed.

(** Processing a view changes none of the flags the editor owns. *)
Lemma update_view_keeps_flags v u w r w1 :
  _update_view u w = (r, w1) ->
  processable (views w1 v) = processable (views w v)
  /\ typing (views w1 v) = typing (views w v)
  /\ transient (views w1 v) = transient (views w v)
  /\ settings w1 = settings w.
Proof.
  intros H. pose proof (update_view_touches u w r w1 H) as (_ & Hs & _ & _ & Hv & _).
  destruct (Nat.eq_dec v u) as [-> | Hne].
  2:{ rewrite (Hv v) by (intros [E | []]; apply Hne; symmetry; exact E).
      repeat split. exact Hs. }
  revert H. unfold_update_view. rewrite gates_eligible.
  destruct (eligible w u); cbn [negb].
  2:{ intros E. inversion E. repeat split. }
  destruct (size (views w u) >? large_file_threshold (settings w)).
  { intros E. inversion E.
    cbn [update_view set_views record views settings with_dirty with_regions
         with_phantoms processable typing transient].
    rewrite Nat.eqb_refl. repeat split. }
  cbn [record views settings sublime_attr].
  destruct (matches (views w u)) as [rs | e].
  2:{ intros E. inversion E. repeat split. }
  destruct (String.eqb (show_open_button (settings w) u) "always");
    cbn [update_view set_views record views settings sublime_attr];
    destruct (String.eqb (draw_uri_regions_enabled (settings w)) "always");
    intros E; inversion E;
    cbn [update_view set_views record views settings with_dirty with_regions
         with_phantoms processable typing transient];
    rewrite Nat.eqb_refl; repeat split.
Qed.

Lemma loop_keeps_flags v l : forall w r w',
  for_each l _update_view w = (r, w') ->
  processable (views w' v) = processable (views w v)
  /\ typing (views w' v) = typing (views w v)
  /\ transient (views w' v) = transient (views w v)
  /\ settings w' = settings w.
Proof.
  induction l as [|u t IH]; intros w r w' E.
  - inversion E. repeat split.
  - cbn [for_each] in E. unfold seq in E.
    destruct (_update_view u w) as [[[]|e] w1] eqn:Hu.
    + destruct (update_view_keeps_flags v _ _ _ _ Hu) as (A1 & A2 & A3 & A4).
      destruct (IH _ _ _ E) as (B1 & B2 & B3 & B4).
      repeat split; congruence.
    + inversion E. subst. apply (update_view_keeps_flags v _ _ _ _ Hu).
Qed.

(** X20. After a tick that returns, the flag [is_rendering] is down again
    and no foreground view is eligible any more: every one that was
    eligible has been processed and its dirty flag is clear. *)
Theorem returned_tick_leaves_nothing_to_do (w w' : World) :
  is_rendering w = false ->
  _update_foreground_views w = (Ok tt, w') ->
  is_rendering w' = false
  /\ forall v, In v (foreground_views w) ->
       eligible w' v = false
       /\ (eligible w v = true -> is_dirty (views w' v) = false).
Proof.
  intros Hr H. destruct (tick_returns w w' Hr H) as (w1 & Hl & ->).
  split; [reflexivity|]. intros v Hin.
  assert (He : eligible w1 v = false)
    by (apply (loop_visited v _ _ _ Hl); left; exact Hin).
  split; [exact He|]. intros Hwas.
  destruct (loop_keeps_flags v _ _ _ _ Hl) as (Hp & Ht & Htr & Hset).
  cbn [set_is_rendering views settings] in Hp, Ht, Htr, Hset.
  unfold eligible in He, Hwas. rewrite Hp, Ht, Htr, Hset in He.
  destruct (is_dirty (views w1 v)) eqn:Hd; [|exact Hd].
  destruct (processable (views w v)), (is_dirty (views w v)), (typing (views w v)),
    (transient (views w v)), (work_for_transient_view (settings w));
    cbn in He, Hwas; congruence.
Qed.

Lemma returned_tick_leaves_nothing_to_do_witness :
  is_rendering (snd (_update_foreground_views calm_desk)) = false
  /\ forall v, In v (foreground_views calm_desk) ->
       eligible (snd (_update_foreground_views calm_desk)) v = false
       /\ (eligible calm_desk v = true ->
           is_dirty (views (snd (_update_foreground_views calm_desk)) v) = false).
Proof.
  apply (returned_tick_leaves_nothing_to_do calm_desk
           (snd (_update_foreground_views calm_desk))).
  - reflexivity.
  - vm_compute. reflexivity.
Defined.

Lemma loop_nothing_to_do l : forall w,
  (forall v, In v l -> eligible w v = false) ->
  for_each l _update_view w = (Ok tt, w).
Proof.
  induction l as [|u t IH]; intros w H; [reflexivity|].
  cbn [for_each]. unfold seq.
  rewrite (update_view_ineligible u w (H u (or_introl eq_refl))).
  apply IH. intros v Hin. apply H. right. exact Hin.
Qed.

(** X21. Ticks are idempotent while the editor changes nothing: the tick
    that follows a tick that returned finds nothing to do, calls no
    collaborator and leaves the world as it is. *)
Theorem second_tick_is_noop (w w' : World) :
  is_rendering w = false ->
  _update_foreground_views w = (Ok tt, w') ->
  _update_foreground_views w' = (Ok tt, w').
Proof.
  intros Hr H. destruct (tick_returns w w' Hr H) as (w1 & Hl & ->).
  destruct (for_each_touches _ _ _ _ Hl) as (Hw & _).
  assert (Hfv : foreground_views (set_is_rendering false w1) = foreground_views w).
  { unfold foreground_views. cbn [set_is_rendering windows]. rewrite Hw. reflexivity. }
  rewrite (tick_runs (set_is_rendering false w1) eq_refl), Hfv.
  rewrite loop_nothing_to_do.
  - rewrite flag_round_trip by reflexivity. reflexivity.
  - intros v Hin.
    change (eligible (set_is_rendering true (set_is_rendering false w1)) v)
      with (eligible w1 v).
    apply (loop_visited v _ _ _ Hl). left. exact Hin.
Qed.

Lemma second_tick_is_noop_witness :
  _update_foreground_views (snd (_update_foreground_views calm_desk))
  = (Ok tt, snd (_update_foreground_views calm_desk)).
Proof.
  apply (second_tick_is_noop calm_desk (snd (_update_foreground_views calm_desk))).
  - reflexivity.
  - vm_compute. reflexivity.
Defined.

(** X22. A tick touches foreground views only: the windows, the settings
    and every view that is not active in some group are as before, and
    every call to a collaborator is for a foreground view. *)
Theorem tick_touches_foreground_only (w : World) (r : result unit) (w' : World) :
  _update_foreground_views w = (r, w') ->
  windows w' = windows w /\ settings w' = settings w
  /\ (forall v, ~ In v (foreground_views w) -> views w' v = views w v)
  /\ exists evs, calls w' = (calls w ++ evs)%list
                 /\ Forall (fun ev => In (event_view ev) (foreground_views w)) evs.
Proof.
  destruct (is_rendering w) eqn:Hr.
  - rewrite (tick_guard w Hr). intros H. inversion H. subst.
    repeat split. exists []. split; [symmetry; apply app_nil_r | constructor].
  - rewrite (tick_runs w Hr).
    destruct (for_each (foreground_views w) _update_view (set_is_rendering true w))
      as [[[]|e] w1] eqn:Hl; intros H; inversion H; subst;
      destruct (for_each_touches _ _ _ _ Hl) as (A & B & _ & _ & C & D);
      (split; [exact A|]); (split; [exact B|]); (split; [exact C | exact D]).
Qed.

Lemma tick_touches_foreground_only_witness :
  views (snd (_update_foreground_views calm_desk)) 7%nat = views calm_desk 7%nat.
Proof.
  destruct (tick_touches_foreground_only calm_desk
              (fst (_update_foreground_views calm_desk))
              (snd (_update_foreground_views calm_desk)))
    as (_ & _ & H & _).
  - vm_compute. reflexivity.
  - apply H. cbn. intros [E | [E | [E | []]]]; discriminate E.
Defined.

End TickLaws.

(* ================================================================== *)
(** * More on the caches *)

Module CacheLaws.

Import Py Sublime Image LruCache CachedImage CacheFacts ImageCache PyFacts Codec.

Section Wrapper.

Variables K V : Type.
Variable K_eq_dec : forall x y : K, {x = y} + {x <> y}.

Lemma remove_length k (c : cache K V) :
  (List.length (remove K_eq_dec k c) <= List.length c)%nat.
Proof.
  induction c as [|[k1 v1] t IH]; cbn; [lia|].
  destruct (K_eq_dec k k1); cbn; lia.
Qed.

Lemma remove_length_present k v (c : cache K V) :
  cache_get K_eq_dec k c = Some v ->
  (S (List.length (remove K_eq_dec k c)) <= List.length c)%nat.
Proof.
  induction c as [|[k1 v1] t IH]; cbn; [discriminate|].
  destruct (K_eq_dec k k1) as [-> | Hne].
  - intros _. pose proof (remove_length k1 t). lia.
  - intros H. cbn. specialize (IH H). lia.
Qed.

(** The wrapper never lets the cache grow beyond [maxsize]. *)
Lemma wrapper_bounded {S : Type} maxsize (f : K -> S -> result V * S) k c s r c' s' :
  wrapper K_eq_dec maxsize f k c s = (r, c', s') ->
  (List.length c <= maxsize)%nat -> (List.length c' <= maxsize)%nat.
Proof.
  unfold wrapper. intros H Hb.
  destruct (cache_get K_eq_dec k c) as [v|] eqn:Hg.
  - inversion H. subst. unfold touch. cbn [List.length].
    pose proof (remove_length_present k v c Hg). lia.
  - destruct (f k s) as [[v|e] s1]; inversion H; subst; [|exact Hb].
    unfold store. apply firstn_le_length.
Qed.

(** Around a function that reads and changes a state, the wrapper returns
    what the function would return, provided the function's result does
    not depend on the state as long as the state is sound. *)
Lemma wrapper_agrees {S : Type} (sound : S -> Prop) (g : K -> result V)
  maxsize (f : K -> S -> result V * S) k c s r c' s' :
  (forall k s r s', sound s -> f k s = (r, s') -> r = g k /\ sound s') ->
  coherent K V g c -> sound s ->
  wrapper K_eq_dec maxsize f k c s = (r, c', s') ->
  r = g k /\ coherent K V g c' /\ sound s'.
Proof.
  unfold wrapper. intros Hf Hc Hs H.
  destruct (cache_get K_eq_dec k c) as [v|] eqn:Hg.
  - inversion H. subst.
    pose proof (Hc k v (cache_get_in _ _ K_eq_dec _ _ _ Hg)) as Hv.
    split; [symmetry; exact Hv|]. split; [|exact Hs].
    intros k1 v1 [E | Hin]; [inversion E; subst; exact Hv|].
    apply Hc. apply (in_remove _ _ K_eq_dec _ k), Hin.
  - destruct (f k s) as [r1 s1] eqn:Hfk.
    destruct (Hf k s r1 s1 Hs Hfk) as [Hr Hs1].
    destruct r1 as [v|e]; inversion H; subst; repeat split; auto.
    intros k1 v1 Hin. unfold store in Hin.
    assert (Hin' : In (k1, v1) ((k, v) :: c)).
    { rewrite <- (firstn_skipn maxsize ((k, v) :: c)).
      apply in_or_app. left. exact Hin. }
    destruct Hin' as [E | Hin']; [inversion E; subst; symmetry; exact Hr | apply Hc, Hin'].
Qed.

End Wrapper.

Section Cached.

Variable bytes : Type.
Variable bytes_eq_dec : forall x y : bytes, {x = y} + {x <> y}.
Variable png_asRGBA : bytes -> result (Z * Z * list (list Z)).
Variable png_write : list (list Z) -> result bytes.
Variable images_bytes : string -> bytes.
Variable images_base64 : string -> string.
Variable b64encode : bytes -> string.

Local Abbreviation call :=
  (get_colored_image_base64_by_color bytes bytes_eq_dec png_asRGBA png_write
     images_bytes images_base64 b64encode).
Local Abbreviation body :=
  (get_colored_image_base64_by_color_body bytes bytes_eq_dec png_asRGBA png_write
     images_bytes images_base64 b64encode).
Local Abbreviation run :=
  (lookups bytes bytes_eq_dec png_asRGBA png_write
     images_bytes images_base64 b64encode).
Local Abbreviation recolor :=
  (fun key : png_key bytes =>
     Image.change_png_bytes_color bytes png_asRGBA png_write (fst key) (snd key)).

(** [get_colored_image_base64_by_color] with both decorators taken off. *)
Definition uncached (key : color_key) : result string :=
  let (img_name, rgba_code) := key in
  if negb (truthy rgba_code) then Ok (images_base64 img_name)
  else
    match Image.change_png_bytes_color bytes png_asRGBA png_write
            (images_bytes img_name) rgba_code with
    | Ok img_bytes => Ok (b64encode img_bytes)
    | Raise e => Raise e
    end.

(** Both caches are within bounds, hold each key once, and hold only what
    the functions return. *)
Definition sound (st : Caches bytes) : Prop :=
  ((List.length (color_cache bytes st) <= 128)%nat
   /\ NoDup (map fst (color_cache bytes st))
   /\ coherent color_key string uncached (color_cache bytes st))
  /\ ((List.length (png_cache bytes st) <= 128)%nat
      /\ NoDup (map fst (png_cache bytes st))
      /\ coherent (png_key bytes) bytes recolor (png_cache bytes st)).

Definition sound_png (c : cache (png_key bytes) bytes) : Prop :=
  (List.length c <= 128)%nat /\ NoDup (map fst c)
  /\ coherent (png_key bytes) bytes recolor c.

Lemma body_agrees key c r c' :
  sound_png c -> body key c = (r, c') -> r = uncached key /\ sound_png c'.
Proof.
  intros (Hb & Hn & Hc) H. destruct key as [img_name rgba_code].
  unfold get_colored_image_base64_by_color_body in H. unfold uncached.
  destruct (negb (truthy rgba_code)).
  { inversion H. subst. repeat split; assumption. }
  destruct (CachedImage.change_png_bytes_color bytes bytes_eq_dec png_asRGBA png_write
              (images_bytes img_name) rgba_code c) as [r1 c1] eqn:Hcall.
  pose proof (cached_recolor_wrapper bytes bytes_eq_dec png_asRGBA png_write
                _ _ _ _ _ Hcall) as Hw.
  destruct (wrapper_pure_agrees _ _ _ _ recolor _ _ _ _ Hc Hw) as [Hr Hc1].
  pose proof (wrapper_bounded _ _ _ _ _ _ _ _ _ _ _ Hw Hb) as Hb1.
  pose proof (wrapper_NoDup _ _ _ _ _ _ _ _ _ _ _ Hw Hn) as Hn1.
  cbn [fst snd] in Hr. rewrite <- Hr.
  destruct r1 as [b|e]; inversion H; subst; repeat split; assumption.
Qed.

Lemma call_sound img_name rgba_code st r st' :
  sound st -> call img_name rgba_code st = (r, st') ->
  r = uncached (img_name, rgba_code) /\ sound st'.
Proof.
  intros [(Hb & Hn & Hc) Hpng] H.
  destruct (call_color_cache bytes bytes_eq_dec png_asRGBA png_write images_bytes
              images_base64 b64encode _ _ _ _ _ H) as [pc Hw].
  assert (Hpc : pc = png_cache bytes st').
  { unfold get_colored_image_base64_by_color in H. rewrite Hw in H.
    inversion H. reflexivity. }
  subst pc.
  destruct (wrapper_agrees _ _ color_key_eq_dec sound_png uncached _ _ _ _ _ _ _ _
              body_agrees Hc Hpng Hw) as (Hr & Hc' & Hpng').
  split; [exact Hr|]. split; [|exact Hpng'].
  split; [apply (wrapper_bounded _ _ _ _ _ _ _ _ _ _ _ Hw Hb)|].
  split; [apply (wrapper_NoDup _ _ _ _ _ _ _ _ _ _ _ Hw Hn) | exact Hc'].
Qed.

Lemma empty_sound : sound (empty_caches bytes).
Proof.
  repeat split; cbn; try lia; try constructor; intros k v [].
Qed.

Lemma run_sound ks : forall st, sound st -> sound (run ks st).
Proof.
  induction ks as [|[n c] t IH]; intros st Hs; [exact Hs|].
  cbn [lookups]. apply IH.
  destruct (call n c st) as [r st'] eqn:Hc. cbn [snd].
  apply (call_sound n c st r st' Hs Hc).
Qed.

End Cached.

(** X23. Whatever calls have been made since the caches were empty,
    neither cache holds more than 128 entries, and neither holds a key
    twice. *)
Theorem caches_stay_bounded (bytes : Type)
  (bytes_eq_dec : forall x y : bytes, {x = y} + {x <> y})
  (png_asRGBA : bytes -> result (Z * Z * list (list Z)))
  (png_write : list (list Z) -> result bytes)
  (images_bytes : string -> bytes) (images_base64 : string -> string)
  (b64encode : bytes -> string) (history : list color_key) :
  let st := lookups bytes bytes_eq_dec png_asRGBA png_write images_bytes
              images_base64 b64encode history (empty_caches bytes) in
  (List.length (color_cache bytes st) <= 128)%nat
  /\ (List.length (png_cache bytes st) <= 128)%nat
  /\ NoDup (map fst (color_cache bytes st))
  /\ NoDup (map fst (png_cache bytes st)).
Proof.
  intros st.
  destruct (run_sound bytes bytes_eq_dec png_asRGBA png_write images_bytes
              images_base64 b64encode history _
              (empty_sound bytes png_asRGBA png_write images_bytes images_base64
                 b64encode))
    as [(A & B & _) (C & D & _)].
  repeat split; assumption.
Qed.

(** X24. The caches are invisible: after any history of calls,
    [get_colored_image_base64_by_color] returns what the function without
    its decorators returns for the same arguments, a raised exception
    included. *)
Theorem caching_is_transparent (bytes : Type)
  (bytes_eq_dec : forall x y : bytes, {x = y} + {x <> y})
  (png_asRGBA : bytes -> result (Z * Z * list (list Z)))
  (png_write : list (list Z) -> result bytes)
  (images_bytes : string -> bytes) (images_base64 : string -> string)
  (b64encode : bytes -> string) (history : list color_key)
  (img_name rgba_code : string) :
  fst (get_colored_image_base64_by_color bytes bytes_eq_dec png_asRGBA png_write
         images_bytes images_base64 b64encode img_name rgba_code
         (lookups bytes bytes_eq_dec png_asRGBA png_write images_bytes
            images_base64 b64encode history (empty_caches bytes)))
  = uncached bytes png_asRGBA png_write images_bytes images_base64 b64encode
      (img_name, rgba_code).
Proof.
  pose proof (run_sound bytes bytes_eq_dec png_asRGBA png_write images_bytes
                images_base64 b64encode history _
                (empty_sound bytes png_asRGBA png_write images_bytes images_base64
                   b64encode)) as Hs.
  destruct (get_colored_image_base64_by_color bytes bytes_eq_dec png_asRGBA
              png_write images_bytes images_base64 b64encode img_name rgba_code _)
    as [r st'] eqn:Hc.
  cbn [fst]. apply (call_sound _ _ _ _ _ _ _ _ _ _ _ _ Hs Hc).
Qed.

End CacheLaws.

(* ================================================================== *)
(** * The icon of a region *)

Module ByRegion.

Import Py Sublime Image LruCache CachedImage PyFacts Codec CodecLaws.

(** What a call may come to: a value, an exception of [exn], or the
    [KeyError] of a dictionary subscript. *)
Inductive outcome (A : Type) : Type :=
| Returned (a : A)
| Raised (e : exn)
| KeyError (key : string).

Arguments Returned {A} a.
Arguments Raised {A} e.
Arguments KeyError {A} key.

Definition of_result {A : Type} (r : result A) : outcome A :=
  match r with
  | Ok a => Returned a
  | Raise e => Raised e
  end.

(** [d[key]] on a dictionary with string keys. *)
Fixpoint dict_item (d : list (string * string)) (key : string) : option string :=
  match d with
  | [] => None
  | (k, v) :: t => if String.eqb k key then Some v else dict_item t key
  end.

Section Cached.

Variable bytes : Type.
Variable bytes_eq_dec : forall x y : bytes, {x = y} + {x <> y}.
Variable png_asRGBA : bytes -> result (Z * Z * list (list Z)).
Variable png_write : list (list Z) -> result bytes.
Variable images_bytes : string -> bytes.
Variable images_base64 : string -> string.
Variable b64encode : bytes -> string.

(** The editor, and the value of the setting [image_colors]. *)
Variable api : Api.
Variable image_colors : list (string * string).

Definition get_image_color (img_name : string) (region : Region) : outcome string :=
  match dict_item image_colors img_name with
  | None => KeyError img_name
  | Some color_code => of_result (color_code_to_rgba api color_code region)
  end.

Definition get_colored_image_base64_by_region (img_name : string) (region : Region)
  (st : Caches bytes) : outcome string * Caches bytes :=
  match get_image_color img_name region with
  | Returned rgba_code =>
      let (r, st') :=
        get_colored_image_base64_by_color bytes bytes_eq_dec png_asRGBA png_write
          images_bytes images_base64 b64encode img_name rgba_code st in
      (of_result r, st')
  | Raised e => (Raised e, st)
  | KeyError key => (KeyError key, st)
  end.

End Cached.

Import CacheFacts ImageCache CacheLaws Inverted.

Lemma by_color_empty_keeps_png (bytes : Type)
  (bytes_eq_dec : forall x y : bytes, {x = y} + {x <> y})
  png_asRGBA png_write images_bytes images_base64 b64encode img_name st :
  png_cache bytes
    (snd (get_colored_image_base64_by_color bytes bytes_eq_dec png_asRGBA png_write
            images_bytes images_base64 b64encode img_name "" st))
  = png_cache bytes st.
Proof.
  unfold get_colored_image_base64_by_color, wrapper.
  destruct (cache_get color_key_eq_dec (img_name, "") (color_cache bytes st));
    reflexivity.
Qed.

(** X25. A configured colour that the codec turns into the empty string
    (an unrecognised [#] form, an unknown symbol, the empty string) makes
    [get_colored_image_base64_by_region] return the stock image of that
    name, after any history of calls, without recolouring anything. *)
Theorem unusable_colour_gives_stock_image (bytes : Type)
  (bytes_eq_dec : forall x y : bytes, {x = y} + {x <> y})
  (png_asRGBA : bytes -> result (Z * Z * list (list Z)))
  (png_write : list (list Z) -> result bytes)
  (images_bytes : string -> bytes) (images_base64 : string -> string)
  (b64encode : bytes -> string)
  (api : Api) (image_colors : list (string * string))
  (history : list color_key) (img_name color_code : string) (region : Region) :
  dict_item image_colors img_name = Some color_code ->
  color_code_to_rgba api color_code region = Ok "" ->
  let st := lookups bytes bytes_eq_dec png_asRGBA png_write images_bytes
              images_base64 b64encode history (empty_caches bytes) in
  exists st',
    get_colored_image_base64_by_region bytes bytes_eq_dec png_asRGBA png_write
      images_bytes images_base64 b64encode api image_colors img_name region st
    = (Returned (images_base64 img_name), st')
    /\ png_cache bytes st' = png_cache bytes st.
Proof.
  intros Hd Hc st.
  unfold get_colored_image_base64_by_region, get_image_color.
  rewrite Hd, Hc. cbn [of_result].
  pose proof (run_sound bytes bytes_eq_dec png_asRGBA png_write images_bytes
                images_base64 b64encode history _
                (empty_sound bytes png_asRGBA png_write images_bytes images_base64
                   b64encode)) as Hs.
  pose proof (by_color_empty_keeps_png bytes bytes_eq_dec png_asRGBA png_write
                images_bytes images_base64 b64encode img_name st) as Hp.
  destruct (get_colored_image_base64_by_color bytes bytes_eq_dec png_asRGBA
              png_write images_bytes images_base64 b64encode img_name "" st)
    as [r st'] eqn:Hcall.
  destruct (call_sound _ _ _ _ _ _ _ _ _ _ _ _ Hs Hcall) as [Hr _].
  exists st'. split; [|exact Hp]. rewrite Hr. reflexivity.
Qed.

Import Recolor.

Definition try_by_region (image_colors : list (string * string)) :=
  get_colored_image_base64_by_region raw_image raw_image_eq_dec raw_asRGBA raw_write
    one_template (fun name => "stock:" ++ name) alpha_text_of no_view image_colors.

Lemma unusable_colour_gives_stock_image_witness :
  exists st',
    try_by_region [("open", "#12345")] "open" some_region
      (lookups raw_image raw_image_eq_dec raw_asRGBA raw_write one_template
         (fun name => "stock:" ++ name) alpha_text_of
         [("open", "#ff000080")] (empty_caches raw_image))
    = (Returned "stock:open", st')
    /\ png_cache raw_image st'
       = png_cache raw_image
           (lookups raw_image raw_image_eq_dec raw_asRGBA raw_write one_template
              (fun name => "stock:" ++ name) alpha_text_of
              [("open", "#ff000080")] (empty_caches raw_image)).
Proof.
  apply (unusable_colour_gives_stock_image raw_image raw_image_eq_dec raw_asRGBA
           raw_write one_template (fun name => "stock:" ++ name) alpha_text_of
           no_view [("open", "#12345")] [("open", "#ff000080")] "open" "#12345"
           some_region); reflexivity.
Defined.

(** X26. The colour is normalised before it is looked up: two settings
    that spell the same colour differently share one cache entry. Once the
    image has been returned under the first spelling, it is returned under
    the second from the cache, and nothing is recoloured again. *)
Theorem spellings_share_an_entry (bytes : Type)
  (bytes_eq_dec : forall x y : bytes, {x = y} + {x <> y})
  (png_asRGBA : bytes -> result (Z * Z * list (list Z)))
  (png_write : list (list Z) -> result bytes)
  (images_bytes : string -> bytes) (images_base64 : string -> string)
  (b64encode : bytes -> string)
  (api : Api) (colors1 colors2 : list (string * string))
  (history : list color_key) (img_name code1 code2 rgba_code v : string)
  (region1 region2 : Region) (st1 : Caches bytes) :
  dict_item colors1 img_name = Some code1 ->
  dict_item colors2 img_name = Some code2 ->
  color_code_to_rgba api code1 region1 = Ok rgba_code ->
  color_code_to_rgba api code2 region2 = Ok rgba_code ->
  get_colored_image_base64_by_region bytes bytes_eq_dec png_asRGBA png_write
    images_bytes images_base64 b64encode api colors1 img_name region1
    (lookups bytes bytes_eq_dec png_asRGBA png_write images_bytes images_base64
       b64encode history (empty_caches bytes))
  = (Returned v, st1) ->
  get_colored_image_base64_by_region bytes bytes_eq_dec png_asRGBA png_write
    images_bytes images_base64 b64encode api colors2 img_name region2 st1
  = (Returned v,
     {| color_cache :=
          touch color_key_eq_dec (img_name, rgba_code) v (color_cache bytes st1);
        png_cache := png_cache bytes st1 |}).
Proof.
  intros Hd1 Hd2 Hc1 Hc2.
  unfold get_colored_image_base64_by_region, get_image_color.
  rewrite Hd1, Hd2, Hc1, Hc2. cbn [of_result].
  destruct (get_colored_image_base64_by_color bytes bytes_eq_dec png_asRGBA
              png_write images_bytes images_base64 b64encode img_name rgba_code
              (lookups bytes bytes_eq_dec png_asRGBA png_write images_bytes
                 images_base64 b64encode history (empty_caches bytes)))
    as [r st] eqn:Hcall.
  intros H. destruct r as [v1|e]; inversion H. subst v1 st.
  destruct (call_color_cache _ _ _ _ _ _ _ _ _ _ _ _ Hcall) as [pc Hw].
  assert (Hnd : NoDup (map fst (color_cache bytes
             (lookups bytes bytes_eq_dec png_asRGBA png_write images_bytes
                images_base64 b64encode history (empty_caches bytes))))).
  { apply run_NoDup. constructor. }
  pose proof (wrapper_returns_held _ _ color_key_eq_dec default_maxsize _ [] _ _ _ _ _ _
                Hw Hnd ltac:(unfold default_maxsize; lia)) as Hh.
  pose proof (held_get _ _ color_key_eq_dec _ _ _ _ Hh) as Hg.
  unfold get_colored_image_base64_by_color, wrapper. rewrite Hg. reflexivity.
Qed.

Lemma spellings_share_an_entry_witness :
  try_by_region [("open", "#AABBCCFF")] "open" some_region
    (snd (try_by_region [("open", "#abc")] "open" some_region (empty_caches raw_image)))
  = (Returned "000000fe",
     {| color_cache :=
          touch color_key_eq_dec ("open", "#aabbccff") "000000fe"
            (color_cache raw_image
               (snd (try_by_region [("open", "#abc")] "open" some_region
                       (empty_caches raw_image))));
        png_cache :=
          png_cache raw_image
            (snd (try_by_region [("open", "#abc")] "open" some_region
                    (empty_caches raw_image))) |}).
Proof.
  apply (spellings_share_an_entry raw_image raw_image_eq_dec raw_asRGBA raw_write
           one_template (fun name => "stock:" ++ name) alpha_text_of no_view
           [("open", "#abc")] [("open", "#AABBCCFF")] [] "open" "#abc" "#AABBCCFF"
           "#aabbccff" "000000fe" some_region some_region); reflexivity.
Defined.

End ByRegion.
